(** * cuan-bot-expense: the parsing and receipt-extraction core

    A shallow embedding of [expense_bot/parser.py], [expense_bot/ocr.py],
    of the per-person share and the message dispatch of
    [expense_bot/service.py] and of [_build_command_text] of
    [telegram_bot.py], followed by the properties stated about them.
    [normalize_category] is also given over strings of Unicode code
    points (module [Wide]), where its behaviour beyond ASCII is stated.

    Modelling conventions.
    - A Python [str] is a [list ascii].  The character predicates and the
      case mappings below follow CPython on the code points 0..127; the
      development covers that repertoire (code points above 127 are kept
      as uncased symbols).
    - A Python [int] is a [Z] ([int(s)] is taken without the
      interpreter's limit on the number of digits); a Python [float] is a
      binary64 value of the standard library's [spec_float], with
      round-to-nearest-even.
    - A call that can raise returns in the [res] monad.
    - A loop that appends to a list is a recursive function returning the
      elements appended, in order; [lines[idx + 1]] is the head of the
      lines that follow. *)

From Stdlib Require Import ZArith List Bool Lia Ascii.
From Stdlib Require String.
From Stdlib Require Import SpecFloat DecimalString DecimalN Mergesort Orders
  Permutation.
Import ListNotations.
Import String.StringSyntax.
Delimit Scope string_scope with string.

Local Open Scope Z_scope.
Local Open Scope list_scope.
Local Open Scope string_scope.

(** ** Exceptions *)

Inductive exn : Type :=
| ValueError
| OverflowError
| ZeroDivisionError.

Inductive res (A : Type) : Type :=
| Ok (a : A)
| Raise (e : exn).

Arguments Ok {A} a.
Arguments Raise {A} e.

Definition bind {A B : Type} (x : res A) (f : A -> res B) : res B :=
  match x with
  | Ok a => f a
  | Raise e => Raise e
  end.

Notation "x <- c ;; k" := (bind c (fun x => k))
  (at level 61, c at next level, right associativity).
Notation "' p <- c ;; k" := (bind c (fun p => k))
  (at level 61, p pattern, c at next level, right associativity).

(** Python's [a or b] on optional integers: [a] when it is truthy (neither
    [None] nor [0]). *)
Definition truthy (a : option Z) : bool :=
  match a with
  | Some v => negb (v =? 0)
  | None => false
  end.

(** ** Strings *)

Module Py.

Definition str : Type := list ascii.

Definition lit (x : String.string) : str := String.list_ascii_of_string x.

Arguments lit x%_string_scope.

Definition code (c : ascii) : N := N_of_ascii c.

Definition between (lo hi : N) (c : ascii) : bool :=
  (N.leb lo (code c) && N.leb (code c) hi)%bool.

Definition is_digit (c : ascii) : bool := between 48 57 c.
Definition is_upper (c : ascii) : bool := between 65 90 c.
Definition is_lower (c : ascii) : bool := between 97 122 c.
Definition is_alpha (c : ascii) : bool := is_upper c || is_lower c.
Definition is_alnum (c : ascii) : bool := is_alpha c || is_digit c.

(** [str.isspace], also the class [\s] of [re] and the set removed by
    [str.strip()]: TAB..CR, FS..US and the space. *)
Definition is_space (c : ascii) : bool := between 9 13 c || between 28 32 c.

(** The C locale's [isspace], used by [float()] on an ASCII string. *)
Definition is_c_space (c : ascii) : bool := between 9 13 c || between 32 32 c.

(** The class [\w] of [re]. *)
Definition is_word (c : ascii) : bool := is_alnum c || Ascii.eqb c "_".

Definition lower_c (c : ascii) : ascii :=
  if is_upper c then ascii_of_N (code c + 32) else c.

Definition upper_c (c : ascii) : ascii :=
  if is_lower c then ascii_of_N (code c - 32) else c.

Definition lower (s : str) : str := map lower_c s.
Definition upper (s : str) : str := map upper_c s.

Fixpoint str_eqb (a b : str) : bool :=
  match a, b with
  | [], [] => true
  | x :: a', y :: b' => Ascii.eqb x y && str_eqb a' b'
  | _, _ => false
  end.

Definition is_empty (s : str) : bool :=
  match s with
  | [] => true
  | _ :: _ => false
  end.

Fixpoint drop_while (p : ascii -> bool) (s : str) : str :=
  match s with
  | [] => []
  | c :: t => if p c then drop_while p t else s
  end.

(** [s] without its longest suffix of characters satisfying [p]. *)
Fixpoint rstrip_by (p : ascii -> bool) (s : str) : str :=
  match s with
  | [] => []
  | c :: t =>
      match rstrip_by p t with
      | [] => if p c then [] else [c]
      | r => c :: r
      end
  end.

Definition strip_by (p : ascii -> bool) (s : str) : str :=
  rstrip_by p (drop_while p s).

(** [s.strip()] *)
Definition strip (s : str) : str := strip_by is_space s.

Definition mem (c : ascii) (cs : str) : bool := existsb (Ascii.eqb c) cs.

(** [s.strip(chars)] *)
Definition strip_chars (cs : str) (s : str) : str :=
  strip_by (fun c => mem c cs) s.

(** [s.startswith(p)] *)
Fixpoint starts_with (p s : str) : bool :=
  match p, s with
  | [], _ => true
  | x :: p', y :: s' => Ascii.eqb x y && starts_with p' s'
  | _ :: _, [] => false
  end.

(** [s.endswith(p)] *)
Definition ends_with (p s : str) : bool := starts_with (rev p) (rev s).

(** [sub in s] *)
Fixpoint contains (sub s : str) : bool :=
  starts_with sub s ||
  match s with
  | [] => false
  | _ :: t => contains sub t
  end.

(** [s.find(sub)], as an offset; [None] stands for [-1]. *)
Fixpoint find (sub s : str) : option nat :=
  if starts_with sub s then Some O
  else match s with
       | [] => None
       | _ :: t => option_map S (find sub t)
       end.

(** [s.replace(old, new)] for a non-empty [old] (every call site passes a
    non-empty literal): the non-overlapping occurrences, left to right.
    [skip] counts the characters of an occurrence still to be dropped. *)
Fixpoint replace_from (old new : str) (skip : nat) (s : str) : str :=
  match s with
  | [] => []
  | c :: t =>
      match skip with
      | S k => replace_from old new k t
      | O =>
          if starts_with old s
          then new ++ replace_from old new (Nat.pred (length old)) t
          else c :: replace_from old new O t
      end
  end.

Definition replace (old new s : str) : str := replace_from old new O s.

(** [sep.join(parts)] *)
Fixpoint join (sep : str) (parts : list str) : str :=
  match parts with
  | [] => []
  | [p] => p
  | p :: rest => p ++ sep ++ join sep rest
  end.

(** [re.sub(r"\s+", " ", s)]: every maximal run of whitespace becomes one
    space.  [in_run] tells that the previous character was whitespace. *)
Fixpoint collapse_from (in_run : bool) (s : str) : str :=
  match s with
  | [] => []
  | c :: t =>
      if is_space c
      then (if in_run then collapse_from true t
            else " "%char :: collapse_from true t)
      else c :: collapse_from false t
  end.

Definition collapse_ws (s : str) : str := collapse_from false s.

(** [re.sub(r"\D", "", s)] *)
Definition digits_only (s : str) : str := filter is_digit s.

Definition digit_val (c : ascii) : Z := Z.of_N (code c) - 48.

(** [int(s)] for a string of decimal digits. *)
Definition int_of_digits (s : str) : Z :=
  fold_left (fun acc c => 10 * acc + digit_val c) s 0.

(** [s.title()]: a cased character is upper-cased when the previous
    character is not cased, lower-cased otherwise. *)
Fixpoint title_from (prev_cased : bool) (s : str) : str :=
  match s with
  | [] => []
  | c :: t =>
      (if prev_cased then lower_c c else upper_c c)
        :: title_from (is_alpha c) t
  end.

Definition title (s : str) : str := title_from false s.

(** [s.capitalize()] *)
Definition capitalize (s : str) : str :=
  match s with
  | [] => []
  | c :: t => upper_c c :: lower t
  end.

(** [s.splitlines()]: the boundaries are LF, CR, CR LF, VT, FF, FS, GS and
    RS; no empty last line is produced. *)
Definition is_linebreak (c : ascii) : bool :=
  between 10 13 c || between 28 30 c.

Fixpoint splitlines_from (cur : str) (after_cr : bool) (s : str) : list str :=
  match s with
  | [] => if is_empty cur then [] else [rev cur]
  | c :: t =>
      if after_cr && Ascii.eqb c "010" && is_empty cur
      then splitlines_from [] false t
      else if is_linebreak c
           then rev cur :: splitlines_from [] (Ascii.eqb c "013") t
           else splitlines_from (c :: cur) false t
  end.

Definition splitlines (s : str) : list str := splitlines_from [] false s.

(** [s[i:j]] for [0 <= i <= j]. *)
Definition slice (s : str) (i j : nat) : str := firstn (j - i) (skipn i s).

(** [sum(1 for c in s if p(c))] *)
Definition count (p : ascii -> bool) (s : str) : Z :=
  Z.of_nat (length (filter p s)).

(** [str(n)] for a natural number. *)
Definition str_of_N (n : N) : str :=
  lit (NilZero.string_of_uint (N.to_uint n)).

(** [s.isascii()] *)
Definition isascii (s : str) : bool := forallb (fun c => N.ltb (code c) 128) s.

End Py.

Import Py.

(** ** Floats

    Python's [float] is IEEE 754 binary64.  The arithmetic is the standard
    library's executable specification [SpecFloat], instantiated at the
    precision 53 and the exponent bound 1024. *)

Module PyFloat.

Definition prec : Z := 53.
Definition emax : Z := 1024.

Definition float : Type := spec_float.

Definition fmul (x y : float) : float := SFmul prec emax x y.

(** The correctly rounded quotient of two positive integers. *)
Definition div_pos (neg : bool) (a b : Z) : float :=
  let '(q, e, l) := SFdiv_core_binary prec emax a 0 b 0 in
  binary_round_aux prec emax neg q e l.

(** The nearest float of an integer. *)
Definition nearest_of_Z (z : Z) : float := binary_normalize prec emax z 0 false.

(** [float(z)] for an [int]: raises when the nearest float is infinite. *)
Definition float_of_int (z : Z) : res float :=
  match nearest_of_Z z with
  | S754_infinity _ => Raise OverflowError
  | f => Ok f
  end.

(** [a / b] on two [int]s. *)
Definition int_truediv (a b : Z) : res float :=
  if b =? 0 then Raise ZeroDivisionError
  else
    let neg := xorb (a <? 0) (b <? 0) in
    if a =? 0 then Ok (S754_zero neg)
    else match div_pos neg (Z.abs a) (Z.abs b) with
         | S754_infinity _ => Raise OverflowError
         | f => Ok f
         end.

Definition is_zero (x : float) : bool :=
  match x with
  | S754_zero _ => true
  | _ => false
  end.

(** [x / y] on two [float]s. *)
Definition fdiv (x y : float) : res float :=
  if is_zero y then Raise ZeroDivisionError else Ok (SFdiv prec emax x y).

Definition flt (x y : float) : bool := SFltb x y.

(** The float nearest to [m * 10 ^ e10], for [0 <= m]: the value of a
    decimal literal or of a decimal string. *)
Definition of_decimal (neg : bool) (m e10 : Z) : float :=
  if m =? 0 then S754_zero neg
  else if 0 <=? e10
       then (let f := nearest_of_Z (m * 10 ^ e10) in
             if neg then SFopp f else f)
       else div_pos neg m (10 ^ (- e10)).

(** Rounding [m / 2 ^ k] to the nearest integer, ties to even. *)
Definition round_half_even (m k : Z) : Z :=
  let q := m / 2 ^ k in
  let r := m mod 2 ^ k in
  let half := 2 ^ (k - 1) in
  if r <? half then q
  else if half <? r then q + 1
       else if Z.even q then q else q + 1.

Definition cond_opp (neg : bool) (z : Z) : Z := if neg then - z else z.

(** [round(x)] with one argument: the nearest [int], ties to even. *)
Definition py_round (x : float) : res Z :=
  match x with
  | S754_nan => Raise ValueError
  | S754_infinity _ => Raise OverflowError
  | S754_zero _ => Ok 0
  | S754_finite s m e =>
      Ok (cond_opp s (if 0 <=? e then Zpos m * 2 ^ e
                      else round_half_even (Zpos m) (- e)))
  end.

(** [math.ceil(x)] *)
Definition py_ceil (x : float) : res Z :=
  match x with
  | S754_nan => Raise ValueError
  | S754_infinity _ => Raise OverflowError
  | S754_zero _ => Ok 0
  | S754_finite s m e =>
      Ok (if 0 <=? e then cond_opp s (Zpos m * 2 ^ e)
          else if s then - (Zpos m / 2 ^ (- e))
               else - ((- Zpos m) / 2 ^ (- e)))
  end.

(** *** [float(s)] on a string

    The argument is stripped of the C locale's whitespace; an underscore
    is accepted between two digits only; what is left must be, after an
    optional sign, [inf], [infinity] or [nan] in any case, or a decimal
    number with at least one digit and an optional exponent. *)

Fixpoint underscores_from (prev : option ascii) (s : str) : option str :=
  match s with
  | [] =>
      match prev with
      | Some "_"%char => None
      | _ => Some []
      end
  | c :: t =>
      if Ascii.eqb c "_"
      then match prev with
           | Some p => if is_digit p then underscores_from (Some c) t else None
           | None => None
           end
      else match prev with
           | Some "_"%char =>
               if is_digit c
               then option_map (cons c) (underscores_from (Some c) t)
               else None
           | _ => option_map (cons c) (underscores_from (Some c) t)
           end
  end.

Definition remove_underscores (s : str) : option str :=
  underscores_from None s.

Fixpoint span_digits (s : str) : str * str :=
  match s with
  | [] => ([], [])
  | c :: t =>
      if is_digit c
      then (let '(d, r) := span_digits t in (c :: d, r))
      else ([], s)
  end.

Definition split_sign (s : str) : bool * str :=
  match s with
  | "-"%char :: t => (true, t)
  | "+"%char :: t => (false, t)
  | _ => (false, s)
  end.

Definition parse_exponent (s : str) : option Z :=
  match s with
  | [] => Some 0
  | c :: t =>
      if Ascii.eqb (lower_c c) "e"
      then (let '(eneg, ds) := split_sign t in
            if negb (is_empty ds) && forallb is_digit ds
            then Some (cond_opp eneg (int_of_digits ds))
            else None)
      else None
  end.

Definition parse_decimal (neg : bool) (body : str) : option float :=
  let '(ip, r1) := span_digits body in
  let '(fp, r2) :=
    match r1 with
    | "."%char :: t => span_digits t
    | _ => ([], r1)
    end in
  if is_empty ip && is_empty fp then None
  else match parse_exponent r2 with
       | Some e =>
           Some (of_decimal neg (int_of_digits (ip ++ fp))
                   (e - Z.of_nat (length fp)))
       | None => None
       end.

Definition parse_float (s : str) : option float :=
  let '(neg, body) := split_sign s in
  let low := lower body in
  if str_eqb low (lit "inf") || str_eqb low (lit "infinity")
  then Some (S754_infinity neg)
  else if str_eqb low (lit "nan") then Some S754_nan
       else parse_decimal neg body.

Definition float_of_str (s : str) : res float :=
  match remove_underscores (strip_by is_c_space s) with
  | None => Raise ValueError
  | Some t =>
      match parse_float t with
      | Some f => Ok f
      | None => Raise ValueError
      end
  end.

End PyFloat.

Import PyFloat.

(** ** Regular expressions

    The patterns of the program are matched by Python's [re]: a
    backtracking matcher that tries the alternatives of [|] in order, lets
    [*], [+], [?] and [{m,n}] take as much as they can first, and reports
    the leftmost match.  [matches] is that matcher in continuation-passing
    style; the patterns themselves are written as [regex] terms next to
    the Python pattern they stand for; in these comments the blanks
    outside a character class are layout, not part of the pattern. *)

Module Re.

Inductive regex : Type :=
| Eps
| Chr (p : ascii -> bool)
| Seq (a b : regex)
| Alt (a b : regex)
| Star (a : regex)
| Group (n : nat) (a : regex)
| WordB
| EndS
| NegLook (a : regex).

(** A position in the subject: the offset, the character before it and the
    characters from it on. *)
Record cursor : Type := mkCursor {
  idx : nat;
  before : option ascii;
  rest : str
}.

(** The spans [(start, end)] of the numbered groups. *)
Definition captures : Type := list (nat * (nat * nat)).

Definition outcome : Type := option (nat * captures).

Definition advance (p : cursor) (c : ascii) (t : str) : cursor :=
  mkCursor (S (idx p)) (Some c) t.

Definition word_before (p : cursor) : bool :=
  match before p with
  | Some c => is_word c
  | None => false
  end.

Definition word_after (p : cursor) : bool :=
  match rest p with
  | c :: _ => is_word c
  | [] => false
  end.

(** [$] without [re.MULTILINE]: the end, or just before a final newline. *)
Definition at_end (p : cursor) : bool :=
  match rest p with
  | [] => true
  | [c] => Ascii.eqb c "010"
  | _ => false
  end.

Fixpoint matches (r : regex) (p : cursor) (cs : captures)
    (k : cursor -> captures -> outcome) {struct r} : outcome :=
  match r with
  | Eps => k p cs
  | Chr f =>
      match rest p with
      | c :: t => if f c then k (advance p c t) cs else None
      | [] => None
      end
  | Seq a b => matches a p cs (fun p' cs' => matches b p' cs' k)
  | Alt a b =>
      match matches a p cs k with
      | Some x => Some x
      | None => matches b p cs k
      end
  | Star a =>
      (fix loop (n : nat) (p : cursor) (cs : captures) {struct n} : outcome :=
         match n with
         | O => k p cs
         | S n' =>
             match matches a p cs
                     (fun p' cs' =>
                        if Nat.ltb (idx p) (idx p') then loop n' p' cs'
                        else None) with
             | Some x => Some x
             | None => k p cs
             end
         end) (S (length (rest p))) p cs
  | Group n a =>
      matches a p cs (fun p' cs' => k p' ((n, (idx p, idx p')) :: cs'))
  | WordB => if xorb (word_before p) (word_after p) then k p cs else None
  | EndS => if at_end p then k p cs else None
  | NegLook a =>
      match matches a p cs (fun p' cs' => Some (idx p', cs')) with
      | Some _ => None
      | None => k p cs
      end
  end.

Definition accept (p : cursor) (cs : captures) : outcome := Some (idx p, cs).

(** A match: its start, its end and its group spans. *)
Record found : Type := mkFound {
  m_start : nat;
  m_end : nat;
  m_groups : captures
}.

Fixpoint search_from (r : regex) (i : nat) (b : option ascii) (s : str)
    : option found :=
  match matches r (mkCursor i b s) [] accept with
  | Some (e, cs) => Some (mkFound i e cs)
  | None =>
      match s with
      | [] => None
      | c :: t => search_from r (S i) (Some c) t
      end
  end.

(** [pattern.search(s)] *)
Definition search (r : regex) (s : str) : option found :=
  search_from r O None s.

(** [pattern.finditer(s)]: the successive matches, each search resuming
    where the previous match ended.  [skip] counts the characters of the
    previous match still to be passed over. *)
Fixpoint finditer_from (r : regex) (skip : nat) (i : nat) (b : option ascii)
    (s : str) : list found :=
  match skip with
  | S j =>
      match s with
      | [] => []
      | c :: t => finditer_from r j (S i) (Some c) t
      end
  | O =>
      match matches r (mkCursor i b s) [] accept with
      | Some (e, cs) =>
          mkFound i e cs ::
          match s with
          | [] => []
          | c :: t => finditer_from r (Nat.pred (e - i)) (S i) (Some c) t
          end
      | None =>
          match s with
          | [] => []
          | c :: t => finditer_from r O (S i) (Some c) t
          end
      end
  end.

Definition finditer (r : regex) (s : str) : list found :=
  finditer_from r O O None s.

Fixpoint lookup (n : nat) (cs : captures) : option (nat * nat) :=
  match cs with
  | [] => None
  | (j, span) :: t => if Nat.eqb n j then Some span else lookup n t
  end.

(** [m.group(0)] *)
Definition group0 (s : str) (m : found) : str := slice s (m_start m) (m_end m).

(** [m.group(n)] for a group that took part in the match. *)
Definition group (s : str) (m : found) (n : nat) : str :=
  match lookup n (m_groups m) with
  | Some (i, j) => slice s i j
  | None => []
  end.

(** *** Pattern combinators *)

Definition chr (c : ascii) : regex := Chr (Ascii.eqb c).

(** A literal character under [(?i)]. *)
Definition chr_i (c : ascii) : regex :=
  Chr (fun x => Ascii.eqb (lower_c x) (lower_c c)).

Definition one_of (cs : String.string) : regex :=
  Chr (fun x => mem x (lit cs)).

Arguments one_of cs%_string_scope.

Definition digit : regex := Chr is_digit.
Definition space : regex := Chr is_space.

Fixpoint seq_of (rs : list regex) : regex :=
  match rs with
  | [] => Eps
  | [r] => r
  | r :: t => Seq r (seq_of t)
  end.

Fixpoint alt_of (rs : list regex) : regex :=
  match rs with
  | [] => Eps
  | [r] => r
  | r :: t => Alt r (alt_of t)
  end.

(** A literal word, case-sensitively and under [(?i)]. *)
Definition word (w : String.string) : regex := seq_of (map chr (lit w)).
Definition word_i (w : String.string) : regex := seq_of (map chr_i (lit w)).

Arguments word w%_string_scope.
Arguments word_i w%_string_scope.

Definition words_i (ws : list String.string) : regex :=
  alt_of (map word_i ws).

(** [r?], [r+], [r{n}] and [r{lo,lo+extra}], all greedy. *)
Definition opt (r : regex) : regex := Alt r Eps.
Definition plus (r : regex) : regex := Seq r (Star r).

Fixpoint times (n : nat) (r : regex) : regex :=
  match n with
  | O => Eps
  | S n' => Seq r (times n' r)
  end.

Fixpoint upto (n : nat) (r : regex) : regex :=
  match n with
  | O => Eps
  | S n' => Alt (Seq r (upto n' r)) Eps
  end.

Definition range (lo extra : nat) (r : regex) : regex :=
  Seq (times lo r) (upto extra r).

End Re.

Import Re.

(** ** parser.py *)

Module Parser.

Definition MAGNITUDES : list String.string :=
  ["rb"; "ribu"; "k"; "jt"; "juta"]%string.

(** [AMOUNT_TOKEN_RE]:
    [(?i) (?: rp \.? \s* )? ( \d+ (?: [.,] \d+ )? (?: [.,] \d{3} )* )
          (?: \s* ( rb|ribu|k|jt|juta ) \b )?] *)
Definition AMOUNT_TOKEN_RE : regex :=
  seq_of
    [ opt (seq_of [word_i "rp"; opt (chr "."); Star space]);
      Group 1
        (seq_of [ plus digit;
                  opt (Seq (one_of ".,") (plus digit));
                  Star (Seq (one_of ".,") (times 3 digit)) ]);
      opt (seq_of [Star space; Group 2 (words_i MAGNITUDES); WordB]) ].

(** [CATEGORY_KEYWORDS], in the order of its declaration (the order in
    which a [dict] is iterated). *)
Definition CATEGORY_KEYWORDS : list (str * list str) :=
  [ (lit "Makanan & Minuman",
     map lit [ "kopi"; "makan"; "minum"; "resto"; "warung"; "gofood";
               "grabfood"; "snack"; "jajan" ]%string);
    (lit "Transportasi",
     map lit [ "bensin"; "bbm"; "parkir"; "tol"; "gojek"; "gocar"; "grab";
               "kereta"; "bus"; "ojek" ]%string);
    (lit "Belanja",
     map lit [ "belanja"; "indomaret"; "alfamart"; "supermarket"; "shopee";
               "tokopedia"; "lazada"; "pakaian"; "sepatu" ]%string);
    (lit "Tagihan",
     map lit [ "listrik"; "pln"; "air"; "internet"; "wifi"; "pulsa";
               "paket data"; "token"; "bpjs" ]%string);
    (lit "Hiburan",
     map lit [ "nonton"; "bioskop"; "netflix"; "spotify"; "game"; "steam";
               "rekreasi" ]%string);
    (lit "Kesehatan",
     map lit [ "dokter"; "obat"; "klinik"; "apotek"; "vitamin";
               "rumah sakit" ]%string);
    (lit "Pendidikan",
     map lit [ "kursus"; "buku"; "sekolah"; "kuliah"; "pelatihan" ]%string) ].

Definition STOPWORDS : list str :=
  map lit [ "beli"; "bayar"; "belanja"; "order"; "pesan"; "pesen"; "isi";
            "topup"; "top up" ]%string.

Record ParsedExpense : Type := mkParsedExpense {
  item : str;
  amount : Z;
  category : str
}.

Record ParsedSplitBill : Type := mkParsedSplitBill {
  subtotal : Z;
  people : Z;
  service_amount : Z;
  tax_amount : Z
}.

Definition grand_total (b : ParsedSplitBill) : Z :=
  subtotal b + service_amount b + tax_amount b.

(** [f"{amount:,}"]: the decimal digits in groups of three. *)
Fixpoint commas_from (n : nat) (rev_digits : str) : str :=
  match rev_digits with
  | [] => []
  | c :: t =>
      match n, t with
      | S (S O), _ :: _ => c :: ","%char :: commas_from O t
      | _, _ => c :: commas_from (S n) t
      end
  end.

Definition with_commas (z : Z) : str :=
  (if z <? 0 then lit "-" else []) ++
  rev (commas_from O (rev (str_of_N (Z.abs_N z)))).

Definition format_idr (amount : Z) : str :=
  replace (lit ",") (lit ".") (lit "Rp" ++ with_commas amount).

(** The loop over [("ribu", "rb", "k", "juta", "jt")] of
    [parse_amount_token]: the first candidate that ends the token, and the
    token without it. *)
Fixpoint cut_suffix (candidates : list str) (token_lower : str) : str * str :=
  match candidates with
  | [] => ([], token_lower)
  | candidate :: others =>
      if ends_with candidate token_lower
      then (candidate,
            firstn (length token_lower - length candidate) token_lower)
      else cut_suffix others token_lower
  end.

Definition in_set (s : str) (set : list String.string) : bool :=
  existsb (fun x => str_eqb s (lit x)) set.

Definition parse_amount_token (token : str) : res (option Z) :=
  let token_lower :=
    replace (lit "idr") [] (replace (lit "rp") [] (lower (strip token))) in
  let token_lower := replace (lit " ") [] token_lower in
  if is_empty token_lower then Ok None
  else
    let '(suffix, token_lower) :=
      cut_suffix (map lit ["ribu"; "rb"; "k"; "juta"; "jt"]%string)
        token_lower in
    if is_empty token_lower then Ok None
    else if is_empty suffix
    then
      (let digits := digits_only token_lower in
       if is_empty digits then Ok None
       else Ok (Some (int_of_digits digits)))
    else
      let token_numeric := replace (lit ",") (lit ".") token_lower in
      match float_of_str token_numeric with
      | Raise ValueError => Ok None
      | Raise e => Raise e
      | Ok base_float =>
          if in_set suffix ["rb"; "ribu"; "k"]%string
          then v <- py_round (fmul base_float (nearest_of_Z 1000)) ;;
               Ok (Some v)
          else if in_set suffix ["jt"; "juta"]%string
          then v <- py_round (fmul base_float (nearest_of_Z 1000000)) ;;
               Ok (Some v)
          else v <- py_round base_float ;; Ok (Some v)
      end.

(** [if not amount or amount <= 0: return None], then [return amount]. *)
Definition positive_or_none (a : option Z) : option Z :=
  match a with
  | Some v => if negb (truthy a) || (v <=? 0) then None else Some v
  | None => None
  end.

Definition parse_amount_from_text (text : str) : res (option Z) :=
  match search AMOUNT_TOKEN_RE text with
  | None => Ok None
  | Some m =>
      a <- parse_amount_token (group0 text m) ;;
      Ok (positive_or_none a)
  end.

Fixpoint first_category (table : list (str * list str)) (low : str)
    : option str :=
  match table with
  | [] => None
  | (category, keywords) :: others =>
      if existsb (fun keyword => contains keyword low) keywords
      then Some category
      else first_category others low
  end.

Definition infer_category (item_text : str) : str :=
  match first_category CATEGORY_KEYWORDS (lower item_text) with
  | Some category => category
  | None => lit "Lainnya"
  end.

Fixpoint known_category (table : list (str * list str)) (clean : str)
    : option str :=
  match table with
  | [] => None
  | (category, _) :: others =>
      if str_eqb clean (lower category) then Some category
      else known_category others clean
  end.

Definition normalize_category (name : str) : str :=
  let clean := lower (strip (collapse_ws name)) in
  if is_empty clean then lit "Lainnya"
  else match known_category CATEGORY_KEYWORDS clean with
       | Some category => category
       | None => title clean
       end.

(** The category override of [parse_expense_input]:
    [(?i) (?: kategori|cat ) \s* [:=-]? \s* ( [a-zA-Z/& ]+ ) $] *)
Definition CATEGORY_OVERRIDE_RE : regex :=
  seq_of
    [ words_i ["kategori"; "cat"]%string;
      Star space; opt (one_of ":=-"); Star space;
      Group 1 (plus (Chr (fun c => is_alpha c || mem c (lit "/& "))));
      EndS ].

(** The loop over [STOPWORDS] of [parse_expense_input]. *)
Fixpoint drop_stopword (stopwords : list str) (item_candidate : str) : str :=
  match stopwords with
  | [] => item_candidate
  | stopword :: others =>
      if starts_with (stopword ++ lit " ") (lower item_candidate)
      then strip (skipn (length stopword) item_candidate)
      else drop_stopword others item_candidate
  end.

Definition parse_expense_input (text : str) : res (option ParsedExpense) :=
  let clean := collapse_ws (strip text) in
  if is_empty clean then Ok None
  else
    let '(category, clean) :=
      match search CATEGORY_OVERRIDE_RE clean with
      | Some category_match =>
          (normalize_category (group clean category_match 1),
           strip (firstn (m_start category_match) clean))
      | None => ([], clean)
      end in
    match search AMOUNT_TOKEN_RE clean with
    | None => Ok None
    | Some amount_match =>
        a <- parse_amount_token (group0 clean amount_match) ;;
        match positive_or_none a with
        | None => Ok None
        | Some amount =>
            let item_candidate :=
              strip_chars (lit " ,.-:")
                (firstn (m_start amount_match) clean
                 ++ skipn (m_end amount_match) clean) in
            let item_candidate := drop_stopword STOPWORDS item_candidate in
            if is_empty item_candidate then Ok None
            else
              let item := capitalize (strip item_candidate) in
              let selected_category :=
                if is_empty category then infer_category item else category in
              Ok (Some (mkParsedExpense item amount selected_category))
        end
    end.

(** [(?i) <keyword> \s* [:=]? \s* ( [0-9]+ (?: [.,] [0-9]+ )? ) \s* %];
    the keywords passed are plain words, which [re.escape] leaves as they
    are. *)
Definition percentage_re (keyword : String.string) : regex :=
  seq_of
    [ word_i keyword; Star space; opt (one_of ":="); Star space;
      Group 1 (Seq (plus digit) (opt (Seq (one_of ".,") (plus digit))));
      Star space; chr "%" ].

Definition parse_percentage_after_keyword (text : str)
    (keyword : String.string) : res (option float) :=
  match search (percentage_re keyword) text with
  | None => Ok None
  | Some m =>
      f <- float_of_str (replace (lit ",") (lit ".") (group text m 1)) ;;
      Ok (Some f)
  end.

(** [(?i) <keyword> \s* [:=]? \s*
          ( (?: rp \.? \s* )? \d [\d.,]* (?: \s* (?: rb|ribu|k|jt|juta ) \b )? )
          (?! [\d%] )] *)
Definition amount_after_re (keyword : String.string) : regex :=
  seq_of
    [ word_i keyword; Star space; opt (one_of ":="); Star space;
      Group 1
        (seq_of
           [ opt (seq_of [word_i "rp"; opt (chr "."); Star space]);
             digit;
             Star (Chr (fun c => is_digit c || mem c (lit ".,")));
             opt (seq_of [Star space; words_i MAGNITUDES; WordB]) ]);
      NegLook (Chr (fun c => is_digit c || Ascii.eqb c "%")) ].

Definition parse_amount_after_keyword (text : str) (keyword : String.string)
    : res (option Z) :=
  match search (amount_after_re keyword) text with
  | None => Ok None
  | Some m => parse_amount_token (group text m 1)
  end.

(** [(?i) (?: bagi|untuk|dibagi ) \s* ( \d+ ) \s* (?: orang|org|pax|teman )?] *)
Definition PEOPLE_RE : regex :=
  seq_of
    [ words_i ["bagi"; "untuk"; "dibagi"]%string; Star space;
      Group 1 (plus digit); Star space;
      opt (words_i ["orang"; "org"; "pax"; "teman"]%string) ].

(** [(?i) ( \d+ ) \s* (?: orang|org|pax|teman )] *)
Definition PEOPLE_FALLBACK_RE : regex :=
  seq_of
    [ Group 1 (plus digit); Star space;
      words_i ["orang"; "org"; "pax"; "teman"]%string ].

(** [a or b] on two optional integers, [b] being evaluated only when [a]
    is falsy. *)
Definition or_else (a b : res (option Z)) : res (option Z) :=
  x <- a ;; if truthy x then Ok x else b.

(** [a or 0] *)
Definition or_zero (a : option Z) : Z :=
  match a with
  | Some v => v
  | None => 0
  end.

(** [int(round(base * pct / 100))] for an [int] base and a [float] pct. *)
Definition percent_of (base : Z) (pct : float) : res Z :=
  b <- float_of_int base ;;
  q <- fdiv (fmul b pct) (nearest_of_Z 100) ;;
  py_round q.

Definition parse_split_bill (text : str) : res (option ParsedSplitBill) :=
  let low := lower text in
  if negb (contains (lit "split bill") low)
     && negb (contains (lit "patungan") low)
  then Ok None
  else
    let people_match :=
      match search PEOPLE_RE low with
      | Some m => Some m
      | None => search PEOPLE_FALLBACK_RE low
      end in
    match people_match with
    | None => Ok None
    | Some m =>
        let people := int_of_digits (group low m 1) in
        if people <=? 0 then Ok None
        else
          s <- or_else (parse_amount_after_keyword text "total")
                 (or_else (parse_amount_after_keyword text "tagihan")
                    (or_else (parse_amount_after_keyword text "bill")
                       (parse_amount_from_text text))) ;;
          match positive_or_none s with
          | None => Ok None
          | Some subtotal =>
              sa <- parse_amount_after_keyword text "service" ;;
              let service_amount := if truthy sa then or_zero sa else 0 in
              service_amount <-
                (if service_amount =? 0
                 then
                   service_pct <- parse_percentage_after_keyword text "service" ;;
                   match service_pct with
                   | Some pct => percent_of subtotal pct
                   | None => Ok service_amount
                   end
                 else Ok service_amount) ;;
              ta <- or_else (parse_amount_after_keyword text "pajak")
                      (parse_amount_after_keyword text "ppn") ;;
              let tax_amount := if truthy ta then or_zero ta else 0 in
              tax_amount <-
                (if tax_amount =? 0
                 then
                   tax_pct <- parse_percentage_after_keyword text "pajak" ;;
                   tax_pct <-
                     match tax_pct with
                     | None => parse_percentage_after_keyword text "ppn"
                     | Some _ => Ok tax_pct
                     end ;;
                   match tax_pct with
                   | Some pct => percent_of (subtotal + service_amount) pct
                   | None => Ok tax_amount
                   end
                 else Ok tax_amount) ;;
              Ok (Some (mkParsedSplitBill subtotal people service_amount
                          tax_amount))
          end
    end.

End Parser.

(** ** service.py: the per-person share of [_reply_split_bill] *)

Module Service.

(** [int(math.ceil(split.grand_total / split.people))] *)
Definition per_person (split : Parser.ParsedSplitBill) : res Z :=
  q <- int_truediv (Parser.grand_total split) (Parser.people split) ;;
  py_ceil q.

End Service.

(** ** ocr.py *)

Module Ocr.

Import Parser.

(** [DATE_RE]: [\b ( \d{1,2} [/-] \d{1,2} [/-] \d{2,4} ) \b] *)
Definition DATE_RE : regex :=
  seq_of
    [ WordB;
      Group 1
        (seq_of [ range 1 1 digit; one_of "/-"; range 1 1 digit; one_of "/-";
                  range 2 2 digit ]);
      WordB ].

(** [DATE_WORD_RE], compiled with [re.I]:
    [\b ( \d{1,2} \s+
          (?: jan|feb|mar|apr|mei|may|jun|jul|agu|aug|sep|okt|oct|nov|des|dec )
          [a-z]* \s+ \d{2,4} ) \b] *)
Definition DATE_WORD_RE : regex :=
  seq_of
    [ WordB;
      Group 1
        (seq_of
           [ range 1 1 digit; plus space;
             words_i [ "jan"; "feb"; "mar"; "apr"; "mei"; "may"; "jun"; "jul";
                       "agu"; "aug"; "sep"; "okt"; "oct"; "nov"; "des";
                       "dec" ];
             Star (Chr is_alpha); plus space; range 2 2 digit ]);
      WordB ].

(** [MONEY_TOKEN_RE]:
    [(?i) \b (?: rp \.? \s* | idr \s* )? \d [\d.,]*
          (?: \s* (?: rb|ribu|k|jt|juta ) \b )? \b] *)
Definition MONEY_TOKEN_RE : regex :=
  seq_of
    [ WordB;
      opt (Alt (seq_of [word_i "rp"; opt (chr "."); Star space])
               (seq_of [word_i "idr"; Star space]));
      digit;
      Star (Chr (fun c => is_digit c || mem c (lit ".,")));
      opt (seq_of [Star space; words_i MAGNITUDES; WordB]);
      WordB ].

Definition TOTAL_KEYWORDS : list str :=
  map lit [ "grand total"; "total bayar"; "amount due"; "netto"; "jumlah";
            "total" ].

Definition BANK_TOTAL_KEYWORDS : list str :=
  map lit [ "total amount"; "jumlah transfer"; "nominal transfer";
            "transfer amount"; "debit amount"; "nominal"; "total debit" ].

Definition IGNORE_TOTAL_HINTS : list str :=
  map lit [ "ppn"; "tax"; "pajak"; "service"; "change"; "kembalian";
            "payment"; "paid"; "debit"; "credit"; "cash"; "tunai"; "diskon";
            "discount"; "admin"; "subtotal"; "sub total"; "saldo"; "balance";
            "available"; "fee"; "pan"; "terminal id"; "reference no";
            "reference"; "ref" ].

Definition MERCHANT_SKIP_HINTS : list str :=
  map lit [ "struk"; "receipt"; "invoice"; "tanggal"; "date"; "table";
            "cashier"; "no."; "telp"; "phone" ].

Definition BANK_HINTS : list str :=
  map lit [ "bank"; "rekening"; "no rek"; "account"; "transfer"; "recipient";
            "va "; "virtual account"; "m-banking"; "mobile banking";
            "internet banking"; "debit"; "kredit"; "qris"; "trx"; "ref" ].

Definition BANK_NAMES : list str :=
  map lit [ "bca"; "bri"; "bni"; "mandiri"; "permata"; "cimb"; "danamon";
            "ocbc"; "dbs"; "jago"; "blu"; "seabank"; "maybank" ].

Definition MERCHANT_CATEGORY_OVERRIDES : list (str * str) :=
  [ (lit "alfamart", lit "Belanja Bulanan");
    (lit "indomaret", lit "Belanja Bulanan");
    (lit "superindo", lit "Belanja Bulanan");
    (lit "hypermart", lit "Belanja Bulanan");
    (lit "starbucks", lit "Kopi/Snack");
    (lit "kopi kenangan", lit "Kopi/Snack");
    (lit "janji jiwa", lit "Kopi/Snack");
    (lit "fore", lit "Kopi/Snack");
    (lit "mcd", lit "Makanan & Minuman");
    (lit "kfc", lit "Makanan & Minuman");
    (lit "burger king", lit "Makanan & Minuman") ].

Record ReceiptExtraction : Type := mkReceiptExtraction {
  merchant : str;
  date_text : option str;
  total : Z;
  category : str;
  used_fallback_total : bool;
  is_bank_transaction : bool
}.

Record OCRResult : Type := mkOCRResult {
  raw_text : str;
  receipt : option ReceiptExtraction;
  needs_manual_total_confirmation : bool;
  reply_text : str
}.

(** The argument of [extract_receipt_data]: a [str] or a sequence of
    them. *)
Inductive ocr_input : Type :=
| Text (s : str)
| Lines (l : list str).

(** [any(h in s for h in hints)] *)
Definition any_in (hints : list str) (s : str) : bool :=
  existsb (fun h => contains h s) hints.

Definition _normalize_lines (input : ocr_input) : list str :=
  let raw_lines :=
    match input with
    | Text s => splitlines s
    | Lines l => l
    end in
  map (fun line => strip (collapse_ws line))
      (filter (fun line => negb (is_empty (strip line))) raw_lines).

(** [s.split(".")] *)
Fixpoint split_dot_from (cur : str) (s : str) : list str :=
  match s with
  | [] => [rev cur]
  | c :: t =>
      if Ascii.eqb c "."
      then rev cur :: split_dot_from [] t
      else split_dot_from (c :: cur) t
  end.

Definition split_dot (s : str) : list str := split_dot_from [] s.

Definition token_low (token : str) : str := strip (lower token).

(** The value of [clean] after the currency markers are removed. *)
Definition token_clean (token : str) : str :=
  replace (lit "idr") []
    (replace (lit "rp") []
       (replace (lit "rp.") []
          (replace (lit " ") [] (token_low token)))).

Definition has_currency (token : str) : bool :=
  contains (lit "rp") (token_low token)
  || contains (lit "idr") (token_low token).

Definition has_suffix (token : str) : bool :=
  existsb (fun x => ends_with (lit x) (token_clean token)) MAGNITUDES.

Definition _is_plausible_money_token (token : str) : bool :=
  let clean := token_clean token in
  if is_empty clean then false
  else
    let digits := digits_only clean in
    if is_empty digits then false
    else if negb (has_suffix token) && (12 <? Z.of_nat (length digits))
    then false
    else if negb (has_suffix token) && negb (has_currency token)
            && negb (mem "." clean) && negb (mem "," clean)
            && (8 <=? Z.of_nat (length digits))
    then false
    else if negb (has_suffix token) && (mem "." clean || mem "," clean)
    then
      (let groups := split_dot (replace (lit ",") (lit ".") clean) in
       if (5 <? length groups)%nat then false
       else if (1 <? length groups)%nat
               && existsb (fun part => negb (length part =? 3)%nat)
                    (tl groups)
       then false
       else true)
    else true.

(** [if parsed and 100 <= parsed <= 2_000_000_000] *)
Definition keeps (parsed : option Z) : bool :=
  match parsed with
  | Some v => truthy parsed && (100 <=? v) && (v <=? 2000000000)
  | None => false
  end.

(** The loop of [_extract_amounts] over the candidate tokens. *)
Fixpoint amounts_of (candidates : list str) : res (list Z) :=
  match candidates with
  | [] => Ok []
  | token :: others =>
      if negb (_is_plausible_money_token token) then amounts_of others
      else
        parsed <- parse_amount_token token ;;
        amounts <- amounts_of others ;;
        Ok (if keeps parsed then or_zero parsed :: amounts else amounts)
  end.

Definition _extract_amounts (text : str) : res (list Z) :=
  amounts_of (map (group0 text) (finditer MONEY_TOKEN_RE text)).

(** One round of the loop of [_pick_merchant]; the state is
    [(merchant, best_score)]. *)
Definition merchant_step (state : str * Z) (line : str) : str * Z :=
  let '(merchant, best_score) := state in
  let low := lower line in
  if any_in MERCHANT_SKIP_HINTS low then state
  else
    let letters := count is_alpha line in
    let digits := count is_digit line in
    let score := letters - digits * 2 in
    let score := if contains (lit "rp") low then score - 8 else score in
    if (best_score <? score) && (3 <=? letters)
    then (title line, score)
    else state.

Definition _pick_merchant (lines : list str) : str :=
  fst (fold_left merchant_step (firstn 3 lines)
         (lit "Merchant tidak diketahui", -999)).

Definition BANK_CONTEXT : list str :=
  map lit [ "transfer"; "penerima"; "recipient"; "beneficiary"; "receiver";
            "rekening"; "account"; "nominal"; "debit"; "saldo"; "ref"; "trx";
            "qris" ].

Definition _detect_bank_transaction (lines : list str) : bool :=
  let joined := lower (join (lit " ") lines) in
  let has_bank_name := any_in BANK_NAMES joined in
  let has_bank_context := any_in BANK_CONTEXT joined in
  if has_bank_name && has_bank_context then true
  else
    let score :=
      length (filter (fun hint => contains hint joined) BANK_HINTS) in
    (2 <=? score)%nat.

Definition RECIPIENT_LABELS : list str :=
  map lit [ "penerima"; "recipient"; "receiver"; "beneficiary"; "tujuan";
            "kepada"; "nama penerima"; "nama tujuan" ].

Definition INVALID_HINTS : list str :=
  map lit [ "pan"; "ref"; "terminal"; "id"; "rekening"; "account" ].

(** [(?i) (?: penerima|recipient|receiver|beneficiary|tujuan|kepada )
          \s* [:=-] \s* ( .+ ) $] *)
Definition RECIPIENT_INLINE_RE : regex :=
  seq_of
    [ words_i [ "penerima"; "recipient"; "receiver"; "beneficiary"; "tujuan";
                "kepada" ];
      Star space; one_of ":=-"; Star space;
      Group 1 (plus (Chr (fun c => negb (Ascii.eqb c "010"))));
      EndS ].

(** The first loop of [_pick_bank_merchant]: the recipient found after a
    label, if any. *)
Fixpoint recipient_of (lines : list str) : res (option str) :=
  match lines with
  | [] => Ok None
  | line :: following =>
      if any_in RECIPIENT_LABELS (lower line)
      then
        let candidate :=
          match search RECIPIENT_INLINE_RE line with
          | Some inline_match => strip (group line inline_match 1)
          | None =>
              match following with
              | next :: _ => strip next
              | [] => []
              end
          end in
        digit_ratio <-
          int_truediv (count is_digit candidate)
            (Z.max (Z.of_nat (length candidate)) 1) ;;
        if (3 <=? Z.of_nat (length candidate))
           && negb (any_in INVALID_HINTS (lower candidate))
           && flt digit_ratio (of_decimal false 4 (-1))
        then Ok (Some (title candidate))
        else recipient_of following
      else recipient_of following
  end.

(** The second loop of [_pick_bank_merchant], over [lines[:6]]. *)
Fixpoint bank_of (lines : list str) : option str :=
  match lines with
  | [] => None
  | line :: others =>
      match List.find (fun bank => contains bank (lower line)) BANK_NAMES with
      | Some bank => Some (lit "Transfer " ++ upper bank)
      | None => bank_of others
      end
  end.

Definition _pick_bank_merchant (lines : list str) : res str :=
  r <- recipient_of lines ;;
  match r with
  | Some name => Ok name
  | None =>
      match bank_of (firstn 6 lines) with
      | Some name => Ok name
      | None => Ok (lit "Transaksi Bank")
      end
  end.

Definition _pick_category (merchant : str) (lines : list str) : str :=
  let merchant_low := lower merchant in
  match List.find (fun entry => contains (fst entry) merchant_low)
          MERCHANT_CATEGORY_OVERRIDES with
  | Some (_, category) => category
  | None =>
      let joined := join (lit " ") lines in
      let infer_from_text := infer_category (merchant ++ lit " " ++ joined) in
      if negb (str_eqb infer_from_text (lit "Lainnya")) then infer_from_text
      else lit "Belanja Lainnya"
  end.

(** [cut_labels_re]:
    [(?i) \b ( source of fund|qris reference|reference|ref no|merchant pan|
               customer pan|terminal id|acquirer|saldo|balance|available|
               fee|admin ) \b] *)
Definition CUT_LABELS_RE : regex :=
  seq_of
    [ WordB;
      Group 1
        (words_i [ "source of fund"; "qris reference"; "reference"; "ref no";
                   "merchant pan"; "customer pan"; "terminal id"; "acquirer";
                   "saldo"; "balance"; "available"; "fee"; "admin" ]);
      WordB ].

Definition offset_of (sub s : str) : nat :=
  match find sub s with
  | Some i => i
  | None => O
  end.

(** The inner loop of [_extract_total] on one keyword line: the amounts
    it appends to [keyword_amounts], in order. *)
Fixpoint inline_amounts (keywords : list str) (line low : str)
    : res (list Z) :=
  match keywords with
  | [] => Ok []
  | keyword :: others =>
      if contains keyword low
      then
        let segment := skipn (offset_of keyword low + length keyword) line in
        let segment :=
          match search CUT_LABELS_RE segment with
          | Some cut_match => firstn (m_start cut_match) segment
          | None => segment
          end in
        amounts <- _extract_amounts segment ;;
        later <- inline_amounts others line low ;;
        Ok (firstn 1 amounts ++ later)
      else inline_amounts others line low
  end.

(** The first loop of [_extract_total]: the list [keyword_amounts] it
    builds.  [following] is [lines[idx + 1:]]. *)
Fixpoint keyword_amounts_of (keywords : list str) (lines : list str)
    : res (list Z) :=
  match lines with
  | [] => Ok []
  | line :: following =>
      let low := lower line in
      if contains (lit "subtotal") low || contains (lit "sub total") low
      then keyword_amounts_of keywords following
      else if negb (any_in keywords low)
      then keyword_amounts_of keywords following
      else
        inline <- inline_amounts keywords line low ;;
        next <-
          match inline, following with
          | [], next_line :: _ =>
              if negb (any_in IGNORE_TOTAL_HINTS (lower next_line))
              then next_amounts <- _extract_amounts next_line ;;
                   Ok (firstn 1 next_amounts)
              else Ok []
          | _, _ => Ok []
          end ;;
        later <- keyword_amounts_of keywords following ;;
        Ok (inline ++ next ++ later)
  end.

Definition keywords_for (is_bank_transaction : bool) : list str :=
  if is_bank_transaction then BANK_TOTAL_KEYWORDS ++ TOTAL_KEYWORDS
  else TOTAL_KEYWORDS.

Definition keyword_amounts (lines : list str) (is_bank_transaction : bool)
    : res (list Z) :=
  keyword_amounts_of (keywords_for is_bank_transaction) lines.

(** The second loop of [_extract_total]: the list [all_amounts]. *)
Fixpoint all_amounts (lines : list str) : res (list Z) :=
  match lines with
  | [] => Ok []
  | line :: others =>
      if any_in IGNORE_TOTAL_HINTS (lower line) then all_amounts others
      else
        amounts <- _extract_amounts line ;;
        later <- all_amounts others ;;
        Ok (filter (fun amount => 1000 <=? amount) amounts ++ later)
  end.

Module ZOrder <: TotalLeBool.

Definition t := Z.

Definition leb := Z.leb.

Lemma leb_total : forall x y : t, leb x y = true \/ leb y x = true.
Proof. intros x y. unfold leb. rewrite !Z.leb_le. lia. Qed.

End ZOrder.

Module ZSort := Sort ZOrder.

(** [sorted(l)] on integers. *)
Definition sorted (l : list Z) : list Z := ZSort.sort l.

(** [max(l)] for a non-empty list. *)
Definition list_max (l : list Z) : Z :=
  match l with
  | [] => 0
  | x :: t => fold_left Z.max t x
  end.

Definition _extract_total (lines : list str) (is_bank_transaction : bool)
    : res (option Z * bool) :=
  ka <- keyword_amounts lines is_bank_transaction ;;
  match ka with
  | _ :: _ =>
      let sorted_amounts := sorted ka in
      Ok (Some (nth (Nat.div (length sorted_amounts) 2) sorted_amounts 0),
          false)
  | [] =>
      al <- all_amounts lines ;;
      match al with
      | _ :: _ => Ok (Some (list_max al), true)
      | [] => Ok (None, false)
      end
  end.

(** [ratio < 0.45] of [_is_noisy], with
    [ratio = (alnum_count / printable_count) if printable_count else 0]. *)
Definition weak_text (lines : list str) : res bool :=
  let joined := join (lit " ") lines in
  let alnum_count := count is_alnum joined in
  let printable_count := count (fun c => negb (is_space c)) joined in
  ratio <-
    (if printable_count =? 0 then Ok (S754_zero false)
     else int_truediv alnum_count printable_count) ;;
  Ok (flt ratio (of_decimal false 45 (-2))).

Definition _is_noisy (lines : list str) (total : option Z)
    (used_fallback_total : bool) : res bool :=
  match lines with
  | [] => Ok true
  | _ :: _ =>
      weak <- weak_text lines ;;
      let very_short := (length lines <=? 2)%nat in
      let no_total :=
        match total with
        | None => true
        | Some t => t <? 1000
        end in
      let weak_fallback := used_fallback_total && (very_short || weak) in
      Ok (no_total || weak_fallback)
  end.

Definition nl : str := ["010"%char].

Definition find_date (raw_text : str) : str :=
  match search DATE_RE raw_text with
  | Some date_match => group raw_text date_match 1
  | None =>
      match search DATE_WORD_RE raw_text with
      | Some date_word_match => group raw_text date_word_match 1
      | None => lit "-"
      end
  end.

Definition extract_receipt_data (input : ocr_input) : res OCRResult :=
  let lines := _normalize_lines input in
  let raw_text := join nl lines in
  let is_bank_transaction := _detect_bank_transaction lines in
  '(total, used_fallback) <- _extract_total lines is_bank_transaction ;;
  noisy <- _is_noisy lines total used_fallback ;;
  if noisy
  then
    Ok (mkOCRResult raw_text None true
          (lit "Sepertinya struknya agak buram, boleh konfirmasi total belanjanya berapa, Kak?"))
  else
    merchant <-
      (if is_bank_transaction then _pick_bank_merchant lines
       else Ok (_pick_merchant lines)) ;;
    let date_text := find_date raw_text in
    let category :=
      if is_bank_transaction then lit "Transfer/Bank"
      else _pick_category merchant lines in
    let total_or_0 := if truthy total then or_zero total else 0 in
    let receipt :=
      mkReceiptExtraction merchant (Some date_text) total_or_0
        category used_fallback is_bank_transaction in
    let source_label :=
      if is_bank_transaction then lit "bukti transaksi bank"
      else lit "struk" in
    let confirmation :=
      lit "Wah, " ++ source_label ++ lit " dari " ++ merchant
      ++ lit " ya! Berhasil dicatat nih:" ++ nl ++ nl
      ++ lit "Total: " ++ format_idr total_or_0 ++ nl ++ nl
      ++ lit "Kategori: " ++ category ++ nl ++ nl
      ++ lit "Tanggal: " ++ date_text ++ nl
      ++ lit "Mau langsung simpan atau ada yang mau diubah?" in
    Ok (mkOCRResult raw_text (Some receipt) false confirmation).

End Ocr.

(** ** parser.py: [parse_receipt_text] *)

Module ReceiptText.

Import Parser.

Record ReceiptInfo : Type := mkReceiptInfo {
  merchant : str;
  date_text : option str;
  total : Z;
  category : str
}.

(** [DATE_RE] of parser.py: [( \d{1,2} [/-] \d{1,2} [/-] \d{2,4} )] *)
Definition DATE_RE : regex :=
  Group 1
    (seq_of [ range 1 1 digit; one_of "/-"; range 1 1 digit; one_of "/-";
              range 2 2 digit ]).

(** [[a-zA-Z]{3,}] *)
Definition THREE_LETTERS_RE : regex :=
  Seq (times 3 (Chr is_alpha)) (Star (Chr is_alpha)).

(** The amount captured by the two keyword patterns:
    [( (?: rp \.? \s* )? \d [\d.,]* (?: \s* (?: rb|ribu|k|jt|juta ) )? )] *)
Definition AMOUNT_GROUP : regex :=
  Group 1
    (seq_of
       [ opt (seq_of [word_i "rp"; opt (chr "."); Star space]);
         digit;
         Star (Chr (fun c => is_digit c || mem c (lit ".,")));
         opt (Seq (Star space) (words_i MAGNITUDES)) ]).

Definition non_digit : regex := Chr (fun c => negb (is_digit c)).

(** [(?i) (?: grand \s* total | total \s* bayar | jumlah \s* bayar | total )
          \D{0,8} ( ... )] *)
Definition TOTAL_PATTERN : regex :=
  seq_of
    [ alt_of [ seq_of [word_i "grand"; Star space; word_i "total"];
               seq_of [word_i "total"; Star space; word_i "bayar"];
               seq_of [word_i "jumlah"; Star space; word_i "bayar"];
               word_i "total" ];
      upto 8 non_digit;
      AMOUNT_GROUP ].

(** [(?i) (?: payment | paid ) \D{0,8} ( ... )] *)
Definition PAID_PATTERN : regex :=
  seq_of [ words_i ["payment"; "paid"]; upto 8 non_digit; AMOUNT_GROUP ].

Definition RECEIPT_SKIP_TOKENS : list str :=
  map lit ["struk"; "receipt"; "tanggal"; "date"; "no."].

(** The loop over [lines[:5]]: the first line without a skip token that
    holds three letters in a row, title-cased. *)
Fixpoint merchant_of (lines : list str) : option str :=
  match lines with
  | [] => None
  | line :: others =>
      if existsb (fun token => contains token (lower line)) RECEIPT_SKIP_TOKENS
      then merchant_of others
      else match search THREE_LETTERS_RE line with
           | Some _ => Some (title line)
           | None => merchant_of others
           end
  end.

(** The loop over [keyword_patterns]: the first pattern that matches with
    a positive amount gives the total. *)
Fixpoint keyword_total (patterns : list regex) (raw_text : str)
    : res (option Z) :=
  match patterns with
  | [] => Ok None
  | pattern :: others =>
      match search pattern raw_text with
      | Some m =>
          parsed <- parse_amount_token (group raw_text m 1) ;;
          match positive_or_none parsed with
          | Some v => Ok (Some v)
          | None => keyword_total others raw_text
          end
      | None => keyword_total others raw_text
      end
  end.

(** The loop over [AMOUNT_TOKEN_RE.finditer(raw_text)]: the positive
    amounts. *)
Fixpoint positive_amounts (tokens : list str) : res (list Z) :=
  match tokens with
  | [] => Ok []
  | token :: others =>
      parsed <- parse_amount_token token ;;
      amounts <- positive_amounts others ;;
      Ok (match positive_or_none parsed with
          | Some v => v :: amounts
          | None => amounts
          end)
  end.

Definition parse_receipt_text (raw_text : str) : res (option ReceiptInfo) :=
  let lines :=
    map strip
      (filter (fun line => negb (is_empty (strip line))) (splitlines raw_text)) in
  match lines with
  | [] => Ok None
  | _ :: _ =>
      let merchant :=
        match merchant_of (firstn 5 lines) with
        | Some m => m
        | None => lit "Merchant tidak dikenal"
        end in
      let date_text :=
        match search DATE_RE raw_text with
        | Some date_match => Some (group raw_text date_match 1)
        | None => None
        end in
      total <- keyword_total [TOTAL_PATTERN; PAID_PATTERN] raw_text ;;
      total <-
        match total with
        | Some _ => Ok total
        | None =>
            amounts <-
              positive_amounts
                (map (group0 raw_text) (finditer AMOUNT_TOKEN_RE raw_text)) ;;
            match amounts with
            | _ :: _ => Ok (Some (Ocr.list_max amounts))
            | [] => Ok None
            end
        end ;;
      if truthy total
      then Ok (Some (mkReceiptInfo merchant date_text (or_zero total)
                       (infer_category merchant)))
      else Ok None
  end.

End ReceiptText.

(** ** service.py and telegram_bot.py: the dispatch of a message

    [ExpenseService.handle_text] chooses the method that answers a
    message; the methods themselves read and write the database.  The
    model keeps the choice: the result is the call that [handle_text]
    makes, with its arguments. *)

Module Bot.

Import Parser.

(** [s.replace(old, new, 1)]: the first occurrence only. *)
Fixpoint replace_first (old new s : str) : str :=
  if starts_with old s then new ++ skipn (length old) s
  else match s with
       | [] => []
       | c :: t => c :: replace_first old new t
       end.

(** [s.split()]: the maximal runs of characters that are not whitespace.
    [cur] holds the current run, last character first. *)
Fixpoint split_from (cur : str) (s : str) : list str :=
  match s with
  | [] => if is_empty cur then [] else [rev cur]
  | c :: t =>
      if is_space c
      then if is_empty cur then split_from [] t
           else rev cur :: split_from [] t
      else split_from (c :: cur) t
  end.

Definition split (s : str) : list str := split_from [] s.

(** [_build_command_text] of telegram_bot.py:
    [f"/{command} {' '.join(args)}".strip()] *)
Definition _build_command_text (command : str) (args : list str) : str :=
  strip (lit "/" ++ command ++ lit " " ++ join (lit " ") args).

(** What [handle_text] returns: a fixed text, or the call of a method of
    [ExpenseService] with its arguments. *)
Inductive reply : Type :=
| usage_hint
| help_text
| _reply_total (user_key : str) (args : list str)
| _reply_list (user_key : str) (args : list str)
| _reply_delete (user_key : str) (args : list str)
| _reply_reset (user_key : str) (args : list str)
| _reply_budget (user_key : str) (raw_text : str) (args : list str)
| _reply_report (user_key : str) (raw_text : str) (args : list str)
| _render_report (user_key : str) (period : str)
| investment_refusal
| _reply_split_bill (split : ParsedSplitBill)
| record_expense (user_key : str) (item : str) (amount : Z) (category : str)
| unreadable_format.

Definition INVESTMENT_KEYWORDS : list str :=
  map lit ["investasi"; "crypto"; "kripto"; "forex"; "leverage"; "futures"].

Definition handle_text (user_key : str) (text : str) : res reply :=
  let clean := strip text in
  if is_empty clean then Ok usage_hint
  else
    let normalized := strip (lower clean) in
    let tokenized := split (replace_first (lit "/") [] normalized) in
    let command :=
      match tokenized with
      | first :: _ => first
      | [] => []
      end in
    let args := tl tokenized in
    if in_set command ["start"; "help"] then Ok help_text
    else if str_eqb command (lit "total") then Ok (_reply_total user_key args)
    else if str_eqb command (lit "list") then Ok (_reply_list user_key args)
    else if str_eqb command (lit "hapus") then Ok (_reply_delete user_key args)
    else if str_eqb command (lit "reset") then Ok (_reply_reset user_key args)
    else if in_set command ["budget"; "anggaran"]
    then Ok (_reply_budget user_key clean args)
    else if in_set command ["laporan"; "report"]
    then Ok (_reply_report user_key clean args)
    else if starts_with (lit "atur budget") normalized
            || starts_with (lit "set budget") normalized
    then Ok (_reply_budget user_key clean [])
    else if contains (lit "laporan minggu") normalized
    then Ok (_render_report user_key (lit "week"))
    else if contains (lit "laporan bulan") normalized
    then Ok (_render_report user_key (lit "month"))
    else if existsb (fun keyword => contains keyword normalized)
              INVESTMENT_KEYWORDS
    then Ok investment_refusal
    else
      split <- parse_split_bill clean ;;
      match split with
      | Some bill => Ok (_reply_split_bill bill)
      | None =>
          parsed <- parse_expense_input clean ;;
          match parsed with
          | Some e =>
              Ok (record_expense user_key (item e) (amount e) (category e))
          | None => Ok unreadable_format
          end
      end.

End Bot.

(** ** parser.py: [normalize_category] beyond ASCII

    The same function over strings of Unicode code points.  The
    whitespace class is the whole of Python's; the case mappings are
    those of the Unicode database on the code points listed in
    [casing_of], and a string with any other code point has no result
    here ([None]). *)

Module Wide.

Import Parser.

Local Open Scope N_scope.

Definition ustr : Type := list N.

(** [s.isascii()] *)
Definition isascii (s : ustr) : bool := forallb (fun c => c <? 0x80) s.

(** The code points of a string of the 8-bit model. *)
Definition of_str (s : str) : ustr := map code s.

Fixpoint ustr_eqb (a b : ustr) : bool :=
  match a, b with
  | [], [] => true
  | x :: a', y :: b' => (x =? y) && ustr_eqb a' b'
  | _, _ => false
  end.

Definition within (lo hi c : N) : bool := (lo <=? c) && (c <=? hi).

(** [str.isspace], the class [\s] of [re] on a [str] pattern and the set
    removed by [str.strip()]. *)
Definition is_space (c : N) : bool :=
  within 0x09 0x0D c || within 0x1C 0x20 c || (c =? 0x85) || (c =? 0xA0)
  || (c =? 0x1680) || within 0x2000 0x200A c || (c =? 0x2028)
  || (c =? 0x2029) || (c =? 0x202F) || (c =? 0x205F) || (c =? 0x3000).

(** The case data of a code point: its full lower-case and title-case
    mappings, and whether it is cased. *)
Record casing : Type := mkCasing {
  to_lower : list N;
  to_title : list N;
  cased : bool
}.

(** The ASCII letters; U+01F0 (small j with caron), lower case, whose
    title case is J followed by U+030C; U+030C (combining caron),
    without case. *)
Definition casing_of (c : N) : option casing :=
  if within 0x41 0x5A c then Some (mkCasing [c + 32] [c] true)
  else if within 0x61 0x7A c then Some (mkCasing [c] [c - 32] true)
  else if c <? 0x80 then Some (mkCasing [c] [c] false)
  else if c =? 0x1F0 then Some (mkCasing [0x1F0] [0x4A; 0x30C] true)
  else if c =? 0x30C then Some (mkCasing [0x30C] [0x30C] false)
  else None.

(** [s.lower()] *)
Fixpoint lower (s : ustr) : option ustr :=
  match s with
  | [] => Some []
  | c :: t =>
      match casing_of c, lower t with
      | Some k, Some r => Some (to_lower k ++ r)
      | _, _ => None
      end
  end.

(** [s.title()]: a character is mapped to title case when the previous
    character is not cased, to lower case otherwise. *)
Fixpoint title_from (prev_cased : bool) (s : ustr) : option ustr :=
  match s with
  | [] => Some []
  | c :: t =>
      match casing_of c with
      | Some k =>
          match title_from (cased k) t with
          | Some r =>
              Some ((if prev_cased then to_lower k else to_title k) ++ r)
          | None => None
          end
      | None => None
      end
  end.

Definition title (s : ustr) : option ustr := title_from false s.

Fixpoint drop_while (p : N -> bool) (s : ustr) : ustr :=
  match s with
  | [] => []
  | c :: t => if p c then drop_while p t else s
  end.

Fixpoint rstrip_by (p : N -> bool) (s : ustr) : ustr :=
  match s with
  | [] => []
  | c :: t =>
      match rstrip_by p t with
      | [] => if p c then [] else [c]
      | r => c :: r
      end
  end.

(** [s.strip()] *)
Definition strip (s : ustr) : ustr := rstrip_by is_space (drop_while is_space s).

(** [re.sub(r"\s+", " ", s)] *)
Fixpoint collapse_from (in_run : bool) (s : ustr) : ustr :=
  match s with
  | [] => []
  | c :: t =>
      if is_space c
      then (if in_run then collapse_from true t
            else 0x20 :: collapse_from true t)
      else c :: collapse_from false t
  end.

Definition collapse_ws (s : ustr) : ustr := collapse_from false s.

(** The loop over the keys of [CATEGORY_KEYWORDS]; the keys are ASCII,
    so [category.lower()] is that of the 8-bit model. *)
Fixpoint known_category (table : list (str * list str)) (clean : ustr)
    : option str :=
  match table with
  | [] => None
  | (category, _) :: others =>
      if ustr_eqb clean (of_str (Py.lower category)) then Some category
      else known_category others clean
  end.

Definition normalize_category (name : ustr) : option ustr :=
  match lower (strip (collapse_ws name)) with
  | Some clean =>
      match clean with
      | [] => Some (of_str (lit "Lainnya"))
      | _ :: _ =>
          match known_category CATEGORY_KEYWORDS clean with
          | Some category => Some (of_str category)
          | None => title clean
          end
      end
  | None => None
  end.

End Wide.

(** * Properties *)

(** ** The model on the examples of the documentation *)

Example parse_amount_token_examples :
  map Parser.parse_amount_token
    (map lit ["25000"; "25rb"; "2.5jt"; "Rp 1.200.000"; "1,5 juta"; "rp"])
  = [Ok (Some 25000); Ok (Some 25000); Ok (Some 2500000);
     Ok (Some 1200000); Ok (Some 1500000); Ok None].
Proof. vm_compute. reflexivity. Qed.

Example money_tokens_example :
  let text := lit "TOTAL Rp 50.000, 12k x3 idr7 1.5 jt 08123456789" in
  map (group0 text) (finditer Ocr.MONEY_TOKEN_RE text)
  = map lit ["Rp 50.000"; "12k"; "idr7"; "1.5 jt"; "08123456789"].
Proof. vm_compute. reflexivity. Qed.

Example float_of_str_example :
  float_of_str (lit " 0.45 ")
  = Ok (S754_finite false 8106479329266893 (-54))
  /\ float_of_str (lit "1_000.5") = Ok (S754_finite false 8800491068719104 (-43))
  /\ float_of_str (lit "1e") = Raise ValueError.
Proof. repeat split; vm_compute; reflexivity. Qed.

Example override_beats_inference :
  Parser.parse_expense_input (lit "bayar listrik 450000 kategori Tagihan")
  = Ok (Some (Parser.mkParsedExpense (lit "Listrik") 450000 (lit "Tagihan"))).
Proof. vm_compute. reflexivity. Qed.

(** ** Worked examples of the two text parsers *)

(** C4: [parse_expense_input("beli kopi 25rb")] succeeds with the item
    "Kopi", the amount 25000 and the category "Makanan & Minuman": the
    filler verb "beli" is dropped from the item, the item is capitalized,
    the token "25rb" normalizes to 25000, and the category is the one the
    keyword table gives for the item. *)
Theorem parse_expense_input_beli_kopi :
  Parser.parse_expense_input (lit "beli kopi 25rb")
  = Ok (Some (Parser.mkParsedExpense (lit "Kopi") 25000
                (lit "Makanan & Minuman")))
  /\ Parser.drop_stopword Parser.STOPWORDS (lit "beli kopi") = lit "kopi"
  /\ capitalize (lit "kopi") = lit "Kopi"
  /\ Parser.parse_amount_token (lit "25rb") = Ok (Some 25000)
  /\ Parser.infer_category (lit "Kopi") = lit "Makanan & Minuman".
Proof. repeat split; vm_compute; reflexivity. Qed.

(** C5: on "split bill total 300000 untuk 3 orang service 10% pajak 10%"
    [parse_split_bill] succeeds with subtotal 300000, 3 people, a service
    amount round(300000 * 10 / 100) = 30000, a tax amount
    round((300000 + 30000) * 10 / 100) = 33000 and the grand total 363000;
    the share per person computed by [_reply_split_bill] is
    ceil(363000 / 3) = 121000. *)
Theorem parse_split_bill_example :
  let text :=
    lit "split bill total 300000 untuk 3 orang service 10% pajak 10%" in
  let bill := Parser.mkParsedSplitBill 300000 3 30000 33000 in
  Parser.parse_split_bill text = Ok (Some bill)
  /\ Parser.parse_percentage_after_keyword text "service"
     = Ok (Some (nearest_of_Z 10))
  /\ Parser.parse_percentage_after_keyword text "pajak"
     = Ok (Some (nearest_of_Z 10))
  /\ Parser.percent_of 300000 (nearest_of_Z 10) = Ok 30000
  /\ Parser.percent_of (300000 + 30000) (nearest_of_Z 10) = Ok 33000
  /\ Parser.grand_total bill = 363000
  /\ Service.per_person bill = Ok 121000.
Proof. repeat split; vm_compute; reflexivity. Qed.

(** ** Inputs on which an entry point raises *)

(** A receipt line whose total is a one followed by 309 zeros and the
    suffix "k". *)
Definition huge_total_line : str :=
  lit "total 1" ++ repeat "0"%char 309 ++ lit "k".

(** C9: the entry points are not total.  [parse_amount_token] guards the
    conversion [float(...)] only: on "infk" the conversion yields an
    infinity and [round] raises OverflowError, on "nanrb" it yields a NaN
    and [round] raises ValueError.  A long enough digit string with a
    magnitude suffix reaches the same [round] through
    [extract_receipt_data], [parse_expense_input] and [parse_split_bill]. *)
Theorem entry_points_can_raise :
  Parser.parse_amount_token (lit "infk") = Raise OverflowError
  /\ Parser.parse_amount_token (lit "nanrb") = Raise ValueError
  /\ Ocr.extract_receipt_data (Ocr.Text huge_total_line) = Raise OverflowError
  /\ Parser.parse_expense_input huge_total_line = Raise OverflowError
  /\ Parser.parse_split_bill (lit "patungan 3 orang " ++ huge_total_line)
     = Raise OverflowError.
Proof. repeat split; vm_compute; reflexivity. Qed.

(** ** The error monad *)

Lemma bind_Ok {A B : Type} (x : res A) (f : A -> res B) (b : B) :
  bind x f = Ok b -> exists a, x = Ok a /\ f a = Ok b.
Proof.
  destruct x as [a | e]; simpl; intros H.
  - exists a. split; [reflexivity | assumption].
  - discriminate.
Qed.

Ltac bind_inv H :=
  let a := fresh "a" in
  let Ha := fresh "Ha" in
  apply bind_Ok in H; destruct H as [a [Ha H]].

(** ** The total extractor *)

Section TotalExtractor.

Import Ocr.

(** The bounds [_extract_amounts] puts on every amount it returns. *)
Definition plausible_amount (v : Z) : Prop := 100 <= v <= 2000000000.

Lemma keeps_bounds (parsed : option Z) :
  keeps parsed = true -> plausible_amount (Parser.or_zero parsed).
Proof.
  destruct parsed as [v | ]; simpl; [ | discriminate].
  rewrite !andb_true_iff, !Z.leb_le. unfold plausible_amount. tauto.
Qed.

Lemma amounts_of_bounds (candidates : list str) :
  forall l, amounts_of candidates = Ok l -> Forall plausible_amount l.
Proof.
  induction candidates as [ | token others IH]; cbn [amounts_of];
    intros l H.
  - injection H as <-. constructor.
  - destruct (_is_plausible_money_token token); cbn [negb] in H.
    + bind_inv H. bind_inv H. injection H as <-.
      destruct (keeps a) eqn:K.
      * constructor; [apply keeps_bounds, K | apply IH, Ha0].
      * apply IH, Ha0.
    + apply IH, H.
Qed.

Lemma extract_amounts_bounds (text : str) (l : list Z) :
  _extract_amounts text = Ok l -> Forall plausible_amount l.
Proof. apply amounts_of_bounds. Qed.

Lemma In_first {A : Type} (x : A) (n : nat) :
  forall l, In x (firstn n l) -> In x l.
Proof.
  induction n as [ | n IH]; intros [ | a l]; simpl; try tauto.
  intros [E | H]; [left; exact E | right; apply IH, H].
Qed.

Lemma Forall_first {A : Type} (P : A -> Prop) (n : nat) (l : list A) :
  Forall P l -> Forall P (firstn n l).
Proof.
  intros H. apply Forall_forall. intros x Hx.
  rewrite Forall_forall in H. apply H. eapply In_first, Hx.
Qed.

Lemma inline_amounts_bounds (keywords : list str) (line low : str) :
  forall l, inline_amounts keywords line low = Ok l ->
            Forall plausible_amount l.
Proof.
  induction keywords as [ | keyword others IH]; cbn [inline_amounts];
    intros l H.
  - injection H as <-. constructor.
  - destruct (contains keyword low).
    + bind_inv H. bind_inv H. injection H as <-.
      apply Forall_app. split.
      * apply (Forall_first _ 1 a). eapply extract_amounts_bounds, Ha.
      * apply IH, Ha0.
    + apply IH, H.
Qed.

Lemma keyword_amounts_of_bounds (keywords : list str) (lines : list str) :
  forall l, keyword_amounts_of keywords lines = Ok l ->
            Forall plausible_amount l.
Proof.
  induction lines as [ | line following IH]; cbn [keyword_amounts_of];
    intros l H.
  - injection H as <-. constructor.
  - destruct (_ || _); [apply IH, H | ].
    destruct (negb (any_in keywords (lower line))); [apply IH, H | ].
    bind_inv H. bind_inv H. bind_inv H. injection H as <-.
    rewrite !Forall_app. repeat split.
    + eapply inline_amounts_bounds, Ha.
    + destruct a as [ | x inline'].
      * destruct following as [ | next_line more].
        -- injection Ha0 as <-. constructor.
        -- destruct (negb (any_in IGNORE_TOTAL_HINTS (lower next_line))).
           ++ bind_inv Ha0. injection Ha0 as <-.
              apply (Forall_first _ 1 a). eapply extract_amounts_bounds, Ha2.
           ++ injection Ha0 as <-. constructor.
      * injection Ha0 as <-. constructor.
    + apply IH, Ha1.
Qed.

Lemma all_amounts_bounds (lines : list str) :
  forall l, all_amounts lines = Ok l ->
            Forall (fun v => 1000 <= v <= 2000000000) l.
Proof.
  induction lines as [ | line others IH]; cbn [all_amounts]; intros l H.
  - injection H as <-. constructor.
  - destruct (any_in IGNORE_TOTAL_HINTS (lower line)); [apply IH, H | ].
    bind_inv H. bind_inv H. injection H as <-.
    apply Forall_app. split; [ | apply IH, Ha0].
    apply extract_amounts_bounds in Ha.
    apply Forall_forall. intros v Hv.
    apply filter_In in Hv. destruct Hv as [Hin Hge].
    rewrite Forall_forall in Ha. specialize (Ha v Hin).
    unfold plausible_amount in Ha. apply Z.leb_le in Hge. lia.
Qed.

Lemma fold_max_In (t : list Z) :
  forall x, In (fold_left Z.max t x) (x :: t).
Proof.
  induction t as [ | a t IH]; simpl; intros x.
  - left. reflexivity.
  - destruct (IH (Z.max x a)) as [E | Hin].
    + destruct (Z.max_spec x a) as [[_ M] | [_ M]]; rewrite M in *; auto.
    + right. right. exact Hin.
Qed.

Lemma list_max_In (l : list Z) : l <> [] -> In (list_max l) l.
Proof.
  destruct l as [ | x t]; [congruence | intros _].
  apply fold_max_In.
Qed.

Lemma sorted_length (l : list Z) : length (sorted l) = length l.
Proof. symmetry. apply Permutation_length, ZSort.Permuted_sort. Qed.

Lemma median_In (l : list Z) :
  l <> [] -> In (nth (Nat.div (length (sorted l)) 2) (sorted l) 0) l.
Proof.
  intros Hne.
  apply Permutation_in with (l := sorted l).
  - apply Permutation_sym, ZSort.Permuted_sort.
  - apply nth_In. apply Nat.div_lt; [ | lia].
    rewrite sorted_length. destruct l; [congruence | simpl; lia].
Qed.

Lemma extract_total_keyword (lines : list str) (bank : bool) (ka : list Z) :
  keyword_amounts lines bank = Ok ka -> ka <> [] ->
  _extract_total lines bank
  = Ok (Some (nth (Nat.div (length ka) 2) (sorted ka) 0), false).
Proof.
  intros H Hne. unfold _extract_total. rewrite H. unfold bind.
  destruct ka as [ | x ka']; [congruence | ].
  rewrite sorted_length. reflexivity.
Qed.


Lemma extract_total_bounds (lines : list str) (bank : bool) (t : Z)
    (fb : bool) :
  _extract_total lines bank = Ok (Some t, fb) -> plausible_amount t.
Proof.
  unfold _extract_total. intros H. bind_inv H.
  destruct a as [ | x ka'].
  - bind_inv H. destruct a as [ | y al']; [discriminate | ].
    injection H as <- <-.
    apply all_amounts_bounds in Ha0. rewrite Forall_forall in Ha0.
    specialize (Ha0 _ (list_max_In (y :: al') ltac:(discriminate))).
    cbv beta in Ha0. unfold list_max in Ha0. unfold plausible_amount. lia.
  - injection H as <- <-.
    apply keyword_amounts_of_bounds in Ha. rewrite Forall_forall in Ha.
    apply Ha. apply median_In. discriminate.
Qed.

Lemma is_noisy_false_total (lines : list str) (total : option Z)
    (fb : bool) :
  _is_noisy lines total fb = Ok false -> exists t, total = Some t /\ 1000 <= t.
Proof.
  unfold _is_noisy. destruct lines as [ | l ls]; [discriminate | ].
  intros H. bind_inv H. injection H as H.
  apply orb_false_iff in H. destruct H as [H _].
  destruct total as [t | ]; [ | discriminate].
  exists t. split; [reflexivity | ]. apply Z.ltb_ge in H. exact H.
Qed.


(** The two shapes of a result of [extract_receipt_data]. *)
Lemma extract_receipt_data_shape (input : ocr_input) (r : OCRResult) :
  extract_receipt_data input = Ok r ->
  (receipt r = None /\ needs_manual_total_confirmation r = true)
  \/ (exists rc t fb,
        receipt r = Some rc
        /\ needs_manual_total_confirmation r = false
        /\ _extract_total (_normalize_lines input)
             (_detect_bank_transaction (_normalize_lines input))
           = Ok (Some t, fb)
        /\ 1000 <= t
        /\ total rc = t
        /\ used_fallback_total rc = fb
        /\ date_text rc <> None).
Proof.
  unfold extract_receipt_data. intros H.
  bind_inv H. destruct a as [tot fb]. bind_inv H.
  destruct a as [ | ].
  - injection H as <-. left. split; reflexivity.
  - bind_inv H. injection H as <-. right.
    destruct (is_noisy_false_total _ _ _ Ha0) as [t [-> Ht]].
    eexists. exists t, fb. simpl.
    repeat split; try reflexivity; try assumption.
    + destruct (t =? 0) eqn:E; [apply Z.eqb_eq in E; lia | reflexivity].
    + discriminate.
Qed.

End TotalExtractor.

Section ReceiptClaims.

Import Ocr.

(** C1: when the first loop of [_extract_total] collects at least one
    keyword-anchored amount, the total returned is the element at index
    [count // 2] of the sorted candidates (a sorted permutation of them)
    and [used_fallback_total] is false; with the candidates 48000, 50000
    and 1000000 the total is 50000. *)
Theorem extract_total_lower_median :
  (forall lines bank ka,
     keyword_amounts lines bank = Ok ka -> ka <> [] ->
     _extract_total lines bank
     = Ok (Some (nth (Nat.div (length ka) 2) (sorted ka) 0), false)
     /\ Permutation ka (sorted ka)
     /\ Sorted.LocallySorted (fun x y => (x <=? y) = true) (sorted ka))
  /\ (forall lines bank,
        keyword_amounts lines bank = Ok [48000; 50000; 1000000] ->
        _extract_total lines bank = Ok (Some 50000, false)).
Proof.
  split.
  - intros lines bank ka H Hne. repeat split.
    + apply extract_total_keyword; assumption.
    + apply ZSort.Permuted_sort.
    + exact (ZSort.LocallySorted_sort ka).
  - intros lines bank H.
    rewrite (extract_total_keyword _ _ _ H) by discriminate.
    reflexivity.
Qed.

Definition three_totals : list str :=
  map lit ["total 48.000"; "total 50.000"; "total 1.000.000"].

Lemma extract_total_lower_median_witness :
  keyword_amounts three_totals false = Ok [48000; 50000; 1000000]
  /\ _extract_total three_totals false = Ok (Some 50000, false)
  /\ _extract_total three_totals false
     = Ok (Some (nth 1 (sorted [48000; 50000; 1000000]) 0), false).
Proof.
  assert (H : keyword_amounts three_totals false
              = Ok [48000; 50000; 1000000])
    by (vm_compute; reflexivity).
  split; [exact H | split].
  - apply (proj2 extract_total_lower_median three_totals false H).
  - apply (proj1 extract_total_lower_median three_totals false _ H).
    discriminate.
Defined.

(** C7: in every result of [extract_receipt_data] the receipt is null
    exactly when manual confirmation is requested: either there is a
    receipt, carrying merchant, total, category and a date text, and no
    confirmation is requested, or there is none and it is. *)
Theorem receipt_null_iff_manual_confirmation (input : ocr_input)
    (r : OCRResult) :
  extract_receipt_data input = Ok r ->
  (receipt r = None <-> needs_manual_total_confirmation r = true)
  /\ ((exists rc, receipt r = Some rc
                  /\ needs_manual_total_confirmation r = false
                  /\ date_text rc <> None)
      \/ (receipt r = None /\ needs_manual_total_confirmation r = true)).
Proof.
  intros H.
  destruct (extract_receipt_data_shape input r H)
    as [[Hr Hm] | [rc [t [fb [Hr [Hm [_ [_ [_ [_ Hd]]]]]]]]]].
  - rewrite Hr, Hm. split; [tauto | right; tauto].
  - rewrite Hr, Hm. split.
    + split; discriminate.
    + left. exists rc. tauto.
Qed.

Definition retail_receipt : ocr_input :=
  Lines (map lit [ "ALFAMART"; "Jl. Merdeka 12"; "12/03/2024";
                   "Kopi 12.000"; "TOTAL Rp 50.000";
                   "Ref No 1234567890" ]).

Definition retail_result : OCRResult :=
  match extract_receipt_data retail_receipt with
  | Ok r => r
  | Raise _ => mkOCRResult [] None true []
  end.

Lemma retail_receipt_extracted :
  extract_receipt_data retail_receipt = Ok retail_result.
Proof. vm_compute. reflexivity. Qed.

Lemma receipt_null_iff_manual_confirmation_witness :
  extract_receipt_data retail_receipt = Ok retail_result
  /\ (receipt retail_result = None
      <-> needs_manual_total_confirmation retail_result = true).
Proof.
  split; [exact retail_receipt_extracted | ].
  exact (proj1 (receipt_null_iff_manual_confirmation retail_receipt
                  retail_result retail_receipt_extracted)).
Defined.

(** C10: [_extract_amounts] keeps an amount only when it lies between 100
    and 2,000,000,000, and the noise gate refuses a total below 1000: the
    total of every receipt returned by [extract_receipt_data] lies
    between 1000 and 2,000,000,000. *)
Theorem receipt_total_bounds :
  (forall text l,
     _extract_amounts text = Ok l ->
     Forall (fun v => 100 <= v <= 2000000000) l)
  /\ (forall input r rc,
        extract_receipt_data input = Ok r -> receipt r = Some rc ->
        1000 <= total rc <= 2000000000).
Proof.
  split.
  - intros text l H. exact (extract_amounts_bounds text l H).
  - intros input r rc H Hrc.
    destruct (extract_receipt_data_shape input r H)
      as [[Hr _] | [rc' [t [fb [Hr [_ [Ht [Hge [Htot _]]]]]]]]].
    + congruence.
    + assert (rc' = rc) by congruence. subst rc'.
      apply extract_total_bounds in Ht. unfold plausible_amount in Ht. lia.
Qed.

Lemma receipt_total_bounds_witness :
  _extract_amounts (lit "Rp 50.000 x 99 atau 3jt")
  = Ok [50000; 3000000]
  /\ Forall (fun v => 100 <= v <= 2000000000) [50000; 3000000]
  /\ (forall rc, receipt retail_result = Some rc ->
                 1000 <= total rc <= 2000000000).
Proof.
  assert (H : _extract_amounts (lit "Rp 50.000 x 99 atau 3jt")
              = Ok [50000; 3000000]) by (vm_compute; reflexivity).
  split; [exact H | split].
  - exact (proj1 receipt_total_bounds _ _ H).
  - intros rc.
    exact (proj2 receipt_total_bounds retail_receipt retail_result rc
             retail_receipt_extracted).
Defined.

(** A single line with a keyword-anchored total followed by garbage: one
    normalized line, 10 alphanumeric characters out of 34 printable
    ones. *)
Definition short_garbled_keyword_line : ocr_input :=
  Lines [lit "total 50000 !!!!!!!!!!!!!!!!!!!!!!!!"].





End ReceiptClaims.

(** ** Characters and strings *)

Section StringFacts.

Ltac by_cases c :=
  destruct c as [[ | ] [ | ] [ | ] [ | ] [ | ] [ | ] [ | ] [ | ]];
  vm_compute; reflexivity.

Lemma lower_c_idem (c : ascii) : lower_c (lower_c c) = lower_c c.
Proof. by_cases c. Qed.

Lemma lower_c_upper_c (c : ascii) : lower_c (upper_c c) = lower_c c.
Proof. by_cases c. Qed.

Lemma is_space_lower_c (c : ascii) : is_space (lower_c c) = is_space c.
Proof. by_cases c. Qed.

Lemma is_space_upper_c (c : ascii) : is_space (upper_c c) = is_space c.
Proof. by_cases c. Qed.

Lemma is_digit_lower_c (c : ascii) : is_digit (lower_c c) = is_digit c.
Proof. by_cases c. Qed.

Lemma lower_c_digit (c : ascii) :
  (if is_digit c then Ascii.eqb (lower_c c) c else true) = true.
Proof. by_cases c. Qed.

Lemma space_not_digit (c : ascii) :
  (if is_space c then negb (is_digit c) else true) = true.
Proof. by_cases c. Qed.

Lemma c_space_not_minus (c : ascii) :
  (if is_c_space c then negb (Ascii.eqb c "-") else true) = true.
Proof. by_cases c. Qed.

Lemma eqb_lower_c_space (c : ascii) :
  Ascii.eqb (lower_c c) " " = Ascii.eqb c " ".
Proof. by_cases c. Qed.

Lemma eqb_upper_c_space (c : ascii) :
  Ascii.eqb (upper_c c) " " = Ascii.eqb c " ".
Proof. by_cases c. Qed.

Lemma eqb_lower_c_minus (c : ascii) :
  Ascii.eqb (lower_c c) "-" = Ascii.eqb c "-".
Proof. by_cases c. Qed.

Lemma eqb_lower_c_dot (c : ascii) :
  Ascii.eqb (lower_c c) "." = Ascii.eqb c ".".
Proof. by_cases c. Qed.

Lemma eqb_lower_c_comma (c : ascii) :
  Ascii.eqb (lower_c c) "," = Ascii.eqb c ",".
Proof. by_cases c. Qed.

Lemma digit_val_nonneg (c : ascii) :
  (if is_digit c then 0 <=? digit_val c else true) = true.
Proof. by_cases c. Qed.

Lemma mem_In (c : ascii) (s : str) : mem c s = true <-> In c s.
Proof.
  unfold mem. rewrite existsb_exists. split.
  - intros [x [Hin E]]. apply Ascii.eqb_eq in E. subst x. exact Hin.
  - intros Hin. exists c. split; [exact Hin | apply Ascii.eqb_refl].
Qed.

Lemma lower_idem (s : str) : lower (lower s) = lower s.
Proof.
  unfold lower. rewrite map_map. apply map_ext. intros c. apply lower_c_idem.
Qed.

(** *** Which characters survive the string operations *)

Lemma In_drop_while (p : ascii -> bool) (c : ascii) (s : str) :
  In c (drop_while p s) -> In c s.
Proof.
  induction s as [ | a t IH]; simpl; [tauto | ].
  destruct (p a); simpl; [right; apply IH; assumption | tauto].
Qed.

Lemma In_rstrip_by (p : ascii -> bool) (c : ascii) (s : str) :
  In c (rstrip_by p s) -> In c s.
Proof.
  induction s as [ | a t IH]; simpl; [tauto | ].
  destruct (rstrip_by p t) as [ | b r].
  - destruct (p a); simpl; tauto.
  - simpl. intros [E | H]; [left; exact E | right; apply IH; exact H].
Qed.

Lemma In_strip_by (p : ascii -> bool) (c : ascii) (s : str) :
  In c (strip_by p s) -> In c s.
Proof. intros H. apply In_drop_while with p, In_rstrip_by with p, H. Qed.

Lemma In_replace_from (old new : str) (c : ascii) (s : str) :
  forall k, In c (replace_from old new k s) -> In c s \/ In c new.
Proof.
  induction s as [ | a t IH]; intros k; cbn [replace_from]; [tauto | ].
  destruct k as [ | k].
  - destruct (starts_with old (a :: t)).
    + rewrite in_app_iff. intros [H | H]; [right; exact H | ].
      destruct (IH _ H); [left; right; assumption | right; assumption].
    + intros [E | H]; [left; left; exact E | ].
      destruct (IH _ H); [left; right; assumption | right; assumption].
  - intros H. destruct (IH _ H); [left; right; assumption | right; assumption].
Qed.

Lemma In_remove (old : str) (c : ascii) (s : str) :
  In c (replace old [] s) -> In c s.
Proof.
  intros H. destruct (In_replace_from old [] c s O H) as [H' | []]. exact H'.
Qed.

Lemma In_lower_fixed (c : ascii) (s : str) :
  (forall x, Ascii.eqb (lower_c x) c = Ascii.eqb x c) ->
  In c (lower s) -> In c s.
Proof.
  intros Hc H. unfold lower in H. apply in_map_iff in H.
  destruct H as [x [E Hin]].
  assert (Ex : Ascii.eqb x c = true)
    by (rewrite <- Hc; apply Ascii.eqb_eq; exact E).
  apply Ascii.eqb_eq in Ex. subst x. exact Hin.
Qed.

(** *** Digits *)

Lemma digits_only_lower (s : str) : digits_only (lower s) = digits_only s.
Proof.
  induction s as [ | c t IH]; simpl; [reflexivity | ].
  rewrite is_digit_lower_c. pose proof (lower_c_digit c) as H.
  destruct (is_digit c); [ | exact IH].
  apply Ascii.eqb_eq in H. rewrite H. f_equal. exact IH.
Qed.

Lemma digits_only_drop_while (s : str) :
  digits_only (drop_while is_space s) = digits_only s.
Proof.
  induction s as [ | c t IH]; simpl; [reflexivity | ].
  pose proof (space_not_digit c) as H.
  destruct (is_space c); [ | reflexivity].
  apply negb_true_iff in H. rewrite H. exact IH.
Qed.

Lemma digits_only_rstrip (s : str) :
  digits_only (rstrip_by is_space s) = digits_only s.
Proof.
  induction s as [ | c t IH]; simpl; [reflexivity | ].
  destruct (rstrip_by is_space t) as [ | b r].
  - pose proof (space_not_digit c) as H. simpl in IH. rewrite <- IH.
    destruct (is_space c).
    + apply negb_true_iff in H. rewrite H. reflexivity.
    + simpl. destruct (is_digit c); reflexivity.
  - cbn [digits_only filter]. cbn [digits_only filter] in IH. rewrite IH.
    reflexivity.
Qed.

Lemma digits_only_strip (s : str) : digits_only (strip s) = digits_only s.
Proof.
  unfold strip, strip_by. rewrite digits_only_rstrip.
  apply digits_only_drop_while.
Qed.

Lemma starts_with_firstn (p : str) :
  forall s, starts_with p s = true -> firstn (length p) s = p.
Proof.
  induction p as [ | x p IH]; intros s H; [reflexivity | ].
  destruct s as [ | y s]; [discriminate | ].
  simpl in H. apply andb_true_iff in H. destruct H as [E H].
  apply Ascii.eqb_eq in E. subst y. simpl. f_equal. apply IH, H.
Qed.

Lemma digits_only_remove_from (old : str) :
  old <> [] -> forallb (fun c => negb (is_digit c)) old = true ->
  forall s k,
    forallb (fun c => negb (is_digit c)) (firstn k s) = true ->
    digits_only (replace_from old [] k s) = digits_only s.
Proof.
  intros Hne Hold.
  induction s as [ | c t IH]; intros k Hk; [reflexivity | ].
  cbn [replace_from]. destruct k as [ | k].
  - destruct (starts_with old (c :: t)) eqn:E.
    + destruct old as [ | x old']; [congruence | ].
      pose proof (starts_with_firstn _ _ E) as F.
      cbn [length firstn] in F. injection F as Fx Ft.
      cbn [forallb] in Hold. apply andb_true_iff in Hold.
      destruct Hold as [Hx Hold']. subst x.
      cbn [app length Nat.pred]. rewrite IH by (rewrite Ft; exact Hold').
      cbn [digits_only filter]. apply negb_true_iff in Hx. rewrite Hx.
      reflexivity.
    + cbn [digits_only filter]. fold (digits_only (replace_from old [] O t)).
      rewrite IH by reflexivity. reflexivity.
  - cbn [firstn forallb] in Hk. apply andb_true_iff in Hk.
    destruct Hk as [Hc Hk]. rewrite IH by exact Hk.
    cbn [digits_only filter]. apply negb_true_iff in Hc. rewrite Hc.
    reflexivity.
Qed.

Lemma digits_only_remove (old s : str) :
  old <> [] -> forallb (fun c => negb (is_digit c)) old = true ->
  digits_only (replace old [] s) = digits_only s.
Proof.
  intros Hne Hold. apply digits_only_remove_from; try assumption.
  reflexivity.
Qed.

Lemma int_of_digits_from_nonneg (s : str) :
  forallb is_digit s = true ->
  forall acc, 0 <= acc ->
    0 <= fold_left (fun a c => 10 * a + digit_val c) s acc.
Proof.
  induction s as [ | c t IH]; cbn [fold_left forallb]; intros H acc Hacc;
    [exact Hacc | ].
  apply andb_true_iff in H. destruct H as [Hc Ht].
  apply IH; [exact Ht | ].
  pose proof (digit_val_nonneg c) as Hv. rewrite Hc in Hv.
  apply Z.leb_le in Hv. lia.
Qed.

Lemma int_of_digits_nonneg (s : str) :
  forallb is_digit s = true -> 0 <= int_of_digits s.
Proof. intros H. apply int_of_digits_from_nonneg; [exact H | lia]. Qed.

Lemma digits_only_all_digits (s : str) :
  forallb is_digit (digits_only s) = true.
Proof.
  apply forallb_forall. intros c H. apply filter_In in H. tauto.
Qed.

End StringFacts.

(** ** The plausibility filter *)

Section PlausibilityFilter.

Import Ocr.

Lemma token_clean_digits (token : str) :
  digits_only (token_clean token) = digits_only token.
Proof.
  unfold token_clean, token_low.
  rewrite !digits_only_remove by (discriminate || reflexivity).
  rewrite digits_only_strip. apply digits_only_lower.
Qed.

Lemma token_clean_keeps (c : ascii) (token : str) :
  (forall x, Ascii.eqb (lower_c x) c = Ascii.eqb x c) ->
  ~ In c token -> mem c (token_clean token) = false.
Proof.
  intros Hc Hnot. destruct (mem c (token_clean token)) eqn:E; [ | reflexivity].
  exfalso. apply Hnot. apply mem_In in E.
  unfold token_clean, token_low in E.
  do 4 apply In_remove in E.
  apply In_strip_by in E. apply In_lower_fixed in E; assumption.
Qed.

(** C6: a raw token with no currency marker, no magnitude suffix and no
    grouping punctuation, and with 8 digits or more, is rejected by
    [_is_plausible_money_token]; [_extract_amounts] therefore passes over
    it without handing it to [parse_amount_token]. *)
Theorem bare_long_digits_are_implausible (token : str) :
  has_currency token = false ->
  has_suffix token = false ->
  ~ In "."%char token ->
  ~ In ","%char token ->
  8 <= count is_digit token ->
  _is_plausible_money_token token = false
  /\ forall others, amounts_of (token :: others) = amounts_of others.
Proof.
  intros Hcur Hsuf Hdot Hcomma Hlen.
  assert (H : _is_plausible_money_token token = false).
  { unfold _is_plausible_money_token.
    rewrite Hcur, Hsuf, token_clean_digits.
    rewrite (token_clean_keeps "." token eqb_lower_c_dot Hdot).
    rewrite (token_clean_keeps "," token eqb_lower_c_comma Hcomma).
    destruct (is_empty (token_clean token)); [reflexivity | ].
    destruct (is_empty (digits_only token)); [reflexivity | ].
    cbn [negb andb orb].
    destruct (12 <? Z.of_nat (length (digits_only token))); [reflexivity | ].
    unfold count in Hlen. apply Z.leb_le in Hlen.
    unfold digits_only. rewrite Hlen. reflexivity. }
  split; [exact H | ].
  intros others. cbn [amounts_of]. rewrite H. reflexivity.
Qed.

Lemma bare_long_digits_are_implausible_witness :
  _is_plausible_money_token (lit "1234567890") = false
  /\ amounts_of [lit "1234567890"; lit "Rp 50.000"]
     = amounts_of [lit "Rp 50.000"].
Proof.
  assert (H := bare_long_digits_are_implausible (lit "1234567890")).
  destruct H as [H1 H2].
  - vm_compute. reflexivity.
  - vm_compute. reflexivity.
  - vm_compute. intros H. repeat (destruct H as [H | H]; [discriminate | ]).
    exact H.
  - vm_compute. intros H. repeat (destruct H as [H | H]; [discriminate | ]).
    exact H.
  - vm_compute. discriminate.
  - split; [exact H1 | apply H2].
Defined.

End PlausibilityFilter.

(** ** Category names *)

Section CategoryNames.

Import Parser.

(** Whitespace already collapsed: every whitespace character is a single
    space that follows no other ([in_run] tells that the previous
    character was whitespace). *)
Fixpoint normal_from (in_run : bool) (s : str) : bool :=
  match s with
  | [] => true
  | c :: t =>
      if is_space c
      then negb in_run && Ascii.eqb c " " && normal_from true t
      else normal_from false t
  end.

(** No leading whitespace. *)
Definition hd_ok (s : str) : bool :=
  match s with
  | [] => true
  | c :: _ => negb (is_space c)
  end.

Lemma collapse_normal (s : str) :
  forall b, normal_from b s = true -> collapse_from b s = s.
Proof.
  induction s as [ | c t IH]; intros b H; [reflexivity | ].
  cbn [normal_from collapse_from] in *.
  destruct (is_space c).
  - apply andb_true_iff in H. destruct H as [H Ht].
    apply andb_true_iff in H. destruct H as [Hb Hc].
    apply negb_true_iff in Hb. subst b.
    apply Ascii.eqb_eq in Hc. subst c. f_equal. apply IH, Ht.
  - f_equal. apply IH, H.
Qed.

Lemma normal_collapse (s : str) :
  forall b, normal_from b (collapse_from b s) = true.
Proof.
  induction s as [ | c t IH]; intros b; [reflexivity | ].
  cbn [collapse_from]. destruct (is_space c) eqn:E.
  - destruct b; [apply IH | ].
    cbn [normal_from]. change (is_space " ") with true.
    cbn [negb andb]. rewrite Ascii.eqb_refl. apply IH.
  - cbn [normal_from]. rewrite E. apply IH.
Qed.

Lemma normal_weaken (s : str) :
  normal_from true s = true -> normal_from false s = true.
Proof.
  destruct s as [ | c t]; [reflexivity | ]. cbn [normal_from].
  destruct (is_space c); [discriminate | tauto].
Qed.

Lemma normal_drop_while (s : str) :
  forall b, normal_from b s = true ->
            normal_from false (drop_while is_space s) = true.
Proof.
  induction s as [ | c t IH]; intros b H; [reflexivity | ].
  cbn [drop_while]. destruct (is_space c) eqn:E.
  - cbn [normal_from] in H. rewrite E in H.
    apply andb_true_iff in H. destruct H as [_ H]. apply (IH true), H.
  - cbn [normal_from] in *. rewrite E in *. exact H.
Qed.

Lemma normal_rstrip (s : str) :
  forall b, normal_from b s = true ->
            normal_from b (rstrip_by is_space s) = true.
Proof.
  induction s as [ | c t IH]; intros b H; [reflexivity | ].
  cbn [rstrip_by]. cbn [normal_from] in H.
  destruct (is_space c) eqn:E.
  - apply andb_true_iff in H. destruct H as [Hc Ht].
    specialize (IH true Ht).
    destruct (rstrip_by is_space t) as [ | x r]; [reflexivity | ].
    cbn [normal_from]. rewrite E, Hc. exact IH.
  - specialize (IH false H).
    destruct (rstrip_by is_space t) as [ | x r].
    + cbn [normal_from]. rewrite E. reflexivity.
    + cbn [normal_from]. rewrite E. exact IH.
Qed.

Lemma normal_lower (s : str) :
  forall b, normal_from b (lower s) = normal_from b s.
Proof.
  induction s as [ | c t IH]; intros b; [reflexivity | ].
  cbn [lower map normal_from]. fold (lower t).
  rewrite is_space_lower_c, eqb_lower_c_space, !IH. reflexivity.
Qed.

Lemma normal_title (s : str) :
  forall r b, normal_from b (title_from r s) = normal_from b s.
Proof.
  induction s as [ | c t IH]; intros r b; [reflexivity | ].
  cbn [title_from normal_from].
  destruct r.
  - rewrite is_space_lower_c, eqb_lower_c_space, !IH. reflexivity.
  - rewrite is_space_upper_c, eqb_upper_c_space, !IH. reflexivity.
Qed.

Lemma hd_ok_drop_while (s : str) : hd_ok (drop_while is_space s) = true.
Proof.
  induction s as [ | c t IH]; [reflexivity | ].
  cbn [drop_while]. destruct (is_space c) eqn:E; [exact IH | ].
  cbn [hd_ok]. rewrite E. reflexivity.
Qed.

Lemma drop_while_hd_ok (s : str) :
  hd_ok s = true -> drop_while is_space s = s.
Proof.
  destruct s as [ | c t]; [reflexivity | ]. cbn [hd_ok drop_while].
  intros H. apply negb_true_iff in H. rewrite H. reflexivity.
Qed.

Lemma hd_ok_rstrip (s : str) :
  hd_ok s = true -> hd_ok (rstrip_by is_space s) = true.
Proof.
  destruct s as [ | c t]; [reflexivity | ]. cbn [hd_ok rstrip_by].
  intros H. destruct (rstrip_by is_space t); [ | exact H].
  apply negb_true_iff in H. rewrite H. cbn [hd_ok]. rewrite H. reflexivity.
Qed.

Lemma hd_ok_lower (s : str) : hd_ok (lower s) = hd_ok s.
Proof.
  destruct s as [ | c t]; [reflexivity | ]. cbn [lower map hd_ok].
  rewrite is_space_lower_c. reflexivity.
Qed.

Lemma hd_ok_title (s : str) : forall r, hd_ok (title_from r s) = hd_ok s.
Proof.
  destruct s as [ | c t]; intros r; [reflexivity | ].
  cbn [title_from hd_ok].
  destruct r; [rewrite is_space_lower_c | rewrite is_space_upper_c];
    reflexivity.
Qed.

Lemma rstrip_idem (p : ascii -> bool) (s : str) :
  rstrip_by p (rstrip_by p s) = rstrip_by p s.
Proof.
  induction s as [ | c t IH]; [reflexivity | ]. cbn [rstrip_by].
  destruct (rstrip_by p t) as [ | x r] eqn:E.
  - destruct (p c) eqn:Ec; [reflexivity | ].
    cbn [rstrip_by]. rewrite Ec. reflexivity.
  - change (rstrip_by p (c :: x :: r))
      with (match rstrip_by p (x :: r) with
            | [] => if p c then [] else [c]
            | y :: u => c :: y :: u
            end).
    rewrite IH. reflexivity.
Qed.

Lemma rstrip_lower (s : str) :
  rstrip_by is_space (lower s) = lower (rstrip_by is_space s).
Proof.
  induction s as [ | c t IH]; [reflexivity | ].
  cbn [lower map rstrip_by]. fold (lower t). rewrite IH.
  destruct (rstrip_by is_space t) as [ | x r].
  - cbn [lower map]. rewrite is_space_lower_c.
    destruct (is_space c); reflexivity.
  - reflexivity.
Qed.

Lemma rstrip_title (s : str) :
  forall r,
    rstrip_by is_space (title_from r s) = title_from r (rstrip_by is_space s).
Proof.
  induction s as [ | c t IH]; intros r; [reflexivity | ].
  cbn [title_from rstrip_by]. rewrite IH.
  destruct (rstrip_by is_space t) as [ | x u].
  - cbn [title_from].
    destruct r; [rewrite is_space_lower_c | rewrite is_space_upper_c];
      destruct (is_space c); reflexivity.
  - reflexivity.
Qed.

Lemma lower_title (s : str) : forall r, lower (title_from r s) = lower s.
Proof.
  induction s as [ | c t IH]; intros r; [reflexivity | ].
  cbn [title_from lower map]. fold (lower (title_from (is_alpha c) t)).
  fold (lower t). rewrite IH.
  destruct r; [rewrite lower_c_idem | rewrite lower_c_upper_c]; reflexivity.
Qed.

(** The string [clean] of [normalize_category]. *)
Definition clean_name (name : str) : str := lower (strip (collapse_ws name)).

Lemma clean_name_title (name : str) :
  clean_name (title (clean_name name)) = clean_name name.
Proof.
  set (c := clean_name name).
  assert (Hn : normal_from false c = true).
  { unfold c, clean_name, strip, strip_by. rewrite normal_lower.
    apply normal_rstrip. eapply normal_drop_while. apply normal_collapse. }
  assert (Hh : hd_ok c = true).
  { unfold c, clean_name, strip, strip_by. rewrite hd_ok_lower.
    apply hd_ok_rstrip, hd_ok_drop_while. }
  assert (Hr : rstrip_by is_space c = c).
  { unfold c, clean_name, strip, strip_by.
    rewrite rstrip_lower, rstrip_idem. reflexivity. }
  assert (Hl : lower c = c) by (unfold c, clean_name; apply lower_idem).
  unfold clean_name at 1. unfold title, collapse_ws.
  rewrite collapse_normal by (rewrite normal_title; exact Hn).
  unfold strip, strip_by.
  rewrite drop_while_hd_ok by (rewrite hd_ok_title; exact Hh).
  rewrite rstrip_title, Hr, lower_title. exact Hl.
Qed.

Lemma known_category_In (table : list (str * list str)) (clean : str)
    (category : str) :
  known_category table clean = Some category ->
  In category (map fst table).
Proof.
  induction table as [ | [cat kws] others IH]; cbn [known_category];
    [discriminate | ].
  destruct (str_eqb clean (lower cat)).
  - intros H. injection H as <-. left. reflexivity.
  - intros H. right. apply IH, H.
Qed.

(** In the 8-bit model a normalized name is normalized to itself. *)
Lemma normalize_category_twice (name : str) :
  normalize_category (normalize_category name) = normalize_category name.
Proof.
  unfold normalize_category at 2 3. fold (clean_name name).
  destruct (is_empty (clean_name name)) eqn:Ee; [vm_compute; reflexivity | ].
  destruct (known_category CATEGORY_KEYWORDS (clean_name name)) as [cat | ]
    eqn:Ek.
  - apply known_category_In in Ek.
    cbn [CATEGORY_KEYWORDS map fst] in Ek.
    repeat (destruct Ek as [<- | Ek]; [vm_compute; reflexivity | ]).
    destruct Ek.
  - unfold normalize_category. fold (clean_name (title (clean_name name))).
    rewrite clean_name_title, Ee, Ek. reflexivity.
Qed.

End CategoryNames.

(** ** Category names beyond ASCII *)

Section WideNames.

Import Parser.

Definition ascii_c (c : ascii) : bool := N.ltb (code c) 128.

(** C8, as stated, fails beyond ASCII: the name made of U+01F0 (small j
    with caron) and [a] is normalized to J, U+030C, [a], since the title
    case of U+01F0 is J followed by the combining caron; normalized again
    it gives J, U+030C, [A], since the caron is not cased and the letter
    after it starts a word. *)
Lemma normalize_category_not_idempotent :
  Wide.normalize_category [0x1F0; 0x61]%N = Some [0x4A; 0x30C; 0x61]%N
  /\ Wide.normalize_category [0x4A; 0x30C; 0x61]%N
     = Some [0x4A; 0x30C; 0x41]%N
  /\ [0x4A; 0x30C; 0x61]%N <> [0x4A; 0x30C; 0x41]%N.
Proof.
  split; [vm_compute; reflexivity | split; [vm_compute; reflexivity | ]].
  discriminate.
Qed.

Ltac ascii_cases c H :=
  destruct c as [[] [] [] [] [] [] [] []];
  try (vm_compute in H; discriminate H); vm_compute; reflexivity.

Lemma is_space_code (c : ascii) :
  ascii_c c = true -> Wide.is_space (code c) = is_space c.
Proof. intros H. ascii_cases c H. Qed.

Lemma casing_code (c : ascii) :
  ascii_c c = true ->
  Wide.casing_of (code c)
  = Some (Wide.mkCasing [code (lower_c c)] [code (upper_c c)] (is_alpha c)).
Proof. intros H. ascii_cases c H. Qed.

Lemma ascii_lower_c (c : ascii) : ascii_c c = true -> ascii_c (lower_c c) = true.
Proof. intros H. ascii_cases c H. Qed.

Lemma ascii_upper_c (c : ascii) : ascii_c c = true -> ascii_c (upper_c c) = true.
Proof. intros H. ascii_cases c H. Qed.

Lemma code_eqb (x y : ascii) : N.eqb (code x) (code y) = Ascii.eqb x y.
Proof.
  destruct (Ascii.eqb x y) eqn:E.
  - apply Ascii.eqb_eq in E. subst y. apply N.eqb_refl.
  - apply N.eqb_neq. intros H. apply Ascii.eqb_neq in E. apply E.
    unfold code in H.
    rewrite <- (ascii_N_embedding x), <- (ascii_N_embedding y), H.
    reflexivity.
Qed.

Lemma ustr_eqb_of_str (a b : str) :
  Wide.ustr_eqb (Wide.of_str a) (Wide.of_str b) = str_eqb a b.
Proof.
  revert b. induction a as [ | x a IH]; intros [ | y b]; try reflexivity.
  cbn [Wide.of_str map Wide.ustr_eqb str_eqb].
  rewrite code_eqb. fold (Wide.of_str a). fold (Wide.of_str b).
  rewrite IH. reflexivity.
Qed.

Lemma isascii_cons (c : ascii) (s : str) :
  isascii (c :: s) = true <-> ascii_c c = true /\ isascii s = true.
Proof. unfold isascii. cbn [forallb]. apply andb_true_iff. Qed.

Lemma collapse_of_str (s : str) :
  isascii s = true ->
  forall b,
    Wide.collapse_from b (Wide.of_str s) = Wide.of_str (collapse_from b s)
    /\ isascii (collapse_from b s) = true.
Proof.
  induction s as [ | c t IH]; intros H b; [split; reflexivity | ].
  apply isascii_cons in H. destruct H as [Hc Ht].
  cbn [Wide.of_str map Wide.collapse_from collapse_from].
  fold (Wide.of_str t). rewrite (is_space_code c Hc).
  destruct (is_space c).
  - destruct b.
    + apply IH, Ht.
    + destruct (IH Ht true) as [-> Ha].
      split; [reflexivity | ]. apply isascii_cons. split; [reflexivity | exact Ha].
  - destruct (IH Ht false) as [-> Ha].
    split; [reflexivity | ]. apply isascii_cons. split; assumption.
Qed.

Lemma drop_while_of_str (s : str) :
  isascii s = true ->
  Wide.drop_while Wide.is_space (Wide.of_str s)
  = Wide.of_str (drop_while is_space s)
  /\ isascii (drop_while is_space s) = true.
Proof.
  induction s as [ | c t IH]; intros H; [split; reflexivity | ].
  pose proof H as Hs. apply isascii_cons in H. destruct H as [Hc Ht].
  cbn [Wide.of_str map Wide.drop_while drop_while].
  fold (Wide.of_str t). rewrite (is_space_code c Hc).
  destruct (is_space c); [apply IH, Ht | split; [reflexivity | exact Hs]].
Qed.

Lemma rstrip_of_str (s : str) :
  isascii s = true ->
  Wide.rstrip_by Wide.is_space (Wide.of_str s)
  = Wide.of_str (rstrip_by is_space s)
  /\ isascii (rstrip_by is_space s) = true.
Proof.
  induction s as [ | c t IH]; intros H; [split; reflexivity | ].
  apply isascii_cons in H. destruct H as [Hc Ht].
  cbn [Wide.of_str map Wide.rstrip_by rstrip_by].
  fold (Wide.of_str t). destruct (IH Ht) as [-> Ha].
  rewrite (is_space_code c Hc).
  destruct (rstrip_by is_space t) as [ | x r] eqn:E;
    cbn [Wide.of_str map].
  - destruct (is_space c); split; try reflexivity.
    apply isascii_cons. split; [exact Hc | reflexivity].
  - split; [reflexivity | ]. apply isascii_cons. split; assumption.
Qed.

Lemma lower_of_str (s : str) :
  isascii s = true ->
  Wide.lower (Wide.of_str s) = Some (Wide.of_str (lower s))
  /\ isascii (lower s) = true.
Proof.
  induction s as [ | c t IH]; intros H; [split; reflexivity | ].
  apply isascii_cons in H. destruct H as [Hc Ht].
  cbn [Wide.of_str map Wide.lower lower].
  fold (Wide.of_str t). fold (lower t). destruct (IH Ht) as [-> Ha].
  rewrite (casing_code c Hc). cbn [Wide.to_lower app].
  split; [reflexivity | ]. apply isascii_cons.
  split; [apply ascii_lower_c, Hc | exact Ha].
Qed.

Lemma title_of_str (s : str) :
  isascii s = true ->
  forall b,
    Wide.title_from b (Wide.of_str s) = Some (Wide.of_str (title_from b s))
    /\ isascii (title_from b s) = true.
Proof.
  induction s as [ | c t IH]; intros H b; [split; reflexivity | ].
  apply isascii_cons in H. destruct H as [Hc Ht].
  cbn [Wide.of_str map Wide.title_from title_from].
  fold (Wide.of_str t). rewrite (casing_code c Hc).
  cbn [Wide.cased Wide.to_lower Wide.to_title].
  destruct (IH Ht (is_alpha c)) as [-> Ha].
  split.
  - destruct b; reflexivity.
  - apply isascii_cons. split; [ | exact Ha].
    destruct b; [apply ascii_lower_c, Hc | apply ascii_upper_c, Hc].
Qed.

Lemma known_category_of_str (table : list (str * list str)) (clean : str) :
  Wide.known_category table (Wide.of_str clean) = known_category table clean.
Proof.
  induction table as [ | [category keywords] others IH]; [reflexivity | ].
  cbn [Wide.known_category known_category].
  rewrite ustr_eqb_of_str, IH. reflexivity.
Qed.

(** On an ASCII name the two models agree. *)
Lemma normalize_category_of_str (name : str) :
  isascii name = true ->
  Wide.normalize_category (Wide.of_str name)
  = Some (Wide.of_str (normalize_category name))
  /\ isascii (normalize_category name) = true.
Proof.
  intros H. unfold Wide.normalize_category, normalize_category.
  unfold Wide.collapse_ws, collapse_ws, Wide.strip, strip, strip_by.
  destruct (collapse_of_str name H false) as [-> H1].
  destruct (drop_while_of_str _ H1) as [-> H2].
  destruct (rstrip_of_str _ H2) as [-> H3].
  destruct (lower_of_str _ H3) as [-> H4].
  set (clean := lower _) in *.
  destruct clean as [ | c t] eqn:Ec;
    [split; [reflexivity | vm_compute; reflexivity] | ].
  rewrite <- Ec in *. cbn [is_empty].
  replace (Wide.of_str clean) with (Wide.of_str (c :: t)) by (rewrite Ec; reflexivity).
  cbn [Wide.of_str map]. fold (Wide.of_str t).
  change (code c :: Wide.of_str t) with (Wide.of_str (c :: t)).
  rewrite <- Ec. rewrite known_category_of_str.
  replace (is_empty clean) with false by (rewrite Ec; reflexivity).
  destruct (known_category CATEGORY_KEYWORDS clean) as [category | ] eqn:Ek.
  - split; [reflexivity | ].
    apply known_category_In in Ek. cbn [CATEGORY_KEYWORDS map fst] in Ek.
    repeat (destruct Ek as [<- | Ek]; [vm_compute; reflexivity | ]).
    destruct Ek.
  - apply (title_of_str clean H4 false).
Qed.

Lemma of_str_ascii (name : Wide.ustr) :
  Wide.isascii name = true ->
  exists s, name = Wide.of_str s /\ isascii s = true.
Proof.
  induction name as [ | c t IH]; intros H; [exists []; split; reflexivity | ].
  unfold Wide.isascii in H. cbn [forallb] in H.
  apply andb_true_iff in H. destruct H as [Hc Ht].
  destruct (IH Ht) as [s [-> Hs]]. apply N.ltb_lt in Hc.
  assert (Hcode : code (ascii_of_N c) = c)
    by (apply N_ascii_embedding; lia).
  exists (ascii_of_N c :: s). split.
  - cbn [Wide.of_str map]. rewrite Hcode. reflexivity.
  - apply isascii_cons. split; [ | exact Hs].
    unfold ascii_c. rewrite Hcode. apply N.ltb_lt, Hc.
Qed.

(** C8, amended: on a name made of ASCII characters [normalize_category]
    returns a name, and normalizing that name returns it again. *)
Theorem normalize_category_idempotent_ascii (name : Wide.ustr) :
  Wide.isascii name = true ->
  exists once,
    Wide.normalize_category name = Some once
    /\ Wide.normalize_category once = Some once.
Proof.
  intros H. destruct (of_str_ascii name H) as [s [-> Hs]].
  destruct (normalize_category_of_str s Hs) as [E1 Ha].
  exists (Wide.of_str (normalize_category s)). split; [exact E1 | ].
  destruct (normalize_category_of_str _ Ha) as [E2 _].
  rewrite E2, normalize_category_twice. reflexivity.
Qed.

Lemma normalize_category_idempotent_ascii_witness :
  Wide.isascii (Wide.of_str (lit "uang   JAJAN")) = true
  /\ exists once,
       Wide.normalize_category (Wide.of_str (lit "uang   JAJAN")) = Some once
       /\ Wide.normalize_category once = Some once.
Proof.
  assert (H : Wide.isascii (Wide.of_str (lit "uang   JAJAN")) = true)
    by (vm_compute; reflexivity).
  split; [exact H | ].
  exact (normalize_category_idempotent_ascii _ H).
Defined.

End WideNames.

(** ** The amount normalizer *)

Section AmountNormalizer.

Import Parser.

(** C3, as stated, fails: the token "-5rb" normalizes to -5000, the sign
    being read by [float]. *)
Lemma parse_amount_token_negative :
  exists v, parse_amount_token (lit "-5rb") = Ok (Some v) /\ v < 0.
Proof. exists (-5000). split; [vm_compute; reflexivity | lia]. Qed.

(** The sign bit of a float that is not a NaN. *)
Definition sign_is (s : bool) (f : float) : Prop :=
  match f with
  | S754_zero s' | S754_infinity s' | S754_finite s' _ _ => s' = s
  | S754_nan => True
  end.

Lemma binary_round_aux_sign (s : bool) (m e : Z) (l : location) :
  sign_is s (binary_round_aux prec emax s m e l).
Proof.
  unfold binary_round_aux.
  destruct (shr_fexp prec emax m e l) as [mrs' e'].
  destruct (shr_fexp prec emax _ e' loc_Exact) as [mrs'' e''].
  destruct (shr_m mrs''); cbn [sign_is]; try reflexivity.
  destruct (e'' <=? emax - prec); reflexivity.
Qed.

Lemma nearest_of_Z_sign (z : Z) : 0 <= z -> sign_is false (nearest_of_Z z).
Proof.
  intros Hz. unfold nearest_of_Z, binary_normalize.
  destruct z as [ | p | p]; [reflexivity | | lia].
  unfold binary_round. destruct (shl_align _ _ _) as [mz ez].
  apply binary_round_aux_sign.
Qed.

Lemma div_pos_sign (s : bool) (a b : Z) : sign_is s (div_pos s a b).
Proof.
  unfold div_pos. destruct (SFdiv_core_binary prec emax a 0 b 0) as [[q e] l].
  apply binary_round_aux_sign.
Qed.

Lemma of_decimal_sign (m e10 : Z) :
  0 <= m -> sign_is false (of_decimal false m e10).
Proof.
  intros Hm. unfold of_decimal.
  destruct (m =? 0); [reflexivity | ].
  destruct (0 <=? e10) eqn:E.
  - apply nearest_of_Z_sign. apply Z.leb_le in E.
    apply Z.mul_nonneg_nonneg; [exact Hm | ].
    apply Z.pow_nonneg. lia.
  - apply div_pos_sign.
Qed.

Lemma fmul_sign (x y : float) :
  sign_is false x -> sign_is false y -> sign_is false (fmul x y).
Proof.
  unfold fmul.
  destruct x as [sx | sx | | sx mx ex], y as [sy | sy | | sy my ey];
    cbn [sign_is SFmul]; intros Hx Hy; subst; try reflexivity.
  apply binary_round_aux_sign.
Qed.

Lemma round_half_even_nonneg (m k : Z) : 0 <= m -> 0 <= round_half_even m k.
Proof.
  intros Hm. unfold round_half_even.
  assert (Hq : 0 <= m / 2 ^ k).
  { destruct (Z.leb_spec 0 k) as [Hk | Hk].
    - apply Z.div_pos; [exact Hm | ]. apply Z.pow_pos_nonneg; lia.
    - rewrite Z.pow_neg_r by exact Hk. rewrite Z.div_0_r. lia. }
  destruct (m mod 2 ^ k <? 2 ^ (k - 1)); [exact Hq | ].
  destruct (2 ^ (k - 1) <? m mod 2 ^ k); [lia | ].
  destruct (Z.even (m / 2 ^ k)); lia.
Qed.

Lemma py_round_nonneg (x : float) (v : Z) :
  sign_is false x -> py_round x = Ok v -> 0 <= v.
Proof.
  destruct x as [s | s | | s m e]; unfold sign_is, py_round; intros Hs H;
    try discriminate.
  - injection H as <-. lia.
  - subst s. unfold cond_opp in H.
    assert (Hp : 0 <= Z.pos m * 2 ^ e).
    { apply Z.mul_nonneg_nonneg; [lia | ]. apply Z.pow_nonneg. lia. }
    assert (Hr : 0 <= round_half_even (Z.pos m) (- e))
      by (apply round_half_even_nonneg; lia).
    destruct (0 <=? e); injection H as <-; assumption.
Qed.

Lemma underscores_from_In (c : ascii) (s : str) :
  forall prev t, underscores_from prev s = Some t -> In c t -> In c s.
Proof.
  induction s as [ | a u IH]; intros prev t H Hin.
  - cbn [underscores_from] in H.
    destruct prev as [p | ]; [ | injection H as <-; exact Hin].
    destruct (Ascii.eqb p "_") eqn:E.
    + apply Ascii.eqb_eq in E. subst p. discriminate.
    + assert (Ht : t = []).
      { destruct p as [[ | ] [ | ] [ | ] [ | ] [ | ] [ | ] [ | ] [ | ]];
          try discriminate; injection H as <-; reflexivity. }
      subst t. exact Hin.
  - assert (Hstep : underscores_from (Some a) u = Some t
                    \/ exists t', underscores_from (Some a) u = Some t'
                                  /\ t = a :: t').
    { cbn [underscores_from] in H.
      destruct (Ascii.eqb a "_").
      - destruct prev as [p | ]; [ | discriminate].
        destruct (is_digit p); [left; exact H | discriminate].
      - right.
        assert (H' : option_map (cons a) (underscores_from (Some a) u)
                     = Some t).
        { destruct prev as [p | ]; [ | exact H].
          destruct p as [[ | ] [ | ] [ | ] [ | ] [ | ] [ | ] [ | ] [ | ]];
            try exact H;
            destruct (is_digit a); (exact H || discriminate). }
        destruct (underscores_from (Some a) u) as [t' | ]; [ | discriminate].
        injection H' as <-. exists t'. split; reflexivity. }
    destruct Hstep as [H' | [t' [H' ->]]].
    + right. eapply IH; eassumption.
    + destruct Hin as [E | Hin]; [left; exact E | right].
      eapply IH; eassumption.
Qed.

Lemma span_digits_digits (s : str) :
  forallb is_digit (fst (span_digits s)) = true.
Proof.
  induction s as [ | c t IH]; [reflexivity | ]. cbn [span_digits].
  destruct (is_digit c) eqn:E; [ | reflexivity].
  destruct (span_digits t) as [d r]. cbn [fst forallb] in *.
  rewrite E, IH. reflexivity.
Qed.

Lemma parse_decimal_sign (body : str) (f : float) :
  parse_decimal false body = Some f -> sign_is false f.
Proof.
  unfold parse_decimal.
  pose proof (span_digits_digits body) as Hip.
  destruct (span_digits body) as [ip r1]. cbn [fst] in Hip.
  assert (Hfp : forall r, forallb is_digit (fst (span_digits r)) = true)
    by (intros r; apply span_digits_digits).
  set (second :=
         match r1 with
         | "."%char :: t => span_digits t
         | _ => ([], r1)
         end).
  assert (Hsecond : forallb is_digit (fst second) = true).
  { unfold second. destruct r1 as [ | c t]; [reflexivity | ].
    destruct (Ascii.eqb c ".") eqn:E.
    - apply Ascii.eqb_eq in E. subst c. apply Hfp.
    - destruct c as [[ | ] [ | ] [ | ] [ | ] [ | ] [ | ] [ | ] [ | ]];
        try reflexivity; discriminate. }
  destruct second as [fp r2]. cbn [fst] in Hsecond.
  destruct (is_empty ip && is_empty fp); [discriminate | ].
  destruct (parse_exponent r2) as [e | ]; [ | discriminate].
  intros H. injection H as <-.
  apply of_decimal_sign, int_of_digits_nonneg.
  rewrite forallb_app, Hip, Hsecond. reflexivity.
Qed.

Lemma parse_float_sign (s : str) (f : float) :
  ~ In "-"%char s -> parse_float s = Some f -> sign_is false f.
Proof.
  intros Hnot. unfold parse_float.
  assert (Hs : fst (split_sign s) = false).
  { destruct s as [ | c t]; [reflexivity | ].
    destruct (Ascii.eqb c "-") eqn:E.
    - apply Ascii.eqb_eq in E. subst c. exfalso. apply Hnot. left. reflexivity.
    - destruct c as [[ | ] [ | ] [ | ] [ | ] [ | ] [ | ] [ | ] [ | ]];
        try reflexivity; discriminate. }
  destruct (split_sign s) as [neg body]. cbn [fst] in Hs. subst neg.
  destruct (_ || _); [intros H; injection H as <-; reflexivity | ].
  destruct (str_eqb _ _); [intros H; injection H as <-; exact I | ].
  apply parse_decimal_sign.
Qed.

Lemma float_of_str_sign (s : str) (f : float) :
  ~ In "-"%char s -> float_of_str s = Ok f -> sign_is false f.
Proof.
  intros Hnot. unfold float_of_str.
  destruct (remove_underscores _) as [t | ] eqn:E; [ | discriminate].
  destruct (parse_float t) as [g | ] eqn:P; [ | discriminate].
  intros H. injection H as <-.
  eapply parse_float_sign; [ | exact P].
  intros Hin. apply Hnot.
  apply In_strip_by with is_c_space.
  eapply underscores_from_In; eassumption.
Qed.

Lemma cut_suffix_In (c : ascii) (candidates : list str) (t : str) :
  In c (snd (cut_suffix candidates t)) -> In c t.
Proof.
  induction candidates as [ | cand others IH]; cbn [cut_suffix];
    [tauto | ].
  destruct (ends_with cand t); [ | exact IH].
  cbn [snd]. apply In_first.
Qed.

(** C3, amended: for a token that carries no minus sign, a value returned
    by [parse_amount_token] is a non-negative integer. *)
Theorem parse_amount_token_nonneg (token : str) (v : Z) :
  ~ In "-"%char token ->
  parse_amount_token token = Ok (Some v) ->
  0 <= v.
Proof.
  intros Hnot. unfold parse_amount_token.
  set (t1 := replace (lit " ") []
               (replace (lit "idr") []
                  (replace (lit "rp") [] (lower (strip token))))).
  assert (H1 : ~ In "-"%char t1).
  { intros Hin. apply Hnot. unfold t1 in Hin.
    do 3 apply In_remove in Hin.
    apply In_lower_fixed in Hin; [ | exact eqb_lower_c_minus].
    eapply In_strip_by, Hin. }
  destruct (is_empty t1); [discriminate | ].
  pose proof (cut_suffix_In "-"
                (map lit ["ribu"; "rb"; "k"; "juta"; "jt"]%string) t1) as Hcut.
  destruct (cut_suffix _ t1) as [suffix t2]. cbn [snd] in Hcut.
  destruct (is_empty t2); [discriminate | ].
  destruct (is_empty suffix).
  - destruct (is_empty (digits_only t2)); [discriminate | ].
    intros H. injection H as <-.
    apply int_of_digits_nonneg, digits_only_all_digits.
  - destruct (float_of_str _) as [base_float | e] eqn:F;
      [ | destruct e; discriminate].
    assert (Hb : sign_is false base_float).
    { eapply float_of_str_sign; [ | exact F].
      intros Hin. apply In_replace_from in Hin.
      destruct Hin as [Hin | Hin]; [tauto | ].
      vm_compute in Hin. destruct Hin as [Hin | []]. discriminate. }
    destruct (in_set suffix _).
    + intros H. bind_inv H. injection H as <-.
      eapply py_round_nonneg; [ | exact Ha].
      apply fmul_sign; [exact Hb | apply nearest_of_Z_sign; lia].
    + destruct (in_set suffix _).
      * intros H. bind_inv H. injection H as <-.
        eapply py_round_nonneg; [ | exact Ha].
        apply fmul_sign; [exact Hb | apply nearest_of_Z_sign; lia].
      * intros H. bind_inv H. injection H as <-.
        eapply py_round_nonneg; eassumption.
Qed.

Lemma parse_amount_token_nonneg_witness :
  ~ In "-"%char (lit "2.5jt")
  /\ parse_amount_token (lit "2.5jt") = Ok (Some 2500000)
  /\ 0 <= 2500000.
Proof.
  assert (Hnot : ~ In "-"%char (lit "2.5jt")).
  { vm_compute. intros H.
    repeat (destruct H as [H | H]; [discriminate | ]). exact H. }
  assert (H : parse_amount_token (lit "2.5jt") = Ok (Some 2500000))
    by (vm_compute; reflexivity).
  split; [exact Hnot | split; [exact H | ]].
  exact (parse_amount_token_nonneg (lit "2.5jt") 2500000 Hnot H).
Defined.

End AmountNormalizer.

(** ** Decimal digits *)

Section DecimalDigits.

(** The value read from the digits of [d] after the digits already
    accumulated in [acc]. *)
Fixpoint uint_value (d : Decimal.uint) (acc : Z) : Z :=
  match d with
  | Decimal.Nil => acc
  | Decimal.D0 l => uint_value l (10 * acc)
  | Decimal.D1 l => uint_value l (10 * acc + 1)
  | Decimal.D2 l => uint_value l (10 * acc + 2)
  | Decimal.D3 l => uint_value l (10 * acc + 3)
  | Decimal.D4 l => uint_value l (10 * acc + 4)
  | Decimal.D5 l => uint_value l (10 * acc + 5)
  | Decimal.D6 l => uint_value l (10 * acc + 6)
  | Decimal.D7 l => uint_value l (10 * acc + 7)
  | Decimal.D8 l => uint_value l (10 * acc + 8)
  | Decimal.D9 l => uint_value l (10 * acc + 9)
  end.

Lemma fold_digits_uint (d : Decimal.uint) :
  forall acc,
    fold_left (fun a c => 10 * a + digit_val c)
      (lit (NilEmpty.string_of_uint d)) acc
    = uint_value d acc.
Proof.
  induction d; intros acc; cbn [NilEmpty.string_of_uint lit
    String.list_ascii_of_string fold_left uint_value];
    try reflexivity;
    change (String.list_ascii_of_string (NilEmpty.string_of_uint d))
      with (lit (NilEmpty.string_of_uint d));
    rewrite IHd; f_equal; unfold digit_val; cbn; lia.
Qed.

Lemma uint_value_acc (d : Decimal.uint) :
  forall acc, uint_value d (Zpos acc) = Zpos (Pos.of_uint_acc d acc).
Proof.
  induction d; intros acc; cbn [uint_value Pos.of_uint_acc];
    try reflexivity;
    rewrite <- IHd; f_equal; lia.
Qed.

Lemma uint_value_of_uint (d : Decimal.uint) :
  uint_value d 0 = Z.of_N (Pos.of_uint d).
Proof.
  induction d; cbn [uint_value Pos.of_uint]; try reflexivity;
    try exact IHd;
    cbn [Z.of_N]; rewrite <- uint_value_acc; reflexivity.
Qed.

Lemma digits_of_uint (d : Decimal.uint) :
  forallb is_digit (lit (NilEmpty.string_of_uint d)) = true.
Proof.
  induction d; cbn [NilEmpty.string_of_uint lit
    String.list_ascii_of_string forallb]; try reflexivity;
    change (String.list_ascii_of_string (NilEmpty.string_of_uint d))
      with (lit (NilEmpty.string_of_uint d));
    rewrite IHd; reflexivity.
Qed.

Lemma str_of_N_digits (n : N) : forallb is_digit (str_of_N n) = true.
Proof.
  unfold str_of_N, NilZero.string_of_uint.
  destruct (N.to_uint n); try reflexivity; apply digits_of_uint.
Qed.

Lemma str_of_N_nonempty (n : N) : str_of_N n <> [].
Proof.
  unfold str_of_N, NilZero.string_of_uint.
  destruct (N.to_uint n); discriminate.
Qed.

Lemma int_of_str_of_N (n : N) : int_of_digits (str_of_N n) = Z.of_N n.
Proof.
  unfold int_of_digits, str_of_N, NilZero.string_of_uint.
  rewrite <- (Unsigned.of_to n) at 2. unfold N.of_uint.
  rewrite <- uint_value_of_uint.
  destruct (N.to_uint n) eqn:E; try apply fold_digits_uint.
  reflexivity.
Qed.

End DecimalDigits.

(** ** Operations that leave a string as it is *)

Section UnchangedStrings.

Lemma absent_char (P : ascii -> bool) (x : ascii) (s : str) :
  forallb P s = true -> P x = false -> ~ In x s.
Proof.
  intros H Hx Hin. rewrite forallb_forall in H.
  rewrite (H x Hin) in Hx. discriminate.
Qed.

Lemma drop_while_none (p : ascii -> bool) (s : str) :
  forallb (fun c => negb (p c)) s = true -> drop_while p s = s.
Proof.
  destruct s as [ | c t]; [reflexivity | ]. cbn [forallb drop_while].
  intros H. apply andb_true_iff in H. destruct H as [H _].
  apply negb_true_iff in H. rewrite H. reflexivity.
Qed.

Lemma rstrip_none (p : ascii -> bool) (s : str) :
  forallb (fun c => negb (p c)) s = true -> rstrip_by p s = s.
Proof.
  induction s as [ | c t IH]; [reflexivity | ]. cbn [forallb rstrip_by].
  intros H. apply andb_true_iff in H. destruct H as [Hc Ht].
  rewrite (IH Ht). apply negb_true_iff in Hc. rewrite Hc.
  destruct t; reflexivity.
Qed.

Lemma strip_by_none (p : ascii -> bool) (s : str) :
  forallb (fun c => negb (p c)) s = true -> strip_by p s = s.
Proof.
  intros H. unfold strip_by. rewrite (drop_while_none p s H).
  apply rstrip_none, H.
Qed.

Lemma lower_none (s : str) :
  forallb (fun c => negb (is_upper c)) s = true -> lower s = s.
Proof.
  induction s as [ | c t IH]; [reflexivity | ]. cbn [forallb lower map].
  intros H. apply andb_true_iff in H. destruct H as [Hc Ht].
  fold (lower t). rewrite (IH Ht). unfold lower_c.
  apply negb_true_iff in Hc. rewrite Hc. reflexivity.
Qed.

Lemma starts_with_absent (x : ascii) (old s : str) :
  ~ In x s -> starts_with (x :: old) s = false.
Proof.
  destruct s as [ | c t]; [reflexivity | ]. cbn [starts_with].
  intros H. destruct (Ascii.eqb x c) eqn:E; [ | reflexivity].
  apply Ascii.eqb_eq in E. subst c. exfalso. apply H. left. reflexivity.
Qed.

Lemma replace_absent (x : ascii) (old new s : str) :
  ~ In x s -> replace (x :: old) new s = s.
Proof.
  unfold replace. induction s as [ | c t IH]; [reflexivity | ].
  intros H. cbn [replace_from].
  rewrite (starts_with_absent x old (c :: t) H).
  rewrite IH; [reflexivity | ]. intros Hin. apply H. right. exact Hin.
Qed.

Lemma contains_absent (x : ascii) (old s : str) :
  ~ In x s -> contains (x :: old) s = false.
Proof.
  induction s as [ | c t IH]; intros H.
  - reflexivity.
  - cbn [contains]. rewrite (starts_with_absent x old (c :: t) H).
    cbn [orb]. apply IH. intros Hin. apply H. right. exact Hin.
Qed.

(** Replacing one character by another is a [map]. *)
Definition swap_char (c d x : ascii) : ascii := if Ascii.eqb c x then d else x.

Lemma replace_char (c d : ascii) (s : str) :
  replace [c] [d] s = map (swap_char c d) s.
Proof.
  unfold replace. induction s as [ | x t IH]; [reflexivity | ].
  cbn [replace_from starts_with map length Nat.pred]. unfold swap_char at 1.
  rewrite andb_true_r. destruct (Ascii.eqb c x); cbn [app]; rewrite IH;
    reflexivity.
Qed.

(** A string that ends with a digit ends with no word that ends with
    another character. *)
Lemma ends_with_digit (cand s : str) (x d : ascii) (u t : str) :
  rev cand = x :: u -> rev s = d :: t ->
  is_digit d = true -> is_digit x = false ->
  ends_with cand s = false.
Proof.
  intros Hc Hs Hd Hx. unfold ends_with. rewrite Hc, Hs. cbn [starts_with].
  destruct (Ascii.eqb x d) eqn:E; [ | reflexivity].
  apply Ascii.eqb_eq in E. subst x. congruence.
Qed.

End UnchangedStrings.

(** ** Formatting an amount and reading it back *)

Section FormatIdr.

Import Parser.

(** The characters of a formatted amount after its "Rp". *)
Definition money_char (c : ascii) : bool :=
  is_digit c || Ascii.eqb c "." || Ascii.eqb c "-".

Ltac by_cases c :=
  destruct c as [[ | ] [ | ] [ | ] [ | ] [ | ] [ | ] [ | ] [ | ]];
  vm_compute; reflexivity.

Lemma money_char_plain (c : ascii) :
  (if money_char c
   then negb (is_space c) && negb (is_upper c)
        && negb (Ascii.eqb c "r") && negb (Ascii.eqb c "i")
        && negb (Ascii.eqb c " ")
   else true) = true.
Proof. by_cases c. Qed.

Lemma money_char_swap (c : ascii) :
  (if is_digit c || Ascii.eqb c ","
   then money_char (swap_char "," "." c)
        && Bool.eqb (is_digit (swap_char "," "." c)) (is_digit c)
        && (if is_digit c then Ascii.eqb (swap_char "," "." c) c else true)
   else true) = true.
Proof. by_cases c. Qed.

Lemma commas_chars (l : str) :
  forallb is_digit l = true ->
  forall k, forallb (fun c => is_digit c || Ascii.eqb c ",")
              (commas_from k l) = true.
Proof.
  induction l as [ | c t IH]; intros H k; [reflexivity | ].
  cbn [forallb] in H. apply andb_true_iff in H. destruct H as [Hc Ht].
  cbn [commas_from].
  destruct k as [ | [ | [ | k]]]; destruct t as [ | c' t'];
    cbn [forallb]; rewrite ?Hc; cbn [orb andb]; try reflexivity;
    apply (IH Ht).
Qed.

Lemma commas_from_step (k : nat) (c : ascii) (t : str) :
  commas_from k (c :: t) = c :: commas_from (S k) t
  \/ commas_from k (c :: t) = c :: ","%char :: commas_from O t.
Proof.
  destruct k as [ | [ | [ | k]]]; destruct t; cbn [commas_from]; auto.
Qed.

Lemma digits_only_commas (l : str) :
  forall k, digits_only (commas_from k l) = digits_only l.
Proof.
  unfold digits_only.
  induction l as [ | c t IH]; intros k; [reflexivity | ].
  destruct (commas_from_step k c t) as [-> | ->]; cbn [filter].
  - rewrite IH. reflexivity.
  - change (is_digit ",") with false. cbn iota. rewrite IH. reflexivity.
Qed.

Lemma money_chars_plain (B : str) :
  forallb money_char B = true ->
  forallb (fun c => negb (is_space c)) B = true
  /\ forallb (fun c => negb (is_upper c)) B = true
  /\ ~ In "r"%char B /\ ~ In "i"%char B /\ ~ In " "%char B.
Proof.
  intros H. rewrite forallb_forall in H.
  assert (Hp : forall c, In c B ->
                 negb (is_space c) = true /\ negb (is_upper c) = true
                 /\ Ascii.eqb c "r" = false /\ Ascii.eqb c "i" = false
                 /\ Ascii.eqb c " " = false).
  { intros c Hc. pose proof (money_char_plain c) as P.
    rewrite (H c Hc) in P. rewrite !andb_true_iff, !negb_true_iff in P.
    rewrite !negb_true_iff. tauto. }
  repeat split.
  - apply forallb_forall. intros c Hc. apply (Hp c Hc).
  - apply forallb_forall. intros c Hc. apply (Hp c Hc).
  - intros Hin. destruct (Hp _ Hin) as [_ [_ [E _]]]. discriminate.
  - intros Hin. destruct (Hp _ Hin) as [_ [_ [_ [E _]]]]. discriminate.
  - intros Hin. destruct (Hp _ Hin) as [_ [_ [_ [_ E]]]]. discriminate.
Qed.

(** What [parse_amount_token] does with "Rp" followed by digits, dots and
    minus signs, the last character being a digit. *)
Lemma parse_rp_money (B : str) (d : ascii) (t : str) :
  forallb money_char B = true -> rev B = d :: t -> is_digit d = true ->
  parse_amount_token ("R"%char :: "p"%char :: B)
  = Ok (Some (int_of_digits (digits_only B))).
Proof.
  intros HB Hrev Hd.
  destruct (money_chars_plain B HB) as [Hsp [Hup [Hr [Hi Hs]]]].
  unfold parse_amount_token.
  assert (E1 : strip ("R"%char :: "p"%char :: B) = "R"%char :: "p"%char :: B).
  { apply strip_by_none. cbn [forallb]. rewrite Hsp. reflexivity. }
  rewrite E1.
  assert (E2 : lower ("R"%char :: "p"%char :: B) = "r"%char :: "p"%char :: B).
  { cbn [lower map]. fold (lower B). rewrite (lower_none B Hup). reflexivity. }
  rewrite E2.
  assert (E3 : replace (lit "rp") [] ("r"%char :: "p"%char :: B)
               = replace ("r"%char :: lit "p") [] B) by reflexivity.
  rewrite E3, (replace_absent "r" _ _ B Hr).
  change (lit "idr") with ("i"%char :: lit "dr").
  rewrite (replace_absent "i" _ _ B Hi).
  change (lit " ") with (" "%char :: []).
  rewrite (replace_absent " " _ _ B Hs).
  assert (Hne : is_empty B = false).
  { destruct B; [discriminate Hrev | reflexivity]. }
  rewrite Hne. cbn [map cut_suffix].
  rewrite (ends_with_digit (lit "ribu") B "u" d (rev (lit "rib")) t
             eq_refl Hrev Hd eq_refl).
  rewrite (ends_with_digit (lit "rb") B "b" d (rev (lit "r")) t
             eq_refl Hrev Hd eq_refl).
  rewrite (ends_with_digit (lit "k") B "k" d [] t eq_refl Hrev Hd eq_refl).
  rewrite (ends_with_digit (lit "juta") B "a" d (rev (lit "jut")) t
             eq_refl Hrev Hd eq_refl).
  rewrite (ends_with_digit (lit "jt") B "t" d (rev (lit "j")) t
             eq_refl Hrev Hd eq_refl).
  rewrite Hne. cbn [is_empty].
  assert (Hdig : is_empty (digits_only B) = false).
  { assert (Hin : In d (digits_only B)).
    { apply filter_In. split; [ | exact Hd].
      apply in_rev. rewrite Hrev. left. reflexivity. }
    destruct (digits_only B); [destruct Hin | reflexivity]. }
  rewrite Hdig. reflexivity.
Qed.

(** The text of [format_idr z] after "Rp". *)
Definition idr_body (z : Z) : str :=
  map (swap_char "," ".") (with_commas z).

Lemma format_idr_body (z : Z) :
  format_idr z = "R"%char :: "p"%char :: idr_body z.
Proof.
  unfold format_idr, idr_body.
  change (lit ",") with [","%char]. change (lit ".") with ["."%char].
  rewrite replace_char. reflexivity.
Qed.

Lemma swap_digits (l : str) :
  forallb (fun c => is_digit c || Ascii.eqb c ",") l = true ->
  forallb money_char (map (swap_char "," ".") l) = true
  /\ digits_only (map (swap_char "," ".") l) = digits_only l.
Proof.
  unfold digits_only.
  induction l as [ | c t IH]; intros H; [split; reflexivity | ].
  cbn [forallb] in H. apply andb_true_iff in H. destruct H as [Hc Ht].
  destruct (IH Ht) as [IH1 IH2].
  pose proof (money_char_swap c) as P. rewrite Hc in P.
  apply andb_true_iff in P. destruct P as [P P3].
  apply andb_true_iff in P. destruct P as [P1 P2].
  apply Bool.eqb_prop in P2.
  cbn [map forallb filter]. rewrite P1, IH1, P2, IH2. split; [reflexivity | ].
  destruct (is_digit c); [ | reflexivity].
  apply Ascii.eqb_eq in P3. rewrite P3. reflexivity.
Qed.

Lemma idr_body_facts (z : Z) :
  forallb money_char (idr_body z) = true
  /\ digits_only (idr_body z) = str_of_N (Z.abs_N z)
  /\ exists d t, rev (idr_body z) = d :: t /\ is_digit d = true.
Proof.
  unfold idr_body, with_commas.
  set (D := str_of_N (Z.abs_N z)).
  pose proof (str_of_N_digits (Z.abs_N z)) as HD. fold D in HD.
  pose proof (str_of_N_nonempty (Z.abs_N z)) as HN. fold D in HN.
  assert (HrD : forallb is_digit (rev D) = true).
  { apply forallb_forall. intros c Hc. apply in_rev in Hc.
    rewrite forallb_forall in HD. apply HD, Hc. }
  set (G := commas_from O (rev D)).
  assert (HG : forallb (fun c => is_digit c || Ascii.eqb c ",") (rev G) = true).
  { apply forallb_forall. intros c Hc. apply in_rev in Hc.
    pose proof (commas_chars (rev D) HrD O) as H.
    rewrite forallb_forall in H. apply H, Hc. }
  destruct (swap_digits (rev G) HG) as [S1 S2].
  assert (Hdig : digits_only (rev G) = D).
  { unfold digits_only. rewrite filter_rev. fold (digits_only G).
    unfold G. rewrite digits_only_commas. unfold digits_only.
    rewrite filter_rev, rev_involutive.
    apply forallb_filter_id. exact HD. }
  rewrite map_app. repeat split.
  - rewrite forallb_app, S1. destruct (z <? 0); reflexivity.
  - unfold digits_only. rewrite filter_app. fold (digits_only (map (swap_char "," ".") (rev G))).
    rewrite S2, Hdig. destruct (z <? 0); reflexivity.
  - rewrite rev_app_distr, <- map_rev, rev_involutive.
    destruct (rev D) as [ | c t] eqn:E.
    + exfalso. apply HN. rewrite <- (rev_involutive D), E. reflexivity.
    + cbn [forallb] in HrD. apply andb_true_iff in HrD.
      destruct HrD as [Hc _].
      unfold G. destruct (commas_from_step O c t) as [-> | ->];
        cbn [map app]; eexists; eexists; (split; [reflexivity | ]);
        pose proof (money_char_swap c) as P; rewrite Hc in P;
        cbn [orb] in P; rewrite !andb_true_iff in P;
        destruct P as [[_ P] _]; apply Bool.eqb_prop in P;
        exact P.
Qed.

(** X1. Reading back a formatted amount: for an amount of at most 4300
    decimal digits, the interpreter's default limit on the conversion
    between [int] and [str], [parse_amount_token(format_idr(z))] is the
    absolute value of [z]. *)
Theorem parse_amount_token_format_idr (z : Z) :
  Z.abs z < 10 ^ 4300 ->
  parse_amount_token (format_idr z) = Ok (Some (Z.abs z)).
Proof.
  intros _.
  destruct (idr_body_facts z) as [H1 [H2 [d [t [H3 H4]]]]].
  rewrite format_idr_body, (parse_rp_money _ d t H1 H3 H4), H2.
  rewrite int_of_str_of_N, N2Z.inj_abs_N. reflexivity.
Qed.

Lemma parse_amount_token_format_idr_witness :
  format_idr (- 1250000) = lit "Rp-1.250.000"
  /\ parse_amount_token (lit "Rp-1.250.000") = Ok (Some 1250000).
Proof.
  assert (E : format_idr (- 1250000) = lit "Rp-1.250.000")
    by (vm_compute; reflexivity).
  split; [exact E | ]. rewrite <- E.
  apply (parse_amount_token_format_idr (- 1250000)).
  vm_compute. reflexivity.
Defined.

End FormatIdr.

(** ** Bare digit strings in the plausibility filter *)

Section BareDigits.

Import Ocr.

Lemma digits_are_money (s : str) :
  forallb is_digit s = true -> forallb money_char s = true.
Proof.
  intros H. apply forallb_forall. intros c Hc.
  rewrite forallb_forall in H. unfold money_char. rewrite (H c Hc).
  reflexivity.
Qed.

Lemma digits_no_mark (x : ascii) (s : str) :
  is_digit x = false -> forallb is_digit s = true -> mem x s = false.
Proof.
  intros Hx H. destruct (mem x s) eqn:E; [ | reflexivity].
  apply mem_In in E. exfalso. exact (absent_char is_digit x s H Hx E).
Qed.

Lemma token_clean_digits_only (token : str) :
  forallb is_digit token = true ->
  token_clean token = token /\ has_currency token = false.
Proof.
  intros H.
  destruct (money_chars_plain token (digits_are_money token H))
    as [Hsp [Hup [Hr [Hi Hs]]]].
  assert (E : token_low token = token).
  { unfold token_low. rewrite (lower_none token Hup).
    apply strip_by_none, Hsp. }
  unfold token_clean, has_currency. rewrite E.
  change (lit " ") with (" "%char :: []).
  change (lit "rp.") with ("r"%char :: lit "p.").
  change (lit "rp") with ("r"%char :: lit "p").
  change (lit "idr") with ("i"%char :: lit "dr").
  rewrite (replace_absent " " _ _ token Hs).
  rewrite !(replace_absent "r" _ _ token Hr).
  rewrite (replace_absent "i" _ _ token Hi).
  rewrite (contains_absent "r" _ token Hr), (contains_absent "i" _ token Hi).
  split; reflexivity.
Qed.

Lemma has_suffix_digits (token : str) :
  forallb is_digit token = true -> has_suffix token = false.
Proof.
  intros H. unfold has_suffix.
  destruct (token_clean_digits_only token H) as [-> _].
  destruct (rev token) as [ | d t] eqn:E.
  - assert (token = []) by (rewrite <- (rev_involutive token), E; reflexivity).
    subst token. reflexivity.
  - assert (Hd : is_digit d = true).
    { rewrite forallb_forall in H. apply H, in_rev. rewrite E. left.
      reflexivity. }
    unfold Parser.MAGNITUDES. cbn [existsb].
    rewrite (ends_with_digit (lit "rb") token "b" d (rev (lit "r")) t
               eq_refl E Hd eq_refl).
    rewrite (ends_with_digit (lit "ribu") token "u" d (rev (lit "rib")) t
               eq_refl E Hd eq_refl).
    rewrite (ends_with_digit (lit "k") token "k" d [] t eq_refl E Hd eq_refl).
    rewrite (ends_with_digit (lit "jt") token "t" d (rev (lit "j")) t
               eq_refl E Hd eq_refl).
    rewrite (ends_with_digit (lit "juta") token "a" d (rev (lit "jut")) t
               eq_refl E Hd eq_refl).
    reflexivity.
Qed.

(** X2. A token made of decimal digits only passes the plausibility filter
    exactly when it has between 1 and 7 digits. *)
Theorem bare_digits_plausible_iff (token : str) :
  forallb is_digit token = true ->
  (_is_plausible_money_token token = true
   <-> (1 <= length token <= 7)%nat).
Proof.
  intros H. unfold _is_plausible_money_token.
  rewrite (has_suffix_digits token H).
  destruct (token_clean_digits_only token H) as [-> ->].
  unfold digits_only. rewrite (forallb_filter_id _ _ H).
  rewrite (digits_no_mark "." token eq_refl H).
  rewrite (digits_no_mark "," token eq_refl H).
  cbn [negb andb orb].
  destruct token as [ | c t]; cbn [is_empty length].
  - split; [discriminate | lia].
  - destruct (12 <? Z.of_nat (S (length t))) eqn:E12;
      [apply Z.ltb_lt in E12; split; [discriminate | lia] | ].
    destruct (8 <=? Z.of_nat (S (length t))) eqn:E8.
    + apply Z.leb_le in E8. split; [discriminate | lia].
    + apply Z.leb_gt in E8. split; [lia | reflexivity].
Qed.

Lemma bare_digits_plausible_iff_witness :
  _is_plausible_money_token (lit "1250000") = true
  /\ _is_plausible_money_token (lit "12500000") = false.
Proof.
  split.
  - apply (bare_digits_plausible_iff (lit "1250000")).
    + vm_compute. reflexivity.
    + vm_compute. lia.
  - destruct (_is_plausible_money_token (lit "12500000")) eqn:E;
      [ | reflexivity].
    apply (bare_digits_plausible_iff (lit "12500000")) in E.
    + vm_compute in E. lia.
    + vm_compute. reflexivity.
Defined.

End BareDigits.

(** ** Tokens without a digit *)

Section DigitNeeded.

Import Parser.

Definition has_digit (s : str) : Prop := exists c, In c s /\ is_digit c = true.

Lemma has_digit_incl (s t : str) :
  (forall c, In c s -> In c t) -> has_digit s -> has_digit t.
Proof. intros H [c [Hc Hd]]. exists c. split; [apply H, Hc | exact Hd]. Qed.

Lemma has_digit_lower (s : str) : has_digit (lower s) -> has_digit s.
Proof.
  intros [c [Hc Hd]]. unfold lower in Hc. apply in_map_iff in Hc.
  destruct Hc as [x [E Hx]]. exists x. split; [exact Hx | ].
  rewrite <- is_digit_lower_c, E. exact Hd.
Qed.

Lemma has_digit_nonempty_digits (s : str) :
  is_empty (digits_only s) = false -> has_digit s.
Proof.
  destruct (digits_only s) as [ | c t] eqn:E; [discriminate | intros _].
  assert (H : In c (digits_only s)) by (rewrite E; left; reflexivity).
  apply filter_In in H. exists c. exact H.
Qed.

Lemma span_digits_fst_In (c : ascii) (s : str) :
  In c (fst (span_digits s)) -> In c s.
Proof.
  induction s as [ | a t IH]; cbn [span_digits]; [tauto | ].
  destruct (is_digit a); [ | intros []].
  destruct (span_digits t) as [d r]. cbn [fst] in *.
  intros [E | H]; [left; exact E | right; apply IH, H].
Qed.

Lemma span_digits_snd_In (c : ascii) (s : str) :
  In c (snd (span_digits s)) -> In c s.
Proof.
  induction s as [ | a t IH]; cbn [span_digits]; [tauto | ].
  destruct (is_digit a); [ | tauto].
  destruct (span_digits t) as [d r]. cbn [snd] in *.
  intros H. right. apply IH, H.
Qed.

Lemma nonempty_digits (s : str) :
  forallb is_digit s = true -> is_empty s = false -> has_digit s.
Proof.
  destruct s as [ | c t]; [discriminate | ]. cbn [forallb].
  intros H _. apply andb_true_iff in H. exists c.
  split; [left; reflexivity | tauto].
Qed.

Lemma parse_decimal_has_digit (neg : bool) (body : str) (f : float) :
  parse_decimal neg body = Some f -> has_digit body.
Proof.
  unfold parse_decimal.
  pose proof (span_digits_digits body) as Hip.
  pose proof (fun c => span_digits_fst_In c body) as Hin1.
  pose proof (fun c => span_digits_snd_In c body) as Hin2.
  destruct (span_digits body) as [ip r1]. cbn [fst snd] in *.
  set (second :=
         match r1 with
         | "."%char :: t => span_digits t
         | _ => ([], r1)
         end).
  assert (Hsecond : forallb is_digit (fst second) = true
                    /\ forall c, In c (fst second) -> In c r1).
  { unfold second. destruct r1 as [ | c t]; [split; [reflexivity | tauto] | ].
    destruct (Ascii.eqb c ".") eqn:E.
    - apply Ascii.eqb_eq in E. subst c. split.
      + apply span_digits_digits.
      + intros c Hc. right. apply span_digits_fst_In, Hc.
    - destruct c as [[ | ] [ | ] [ | ] [ | ] [ | ] [ | ] [ | ] [ | ]];
        try (split; [reflexivity | intros c []]); discriminate. }
  destruct second as [fp r2]. cbn [fst] in Hsecond.
  destruct Hsecond as [Hfp Hin3].
  destruct (is_empty ip) eqn:Ei.
  - destruct (is_empty fp) eqn:Ef; [discriminate | intros _].
    apply has_digit_incl with fp; [ | apply nonempty_digits; assumption].
    intros c Hc. apply Hin2, Hin3, Hc.
  - intros _. apply has_digit_incl with ip; [exact Hin1 | ].
    apply nonempty_digits; assumption.
Qed.

(** A float that [round] turns into an integer. *)
Definition roundable (f : float) : Prop :=
  match f with
  | S754_infinity _ | S754_nan => False
  | _ => True
  end.

Lemma py_round_roundable (f : float) (v : Z) :
  py_round f = Ok v -> roundable f.
Proof. destruct f; cbn [py_round roundable]; try discriminate; tauto. Qed.

Lemma fmul_roundable (x y : float) :
  roundable (fmul x y) -> roundable x.
Proof.
  unfold fmul. destruct x as [sx | sx | | sx mx ex]; cbn [roundable];
    try tauto; destruct y; cbn [SFmul roundable]; tauto.
Qed.

Lemma split_sign_In (c : ascii) (s : str) :
  In c (snd (split_sign s)) -> In c s.
Proof.
  destruct s as [ | a t]; [tauto | ].
  destruct (Ascii.eqb a "-") eqn:E1.
  - apply Ascii.eqb_eq in E1. subst a. cbn. tauto.
  - destruct (Ascii.eqb a "+") eqn:E2.
    + apply Ascii.eqb_eq in E2. subst a. cbn. tauto.
    + assert (E : split_sign (a :: t) = (false, a :: t)).
      { destruct a as [[ | ] [ | ] [ | ] [ | ] [ | ] [ | ] [ | ] [ | ]];
          try reflexivity; discriminate. }
      rewrite E. tauto.
Qed.

Lemma parse_float_has_digit (s : str) (f : float) :
  parse_float s = Some f -> roundable f -> has_digit s.
Proof.
  unfold parse_float.
  pose proof (fun c => split_sign_In c s) as Hin.
  destruct (split_sign s) as [neg body]. cbn [snd] in Hin.
  destruct (_ || _); [intros H; injection H as <-; intros [] | ].
  destruct (str_eqb _ _); [intros H; injection H as <-; intros [] | ].
  intros H _. apply has_digit_incl with body; [exact Hin | ].
  eapply parse_decimal_has_digit, H.
Qed.

Lemma float_of_str_has_digit (s : str) (f : float) :
  float_of_str s = Ok f -> roundable f -> has_digit s.
Proof.
  unfold float_of_str.
  destruct (remove_underscores _) as [t | ] eqn:E; [ | discriminate].
  destruct (parse_float t) as [g | ] eqn:P; [ | discriminate].
  intros H Hr. injection H as <-.
  apply has_digit_incl with t; [ | eapply parse_float_has_digit; eassumption].
  intros c Hc. apply In_strip_by with is_c_space.
  eapply underscores_from_In; eassumption.
Qed.

(** X3. [parse_amount_token] returns a value only for a token that holds a
    decimal digit. *)
Theorem parse_amount_token_needs_digit (token : str) (v : Z) :
  parse_amount_token token = Ok (Some v) ->
  exists c, In c token /\ is_digit c = true.
Proof.
  unfold parse_amount_token.
  set (t1 := replace (lit " ") []
               (replace (lit "idr") []
                  (replace (lit "rp") [] (lower (strip token))))).
  assert (H1 : has_digit t1 -> has_digit token).
  { intros H. apply has_digit_incl with (strip token);
      [intros c; apply In_strip_by | ].
    apply has_digit_lower. revert H. apply has_digit_incl.
    intros c Hc. unfold t1 in Hc. do 3 apply In_remove in Hc. exact Hc. }
  destruct (is_empty t1); [discriminate | ].
  pose proof (fun c => cut_suffix_In c
                (map lit ["ribu"; "rb"; "k"; "juta"; "jt"]%string) t1) as Hcut.
  destruct (cut_suffix _ t1) as [suffix t2]. cbn [snd] in Hcut.
  assert (H2 : has_digit t2 -> has_digit token).
  { intros H. apply H1. revert H. apply has_digit_incl, Hcut. }
  destruct (is_empty t2); [discriminate | ].
  destruct (is_empty suffix).
  - destruct (is_empty (digits_only t2)) eqn:E; [discriminate | intros _].
    apply H2, has_digit_nonempty_digits, E.
  - destruct (float_of_str _) as [base_float | e] eqn:F;
      [ | destruct e; discriminate].
    assert (H3 : roundable base_float -> has_digit token).
    { intros Hr. apply H2.
      pose proof (float_of_str_has_digit _ _ F Hr) as [c [Hc Hd]].
      exists c. split; [ | exact Hd].
      apply In_replace_from in Hc. destruct Hc as [Hc | Hc]; [exact Hc | ].
      vm_compute in Hc. destruct Hc as [<- | []]. discriminate. }
    destruct (in_set suffix _).
    + intros H. bind_inv H.
      eapply H3, fmul_roundable, py_round_roundable, Ha.
    + destruct (in_set suffix _).
      * intros H. bind_inv H.
        eapply H3, fmul_roundable, py_round_roundable, Ha.
      * intros H. bind_inv H. eapply H3, py_round_roundable, Ha.
Qed.

Lemma parse_amount_token_needs_digit_witness :
  parse_amount_token (lit "Rp 1,5 juta") = Ok (Some 1500000)
  /\ exists c, In c (lit "Rp 1,5 juta") /\ is_digit c = true.
Proof.
  assert (H : parse_amount_token (lit "Rp 1,5 juta") = Ok (Some 1500000))
    by (vm_compute; reflexivity).
  split; [exact H | ].
  exact (parse_amount_token_needs_digit _ _ H).
Defined.

End DigitNeeded.

(** ** What a match consumes *)

Section StarLoop.

Variable step : cursor -> captures -> (cursor -> captures -> outcome) -> outcome.
Variable k : cursor -> captures -> outcome.

(** The loop of [matches] on [Star a], with [step] for [matches a]. *)
Fixpoint star_loop (n : nat) (p : cursor) (cs : captures) {struct n}
    : outcome :=
  match n with
  | O => k p cs
  | S n' =>
      match step p cs
              (fun p' cs' =>
                 if Nat.ltb (idx p) (idx p') then star_loop n' p' cs'
                 else None) with
      | Some x => Some x
      | None => k p cs
      end
  end.

End StarLoop.

Lemma matches_star (a : regex) (p : cursor) (cs : captures)
    (k : cursor -> captures -> outcome) :
  matches (Star a) p cs k
  = star_loop (matches a) k (S (length (rest p))) p cs.
Proof. reflexivity. Qed.

Section MatchSound.

Local Open Scope nat_scope.

(** The characters a pattern may consume. *)
Variable P : ascii -> bool.

Fixpoint chars_ok (r : regex) : Prop :=
  match r with
  | Chr f => forall c, f c = true -> P c = true
  | Seq a b | Alt a b => chars_ok a /\ chars_ok b
  | Star a | Group _ a => chars_ok a
  | Eps | WordB | EndS | NegLook _ => True
  end.

Definition span_in (lo hi : nat) (e : nat * (nat * nat)) : Prop :=
  lo <= fst (snd e) /\ fst (snd e) <= snd (snd e) /\ snd (snd e) <= hi.

(** From [p] to [p']: the characters passed over satisfy [P], and every
    group span recorded on the way lies between the two offsets. *)
Definition reaches (p p' : cursor) (cs cs' : captures) : Prop :=
  exists consumed,
    rest p = consumed ++ rest p'
    /\ forallb P consumed = true
    /\ idx p' = idx p + length consumed
    /\ forall e, In e cs' -> In e cs \/ span_in (idx p) (idx p') e.

Lemma reaches_refl (p : cursor) (cs : captures) : reaches p p cs cs.
Proof.
  exists []. cbn [app length forallb].
  repeat split; [lia | tauto].
Qed.

Lemma reaches_trans (p1 p2 p3 : cursor) (c1 c2 c3 : captures) :
  reaches p1 p2 c1 c2 -> reaches p2 p3 c2 c3 -> reaches p1 p3 c1 c3.
Proof.
  intros [u [Hu [Pu [Iu Cu]]]] [v [Hv [Pv [Iv Cv]]]].
  exists (u ++ v). repeat split.
  - rewrite Hu, Hv, app_assoc. reflexivity.
  - rewrite forallb_app, Pu, Pv. reflexivity.
  - rewrite length_app. lia.
  - intros e He. destruct (Cv e He) as [H | H].
    + destruct (Cu e H) as [H' | H']; [left; exact H' | right].
      unfold span_in in *. lia.
    + right. unfold span_in in *. lia.
Qed.

Lemma star_loop_sound (a : regex) (k : cursor -> captures -> outcome)
    (res : nat * captures) :
  (forall p cs k' , matches a p cs k' = Some res ->
     exists p' cs', reaches p p' cs cs' /\ k' p' cs' = Some res) ->
  forall n p cs,
    star_loop (matches a) k n p cs = Some res ->
    exists p' cs', reaches p p' cs cs' /\ k p' cs' = Some res.
Proof.
  intros IHa. induction n as [ | n IH]; intros p cs H; cbn [star_loop] in H.
  - exists p, cs. split; [apply reaches_refl | exact H].
  - destruct (matches a p cs _) as [x | ] eqn:E.
    + injection H as ->.
      destruct (IHa _ _ _ E) as [p1 [cs1 [R1 K1]]].
      destruct (Nat.ltb (idx p) (idx p1)); [ | discriminate].
      destruct (IH _ _ K1) as [p2 [cs2 [R2 K2]]].
      exists p2, cs2. split; [eapply reaches_trans; eassumption | exact K2].
    + exists p, cs. split; [apply reaches_refl | exact H].
Qed.

Lemma matches_sound (r : regex) :
  chars_ok r ->
  forall p cs k res,
    matches r p cs k = Some res ->
    exists p' cs', reaches p p' cs cs' /\ k p' cs' = Some res.
Proof.
  induction r as [ | f | a IHa b IHb | a IHa b IHb | a IHa | n a IHa | |
                   | a IHa]; intros Hok p cs k res H.
  - exists p, cs. split; [apply reaches_refl | exact H].
  - cbn [matches] in H. destruct (rest p) as [ | c t] eqn:E; [discriminate | ].
    destruct (f c) eqn:Ef; [ | discriminate].
    exists (advance p c t), cs. split; [ | exact H].
    exists [c]. cbn [advance idx rest length app forallb].
    rewrite (Hok c Ef). repeat split; try assumption; [lia | tauto].
  - cbn [matches] in H. destruct Hok as [Ha Hb].
    destruct (IHa Ha _ _ _ _ H) as [p1 [cs1 [R1 K1]]].
    destruct (IHb Hb _ _ _ _ K1) as [p2 [cs2 [R2 K2]]].
    exists p2, cs2. split; [eapply reaches_trans; eassumption | exact K2].
  - cbn [matches] in H. destruct Hok as [Ha Hb].
    destruct (matches a p cs k) as [x | ] eqn:E.
    + injection H as ->. apply (IHa Ha _ _ _ _ E).
    + apply (IHb Hb _ _ _ _ H).
  - rewrite matches_star in H.
    eapply star_loop_sound; [ | exact H].
    intros p0 cs0 k' H0. apply (IHa Hok _ _ _ _ H0).
  - cbn [matches] in H.
    destruct (IHa Hok _ _ _ _ H) as [p1 [cs1 [R1 K1]]].
    exists p1, ((n, (idx p, idx p1)) :: cs1). split; [ | exact K1].
    destruct R1 as [u [Hu [Pu [Iu Cu]]]]. exists u.
    repeat split; try assumption.
    intros e [<- | He].
    + right. unfold span_in. cbn [fst snd]. lia.
    + apply Cu, He.
  - cbn [matches] in H. destruct (xorb _ _); [ | discriminate].
    exists p, cs. split; [apply reaches_refl | exact H].
  - cbn [matches] in H. destruct (at_end p); [ | discriminate].
    exists p, cs. split; [apply reaches_refl | exact H].
  - cbn [matches] in H. destruct (matches a p cs _); [discriminate | ].
    exists p, cs. split; [apply reaches_refl | exact H].
Qed.

(** A match found by [search]: the subject splits around it, the matched
    text satisfies [P], and the group spans lie inside the match. *)
Definition sound_match (s : str) (i : nat) (m : found) : Prop :=
  exists pre mid post,
    s = pre ++ mid ++ post
    /\ m_start m = i + length pre
    /\ m_end m = m_start m + length mid
    /\ forallb P mid = true
    /\ forall e, In e (m_groups m) -> span_in (m_start m) (m_end m) e.

Lemma search_from_sound (r : regex) :
  chars_ok r ->
  forall s i b m, search_from r i b s = Some m -> sound_match s i m.
Proof.
  intros Hok. induction s as [ | c t IH]; intros i b m H;
    cbn [search_from] in H.
  - destruct (matches r _ [] accept) as [[e cs] | ] eqn:E; [ | discriminate].
    injection H as <-.
    destruct (matches_sound r Hok _ _ _ _ E) as [p' [cs' [R K]]].
    unfold accept in K. injection K as <- <-.
    destruct R as [u [Hu [Pu [Iu Cu]]]]. cbn [idx rest] in *.
    exists [], u, (rest p'). cbn [m_start m_end m_groups length app].
    split; [exact Hu | split; [lia | split; [lia | split; [exact Pu | ]]]].
    intros e0 He. destruct (Cu e0 He) as [[] | Hs]. exact Hs.
  - destruct (matches r _ [] accept) as [[e cs] | ] eqn:E.
    + injection H as <-.
      destruct (matches_sound r Hok _ _ _ _ E) as [p' [cs' [R K]]].
      unfold accept in K. injection K as <- <-.
      destruct R as [u [Hu [Pu [Iu Cu]]]]. cbn [idx rest] in *.
      exists [], u, (rest p'). cbn [m_start m_end m_groups length app].
      split; [exact Hu | split; [lia | split; [lia | split; [exact Pu | ]]]].
      intros e0 He. destruct (Cu e0 He) as [[] | Hs]. exact Hs.
    + destruct (IH _ _ _ H) as [pre [mid [post [Hs [H1 [H2 [H3 H4]]]]]]].
      exists (c :: pre), mid, post. cbn [app length].
      split; [rewrite Hs; reflexivity | ].
      split; [lia | split; [lia | split; [exact H3 | exact H4]]].
Qed.

Lemma In_firstn_skipn (c : ascii) (n : nat) :
  forall i l, In c (firstn n (skipn i l)) -> In c (firstn (i + n) l).
Proof.
  induction i as [ | i IH]; intros l H; [exact H | ].
  destruct l as [ | a t]; cbn [skipn] in H.
  - rewrite firstn_nil in H. destruct H.
  - cbn [plus firstn]. right. apply IH, H.
Qed.

Lemma slice_inside (pre mid post : str) (c : ascii) :
  forall i j,
    length pre <= i -> i <= j -> j <= length pre + length mid ->
    In c (slice (pre ++ mid ++ post) i j) -> In c mid.
Proof.
  induction pre as [ | a pre IH]; intros i j H1 H2 H3 H.
  - cbn [app length plus] in *. unfold slice in H.
    apply In_firstn_skipn in H.
    replace (i + (j - i)) with j in H by lia.
    rewrite firstn_app in H.
    replace (j - length mid) with 0 in H by lia.
    rewrite firstn_0, app_nil_r in H. eapply In_first, H.
  - cbn [length] in *. destruct i as [ | i]; [lia | ].
    destruct j as [ | j]; [lia | ].
    apply (IH i j); try lia. exact H.
Qed.

Lemma slice_exact (pre mid post : str) :
  slice (pre ++ mid ++ post) (length pre) (length pre + length mid) = mid.
Proof.
  unfold slice. rewrite skipn_app, skipn_all, Nat.sub_diag. cbn [app skipn].
  replace (length pre + length mid - length pre) with (length mid) by lia.
  rewrite firstn_app, firstn_all, Nat.sub_diag, firstn_0, app_nil_r.
  reflexivity.
Qed.

(** The texts [m.group(0)] and [m.group(n)] of a match found by [search]
    are made of characters the pattern may consume. *)
Lemma search_group0 (r : regex) (s : str) (m : found) :
  chars_ok r -> search r s = Some m -> forallb P (group0 s m) = true.
Proof.
  intros Hok H. destruct (search_from_sound r Hok _ _ _ _ H)
    as [pre [mid [post [Hs [H1 [H2 [H3 _]]]]]]].
  unfold group0. rewrite H2, H1, Hs. cbn [plus]. rewrite slice_exact.
  exact H3.
Qed.

Lemma search_group (r : regex) (s : str) (m : found) (n : nat) :
  chars_ok r -> search r s = Some m -> forallb P (group s m n) = true.
Proof.
  intros Hok H. destruct (search_from_sound r Hok _ _ _ _ H)
    as [pre [mid [post [Hs [H1 [H2 [H3 H4]]]]]]].
  unfold group. destruct (lookup n (m_groups m)) as [[i j] | ] eqn:E;
    [ | reflexivity].
  assert (Hin : In (n, (i, j)) (m_groups m)).
  { clear - E. induction (m_groups m) as [ | [n' sp] t IH];
      cbn [lookup] in E; [discriminate | ].
    destruct (Nat.eqb n n') eqn:En.
    - apply Nat.eqb_eq in En. subst n'. injection E as ->. left. reflexivity.
    - right. apply IH, E. }
  destruct (H4 _ Hin) as [Ha [Hb Hc]]. cbn [fst snd] in *.
  apply forallb_forall. intros c Hc'.
  rewrite forallb_forall in H3. apply H3.
  rewrite Hs in Hc'. eapply slice_inside; [ | | | exact Hc']; lia.
Qed.

End MatchSound.

(** ** Checking the characters of a pattern *)

Section PatternCheck.

Definition all_ascii : list ascii := map ascii_of_nat (seq 0 256).

Lemma all_ascii_In (c : ascii) : In c all_ascii.
Proof.
  unfold all_ascii. apply in_map_iff. exists (nat_of_ascii c).
  split; [apply ascii_nat_embedding | ].
  apply in_seq. pose proof (nat_ascii_bounded c). lia.
Qed.

Variable P : ascii -> bool.

Fixpoint chars_okb (r : regex) : bool :=
  match r with
  | Chr f => forallb (fun c => implb (f c) (P c)) all_ascii
  | Seq a b | Alt a b => chars_okb a && chars_okb b
  | Star a | Group _ a => chars_okb a
  | Eps | WordB | EndS | NegLook _ => true
  end.

Lemma chars_okb_ok (r : regex) : chars_okb r = true -> chars_ok P r.
Proof.
  induction r; cbn [chars_okb chars_ok]; intros H; try exact I;
    try (apply andb_true_iff in H; destruct H; split; auto; fail);
    try (auto; fail).
  intros c Hc. rewrite forallb_forall in H.
  specialize (H c (all_ascii_In c)). rewrite Hc in H. exact H.
Qed.

End PatternCheck.

(** ** Split bills *)

Section SplitBill.

Import Parser.

Definition no_minus (c : ascii) : bool := negb (Ascii.eqb c "-").

Lemma no_minus_absent (s : str) :
  forallb no_minus s = true -> ~ In "-"%char s.
Proof. intros H. apply (absent_char no_minus "-" s H). reflexivity. Qed.

(** The value of a token without a minus sign, as a helper of the split
    bill. *)
Lemma minus_free_amount (token : str) (v : Z) :
  ~ In "-"%char token ->
  parse_amount_token token = Ok (Some v) ->
  0 <= v.
Proof.
  intros Hnot. unfold parse_amount_token.
  set (t1 := replace (lit " ") []
               (replace (lit "idr") []
                  (replace (lit "rp") [] (lower (strip token))))).
  assert (H1 : ~ In "-"%char t1).
  { intros Hin. apply Hnot. unfold t1 in Hin.
    do 3 apply In_remove in Hin.
    apply In_lower_fixed in Hin; [ | exact eqb_lower_c_minus].
    eapply In_strip_by, Hin. }
  destruct (is_empty t1); [discriminate | ].
  pose proof (cut_suffix_In "-"
                (map lit ["ribu"; "rb"; "k"; "juta"; "jt"]%string) t1) as Hcut.
  destruct (cut_suffix _ t1) as [suffix t2]. cbn [snd] in Hcut.
  destruct (is_empty t2); [discriminate | ].
  destruct (is_empty suffix).
  - destruct (is_empty (digits_only t2)); [discriminate | ].
    intros H. injection H as <-.
    apply int_of_digits_nonneg, digits_only_all_digits.
  - destruct (float_of_str _) as [base_float | e] eqn:F;
      [ | destruct e; discriminate].
    assert (Hb : sign_is false base_float).
    { eapply float_of_str_sign; [ | exact F].
      intros Hin. apply In_replace_from in Hin.
      destruct Hin as [Hin | Hin]; [tauto | ].
      vm_compute in Hin. destruct Hin as [Hin | []]. discriminate. }
    destruct (in_set suffix _).
    + intros H. bind_inv H. injection H as <-.
      eapply py_round_nonneg; [ | exact Ha].
      apply fmul_sign; [exact Hb | apply nearest_of_Z_sign; lia].
    + destruct (in_set suffix _).
      * intros H. bind_inv H. injection H as <-.
        eapply py_round_nonneg; [ | exact Ha].
        apply fmul_sign; [exact Hb | apply nearest_of_Z_sign; lia].
      * intros H. bind_inv H. injection H as <-.
        eapply py_round_nonneg; eassumption.
Qed.

Lemma parse_amount_after_keyword_nonneg (text : str)
    (keyword : String.string) (v : Z) :
  chars_okb no_minus (amount_after_re keyword) = true ->
  parse_amount_after_keyword text keyword = Ok (Some v) -> 0 <= v.
Proof.
  intros Hok. unfold parse_amount_after_keyword.
  destruct (search _ text) as [m | ] eqn:E; [ | discriminate].
  apply minus_free_amount, no_minus_absent.
  eapply search_group; [apply chars_okb_ok, Hok | exact E].
Qed.

Lemma parse_percentage_after_keyword_sign (text : str)
    (keyword : String.string) (f : float) :
  chars_okb no_minus (percentage_re keyword) = true ->
  parse_percentage_after_keyword text keyword = Ok (Some f) ->
  sign_is false f.
Proof.
  intros Hok. unfold parse_percentage_after_keyword.
  destruct (search _ text) as [m | ] eqn:E; [ | discriminate].
  intros H. bind_inv H. injection H as <-.
  eapply float_of_str_sign; [ | exact Ha].
  intros Hin. apply In_replace_from in Hin. destruct Hin as [Hin | Hin].
  - revert Hin. apply no_minus_absent.
    eapply search_group; [apply chars_okb_ok, Hok | exact E].
  - vm_compute in Hin. destruct Hin as [Hin | []]. discriminate.
Qed.

Lemma SFdiv_sign (x y : float) :
  sign_is false x -> sign_is false y -> sign_is false (SFdiv prec emax x y).
Proof.
  destruct x as [sx | sx | | sx mx ex], y as [sy | sy | | sy my ey];
    cbn [sign_is SFdiv]; intros Hx Hy; subst; try reflexivity.
  destruct (SFdiv_core_binary _ _ _ _ _ _) as [[q e] l].
  apply binary_round_aux_sign.
Qed.

Lemma percent_of_nonneg (base : Z) (pct : float) (v : Z) :
  0 <= base -> sign_is false pct -> percent_of base pct = Ok v -> 0 <= v.
Proof.
  intros Hb Hp. unfold percent_of.
  set (c := nearest_of_Z 100).
  assert (Hc : sign_is false c) by (apply nearest_of_Z_sign; lia).
  clearbody c. intros H. bind_inv H. bind_inv H.
  eapply py_round_nonneg; [ | exact H].
  unfold fdiv in Ha0. destruct (is_zero c); [discriminate | ].
  injection Ha0 as <-. apply SFdiv_sign; [ | exact Hc].
  apply fmul_sign; [ | exact Hp].
  unfold float_of_int in Ha. pose proof (nearest_of_Z_sign base Hb) as Hs.
  destruct (nearest_of_Z base); try discriminate; injection Ha as <-;
    exact Hs.
Qed.

Lemma positive_or_none_pos (a : option Z) (v : Z) :
  positive_or_none a = Some v -> 0 < v.
Proof.
  unfold positive_or_none. destruct a as [x | ]; [ | discriminate].
  destruct (negb _ || (x <=? 0)) eqn:E; [discriminate | ].
  intros H. injection H as <-. apply orb_false_iff in E.
  destruct E as [_ E]. apply Z.leb_gt in E. exact E.
Qed.

Lemma or_else_cases (a b : res (option Z)) (x : option Z) :
  or_else a b = Ok x -> a = Ok x \/ b = Ok x.
Proof.
  unfold or_else. intros H. bind_inv H.
  destruct (truthy a0); [left; congruence | right; exact H].
Qed.

(** X4. Every bill returned by [parse_split_bill] has at least one person, a
    positive subtotal and non-negative service and tax amounts, so that
    the grand total is at least the subtotal; the division of
    [_reply_split_bill] never divides by zero. *)
Theorem parse_split_bill_invariants (text : str) (b : ParsedSplitBill) :
  parse_split_bill text = Ok (Some b) ->
  1 <= people b
  /\ 0 < subtotal b
  /\ 0 <= service_amount b
  /\ 0 <= tax_amount b
  /\ subtotal b <= grand_total b
  /\ Service.per_person b <> Raise ZeroDivisionError.
Proof.
  unfold parse_split_bill. intros H.
  destruct (negb _ && negb _); [discriminate | ].
  destruct (match search PEOPLE_RE _ with Some _ => _ | None => _ end)
    as [m | ]; [ | discriminate].
  destruct (int_of_digits _ <=? 0) eqn:Ep; [discriminate | ].
  apply Z.leb_gt in Ep.
  bind_inv H.
  destruct (positive_or_none a) as [sub | ] eqn:Es; [ | discriminate].
  apply positive_or_none_pos in Es.
  bind_inv H. bind_inv H. bind_inv H. bind_inv H. injection H as <-.
  cbn [people subtotal service_amount tax_amount].
  assert (Hs0 : 0 <= (if truthy a0 then or_zero a0 else 0)).
  { destruct a0 as [x | ]; cbn [truthy or_zero]; [ | lia].
    destruct (negb (x =? 0)); [ | lia].
    eapply parse_amount_after_keyword_nonneg; [ | exact Ha0].
    vm_compute. reflexivity. }
  assert (Hs : 0 <= a1).
  { destruct (_ =? 0) eqn:Ez.
    - bind_inv Ha1. destruct a4 as [pct | ].
      + eapply percent_of_nonneg; [ | | exact Ha1]; [lia | ].
        eapply parse_percentage_after_keyword_sign; [ | exact Ha4].
        vm_compute. reflexivity.
      + injection Ha1 as <-. exact Hs0.
    - injection Ha1 as <-. exact Hs0. }
  assert (Ht0 : 0 <= (if truthy a2 then or_zero a2 else 0)).
  { destruct a2 as [x | ]; cbn [truthy or_zero]; [ | lia].
    destruct (negb (x =? 0)); [ | lia].
    apply or_else_cases in Ha2. destruct Ha2 as [Ha2 | Ha2];
      (eapply parse_amount_after_keyword_nonneg; [ | exact Ha2]);
      vm_compute; reflexivity. }
  assert (Ht : 0 <= a3).
  { destruct (_ =? 0) eqn:Ez in Ha3.
    - bind_inv Ha3. bind_inv Ha3. destruct a5 as [pct | ].
      + eapply percent_of_nonneg; [ | | exact Ha3]; [lia | ].
        destruct a4 as [pct' | ].
        * injection Ha5 as <-.
          eapply parse_percentage_after_keyword_sign; [ | exact Ha4].
          vm_compute. reflexivity.
        * eapply parse_percentage_after_keyword_sign; [ | exact Ha5].
          vm_compute. reflexivity.
      + injection Ha3 as <-. exact Ht0.
    - injection Ha3 as <-. exact Ht0. }
  unfold grand_total. cbn [people subtotal service_amount tax_amount].
  repeat split; try lia.
  unfold Service.per_person, grand_total, int_truediv.
  cbn [people subtotal service_amount tax_amount].
  set (p := int_of_digits _) in *.
  assert (Hc : forall f, py_ceil f <> Raise ZeroDivisionError)
    by (intros f; destruct f; discriminate).
  destruct (p =? 0) eqn:E0; [apply Z.eqb_eq in E0; lia | ].
  destruct (sub + a1 + a3 =? 0); cbn [bind]; [apply Hc | ].
  destruct (div_pos _ _ _); cbn [bind]; try apply Hc. discriminate.
Qed.

Lemma parse_split_bill_invariants_witness :
  exists b,
    parse_split_bill (lit "patungan makan 250rb bagi 4 ppn 11%") = Ok (Some b)
    /\ 1 <= people b /\ 0 < subtotal b /\ subtotal b <= grand_total b.
Proof.
  destruct (parse_split_bill (lit "patungan makan 250rb bagi 4 ppn 11%"))
    as [[b | ] | e] eqn:E; try (vm_compute in E; discriminate).
  exists b. split; [reflexivity | ].
  destruct (parse_split_bill_invariants _ b E) as [H1 [H2 [_ [_ [H3 _]]]]].
  repeat split; assumption.
Defined.

End SplitBill.

(** ** The category classifier *)

Section Classifier.

Import Parser.

Lemma first_category_In (table : list (str * list str)) (low : str)
    (category : str) :
  first_category table low = Some category -> In category (map fst table).
Proof.
  induction table as [ | [cat kws] others IH]; cbn [first_category];
    [discriminate | ].
  destruct (existsb _ kws).
  - intros H. injection H as <-. left. reflexivity.
  - intros H. right. apply IH, H.
Qed.

Lemma starts_with_app (k s t : str) :
  starts_with k s = true -> starts_with k (s ++ t) = true.
Proof.
  revert s. induction k as [ | x k IH]; intros s H; [reflexivity | ].
  destruct s as [ | y s]; [discriminate | ]. cbn [starts_with app] in *.
  apply andb_true_iff in H. destruct H as [E H].
  rewrite E, (IH _ H). reflexivity.
Qed.

Lemma contains_app_r (k s t : str) :
  contains k s = true -> contains k (s ++ t) = true.
Proof.
  induction s as [ | y s IH]; intros H.
  - cbn [contains] in H. rewrite orb_false_r in H.
    destruct k; [ | discriminate]. destruct t; reflexivity.
  - change (contains k ((y :: s) ++ t))
      with (starts_with k ((y :: s) ++ t) || contains k (s ++ t)).
    cbn [contains] in H. apply orb_true_iff in H.
    destruct H as [H | H].
    + rewrite (starts_with_app k (y :: s) t H). reflexivity.
    + rewrite (IH H). apply orb_true_r.
Qed.

Lemma contains_app_l (k s t : str) :
  contains k t = true -> contains k (s ++ t) = true.
Proof.
  induction s as [ | y s IH]; intros H; [exact H | ].
  cbn [contains app]. rewrite (IH H). apply orb_true_r.
Qed.

Lemma first_category_more (table : list (str * list str)) (low low' : str) :
  (forall k, contains k low = true -> contains k low' = true) ->
  first_category table low <> None -> first_category table low' <> None.
Proof.
  intros Hmore.
  induction table as [ | [cat kws] others IH]; cbn [first_category];
    [tauto | ].
  destruct (existsb (fun keyword => contains keyword low') kws) eqn:E';
    [discriminate | ].
  destruct (existsb (fun keyword => contains keyword low) kws) eqn:E;
    [ | exact IH].
  exfalso. apply existsb_exists in E. destruct E as [k [Hk Hc]].
  assert (existsb (fun keyword => contains keyword low') kws = true).
  { apply existsb_exists. exists k. split; [exact Hk | apply Hmore, Hc]. }
  congruence.
Qed.

Definition TAXONOMY : list str := map fst CATEGORY_KEYWORDS ++ [lit "Lainnya"].

Lemma infer_category_default (t : str) :
  infer_category t <> lit "Lainnya" <->
  first_category CATEGORY_KEYWORDS (lower t) <> None.
Proof.
  unfold infer_category.
  destruct (first_category CATEGORY_KEYWORDS (lower t)) as [c | ] eqn:E.
  - split; [discriminate | intros _].
    apply first_category_In in E. cbn [CATEGORY_KEYWORDS map fst] in E.
    repeat (destruct E as [<- | E]; [discriminate | ]). destruct E.
  - tauto.
Qed.

Lemma infer_category_In (t : str) : In (infer_category t) TAXONOMY.
Proof.
  unfold infer_category, TAXONOMY.
  destruct (first_category CATEGORY_KEYWORDS (lower t)) as [c | ] eqn:E.
  - apply in_or_app. left. eapply first_category_In, E.
  - apply in_or_app. right. left. reflexivity.
Qed.

(** X5. [infer_category] answers within the fixed taxonomy, and text that is
    classified stays classified when more text is put around it. *)
Theorem infer_category_taxonomy (before t after : str) :
  In (infer_category t) TAXONOMY
  /\ (infer_category t <> lit "Lainnya" ->
      infer_category (before ++ t ++ after) <> lit "Lainnya").
Proof.
  split; [apply infer_category_In | ].
  intros H. apply infer_category_default.
  apply infer_category_default in H. revert H.
  apply first_category_more. intros k Hk.
  unfold lower. rewrite !map_app.
  apply contains_app_l, contains_app_r, Hk.
Qed.

Lemma infer_category_taxonomy_witness :
  infer_category (lit "kopi") <> lit "Lainnya"
  /\ infer_category (lit "Warung " ++ lit "kopi" ++ lit " senja")
     <> lit "Lainnya".
Proof.
  assert (H : infer_category (lit "kopi") <> lit "Lainnya")
    by (vm_compute; discriminate).
  split; [exact H | ].
  exact (proj2 (infer_category_taxonomy (lit "Warung ") (lit "kopi")
                  (lit " senja")) H).
Defined.

Lemma infer_category_nonempty (t : str) : infer_category t <> [].
Proof.
  pose proof (infer_category_In t) as H.
  unfold TAXONOMY in H. cbn [CATEGORY_KEYWORDS map fst app] in H.
  repeat (destruct H as [<- | H]; [discriminate | ]). destruct H.
Qed.

(** *** [normalize_category] and letter case *)

Lemma drop_while_map (g : ascii -> ascii) (s : str) :
  (forall c, is_space (g c) = is_space c) ->
  drop_while is_space (map g s) = map g (drop_while is_space s).
Proof.
  intros Hg. induction s as [ | c t IH]; [reflexivity | ].
  cbn [map drop_while]. rewrite Hg. destruct (is_space c); [exact IH | ].
  reflexivity.
Qed.

Lemma rstrip_map (g : ascii -> ascii) (s : str) :
  (forall c, is_space (g c) = is_space c) ->
  rstrip_by is_space (map g s) = map g (rstrip_by is_space s).
Proof.
  intros Hg. induction s as [ | c t IH]; [reflexivity | ].
  cbn [map rstrip_by]. rewrite IH.
  destruct (rstrip_by is_space t) as [ | x r]; cbn [map].
  - rewrite Hg. destruct (is_space c); reflexivity.
  - reflexivity.
Qed.

Lemma strip_lower (s : str) : strip (lower s) = lower (strip s).
Proof.
  unfold strip, strip_by, lower.
  rewrite drop_while_map by apply is_space_lower_c.
  apply rstrip_map, is_space_lower_c.
Qed.

Lemma lower_collapse_map (g : ascii -> ascii) (s : str) :
  (forall c, is_space (g c) = is_space c) ->
  (forall c, lower_c (g c) = lower_c c) ->
  forall b, lower (collapse_from b (map g s)) = lower (collapse_from b s).
Proof.
  intros Hs Hl. unfold lower.
  induction s as [ | c t IH]; intros b; [reflexivity | ].
  cbn [map collapse_from]. rewrite Hs.
  destruct (is_space c); [destruct b | ]; cbn [map];
    rewrite ?IH, ?Hl; reflexivity.
Qed.

Lemma clean_name_map (g : ascii -> ascii) (name : str) :
  (forall c, is_space (g c) = is_space c) ->
  (forall c, lower_c (g c) = lower_c c) ->
  clean_name (map g name) = clean_name name.
Proof.
  intros Hs Hl. unfold clean_name. rewrite <- !strip_lower.
  unfold collapse_ws. rewrite (lower_collapse_map g name Hs Hl). reflexivity.
Qed.

Lemma normalize_category_clean (a b : str) :
  clean_name a = clean_name b -> normalize_category a = normalize_category b.
Proof.
  intros H. unfold normalize_category. fold (clean_name a) (clean_name b).
  rewrite H. reflexivity.
Qed.

Lemma title_from_length (s : str) :
  forall b, length (title_from b s) = length s.
Proof.
  induction s as [ | c t IH]; intros b; [reflexivity | ].
  cbn [title_from length]. rewrite IH. reflexivity.
Qed.

Lemma normalize_category_nonempty (name : str) : normalize_category name <> [].
Proof.
  unfold normalize_category. fold (clean_name name).
  destruct (is_empty (clean_name name)) eqn:Ee; [discriminate | ].
  destruct (known_category CATEGORY_KEYWORDS (clean_name name)) as [cat | ]
    eqn:Ek.
  - apply known_category_In in Ek. cbn [CATEGORY_KEYWORDS map fst] in Ek.
    repeat (destruct Ek as [<- | Ek]; [discriminate | ]). destruct Ek.
  - intros H. apply (f_equal (@length ascii)) in H.
    unfold title in H. rewrite title_from_length in H.
    destruct (clean_name name); [discriminate Ee | discriminate H].
Qed.

(** X6. [normalize_category] does not depend on the length of the
    whitespace runs of its argument and never returns an empty name;
    on a name made of ASCII characters it does not depend on the letter
    case either. *)
Theorem normalize_category_insensitive (name : str) :
  normalize_category (collapse_ws name) = normalize_category name
  /\ normalize_category name <> []
  /\ (isascii name = true ->
      normalize_category (lower name) = normalize_category name
      /\ normalize_category (upper name) = normalize_category name).
Proof.
  split; [ | split; [ | intros _; split]].
  - apply normalize_category_clean. unfold clean_name, collapse_ws.
    rewrite (collapse_normal _ _ (normal_collapse name false)). reflexivity.
  - apply normalize_category_nonempty.
  - apply normalize_category_clean, clean_name_map.
    + apply is_space_lower_c.
    + apply lower_c_idem.
  - apply normalize_category_clean, clean_name_map.
    + apply is_space_upper_c.
    + apply lower_c_upper_c.
Qed.

Lemma normalize_category_insensitive_witness :
  isascii (lit "uang  Jajan") = true
  /\ normalize_category (upper (lit "uang  Jajan"))
     = normalize_category (lit "uang  Jajan").
Proof.
  assert (H : isascii (lit "uang  Jajan") = true) by (vm_compute; reflexivity).
  split; [exact H | ].
  destruct (normalize_category_insensitive (lit "uang  Jajan"))
    as [_ [_ Hcase]].
  exact (proj2 (Hcase H)).
Defined.

End Classifier.

(** ** Expense statements *)

Section ExpenseStatements.

Import Parser.

(** No whitespace other than the space. *)
Definition space_only (c : ascii) : bool :=
  negb (is_space c) || Ascii.eqb c " ".

Lemma space_only_collapse (s : str) :
  forall b, forallb space_only (collapse_from b s) = true.
Proof.
  induction s as [ | c t IH]; intros b; [reflexivity | ].
  cbn [collapse_from]. destruct (is_space c) eqn:E.
  - destruct b; [apply IH | ]. cbn [forallb]. rewrite IH. reflexivity.
  - cbn [forallb]. unfold space_only at 1. rewrite E, IH. reflexivity.
Qed.

Lemma In_skipn {A : Type} (x : A) (n : nat) :
  forall l, In x (skipn n l) -> In x l.
Proof.
  induction n as [ | n IH]; intros [ | a l]; cbn [skipn]; try tauto.
  intros H. right. apply IH, H.
Qed.

Lemma forallb_incl (P : ascii -> bool) (s t : str) :
  (forall c, In c s -> In c t) -> forallb P t = true -> forallb P s = true.
Proof.
  intros Hin H. apply forallb_forall. intros c Hc.
  rewrite forallb_forall in H. apply H, Hin, Hc.
Qed.

Lemma rstrip_head (p : ascii -> bool) (c : ascii) (t : str) :
  p c = false -> exists u, rstrip_by p (c :: t) = c :: u.
Proof.
  intros H. cbn [rstrip_by]. rewrite H.
  destruct (rstrip_by p t) as [ | x r]; eexists; reflexivity.
Qed.

Lemma strip_by_head (p : ascii -> bool) (s : str) :
  match strip_by p s with
  | [] => True
  | c :: _ => p c = false
  end.
Proof.
  unfold strip_by.
  assert (H : match drop_while p s with [] => True | c :: _ => p c = false end).
  { induction s as [ | a t IH]; [exact I | ]. cbn [drop_while].
    destruct (p a) eqn:E; [exact IH | exact E]. }
  destruct (drop_while p s) as [ | c t]; [exact I | ].
  destruct (rstrip_head p c t H) as [u ->]. exact H.
Qed.

Lemma strip_idem (s : str) : strip (strip s) = strip s.
Proof.
  unfold strip, strip_by.
  rewrite (drop_while_hd_ok (rstrip_by is_space (drop_while is_space s))).
  - apply rstrip_idem.
  - apply hd_ok_rstrip, hd_ok_drop_while.
Qed.

Lemma strip_nonspace_head (c : ascii) (t : str) :
  is_space c = false -> strip (c :: t) <> [].
Proof.
  intros H. unfold strip, strip_by. cbn [drop_while]. rewrite H.
  destruct (rstrip_head is_space c t H) as [u ->]. discriminate.
Qed.

Lemma drop_stopword_cases (stopwords : list str) (item_candidate : str) :
  drop_stopword stopwords item_candidate = item_candidate
  \/ exists rest, drop_stopword stopwords item_candidate = strip rest.
Proof.
  induction stopwords as [ | w others IH]; cbn [drop_stopword];
    [left; reflexivity | ].
  destruct (starts_with _ _); [right; eexists; reflexivity | exact IH].
Qed.

Lemma space_only_not_mem (c : ascii) :
  space_only c = true -> mem c (lit " ,.-:") = false -> is_space c = false.
Proof.
  unfold space_only. destruct (is_space c); [ | reflexivity].
  cbn [negb orb]. intros E. apply Ascii.eqb_eq in E. subst c. discriminate.
Qed.

(** The item label built from the text around the amount: non-empty
    when the candidate is. *)
Lemma item_nonempty (around : str) :
  forallb space_only around = true ->
  let item_candidate :=
    drop_stopword STOPWORDS (strip_chars (lit " ,.-:") around) in
  is_empty item_candidate = false ->
  capitalize (strip item_candidate) <> [].
Proof.
  intros Hs item_candidate Hne.
  assert (H : strip item_candidate <> []).
  { unfold item_candidate in *.
    destruct (drop_stopword_cases STOPWORDS (strip_chars (lit " ,.-:") around))
      as [E | [rest E]]; rewrite E in *.
    - pose proof (strip_by_head (fun c => mem c (lit " ,.-:")) around) as Hh.
      unfold strip_chars in *.
      destruct (strip_by _ around) as [ | c t] eqn:Es; [discriminate | ].
      apply strip_nonspace_head, space_only_not_mem; [ | exact Hh].
      rewrite forallb_forall in Hs. apply Hs.
      apply In_strip_by with (fun c => mem c (lit " ,.-:")).
      rewrite Es. left. reflexivity.
    - rewrite strip_idem. destruct (strip rest); [discriminate | discriminate]. }
  destruct (strip item_candidate); [congruence | discriminate].
Qed.

Lemma parsed_expense_facts (text : str) (e : ParsedExpense) :
  parse_expense_input text = Ok (Some e) ->
  0 < amount e /\ item e <> [] /\ category e <> [].
Proof.
  unfold parse_expense_input.
  set (clean0 := collapse_ws (strip text)).
  assert (H0 : forallb space_only clean0 = true)
    by apply space_only_collapse.
  destruct (is_empty clean0); [discriminate | ].
  set (pair := match search CATEGORY_OVERRIDE_RE clean0 with
               | Some category_match => _
               | None => _
               end).
  assert (Hp : forallb space_only (snd pair) = true
               /\ (fst pair = [] \/ fst pair <> [])).
  { unfold pair. destruct (search CATEGORY_OVERRIDE_RE clean0) as [cm | ];
      cbn [fst snd].
    - split; [ | right; apply normalize_category_nonempty].
      apply forallb_incl with clean0; [ | exact H0].
      intros c Hc. apply In_strip_by in Hc. eapply In_first, Hc.
    - split; [exact H0 | left; reflexivity]. }
  destruct pair as [cat clean]. cbn [fst snd] in Hp. destruct Hp as [Hc Hcat].
  destruct (search AMOUNT_TOKEN_RE clean) as [am | ]; [ | discriminate].
  intros H. bind_inv H.
  destruct (positive_or_none a) as [amt | ] eqn:Ea; [ | discriminate].
  apply positive_or_none_pos in Ea.
  set (around := firstn (m_start am) clean ++ skipn (m_end am) clean) in *.
  assert (Ha' : forallb space_only around = true).
  { apply forallb_incl with clean; [ | exact Hc].
    intros c Hin. unfold around in Hin. apply in_app_or in Hin.
    destruct Hin as [Hin | Hin]; [eapply In_first, Hin | eapply In_skipn, Hin]. }
  pose proof (item_nonempty around Ha') as Hitem. cbv zeta in Hitem.
  destruct (is_empty (drop_stopword STOPWORDS _)) eqn:Ei; [discriminate | ].
  injection H as <-. cbn [amount item category].
  split; [exact Ea | split; [apply Hitem; reflexivity | ]].
  destruct Hcat as [-> | Hcat].
  - cbn [is_empty]. apply infer_category_nonempty.
  - destruct cat; [congruence | discriminate].
Qed.

(** X7. Every expense returned by [parse_expense_input] has a positive
    amount, a non-empty item and a non-empty category. *)
Theorem parse_expense_input_invariants (text : str) (e : ParsedExpense) :
  parse_expense_input text = Ok (Some e) ->
  0 < amount e /\ item e <> [] /\ category e <> [].
Proof.
  intros H. destruct (parsed_expense_facts text e H) as [Ha [Hi Hc]].
  split; [exact Ha | split; [exact Hi | exact Hc]].
Qed.

Lemma parse_expense_input_invariants_witness :
  exists e,
    parse_expense_input (lit "bayar listrik 450000 kategori Tagihan")
    = Ok (Some e)
    /\ 0 < amount e /\ item e <> [] /\ category e <> [].
Proof.
  destruct (parse_expense_input (lit "bayar listrik 450000 kategori Tagihan"))
    as [[e | ] | x] eqn:E; try (vm_compute in E; discriminate).
  exists e. split; [reflexivity | ].
  exact (parse_expense_input_invariants _ e E).
Defined.

End ExpenseStatements.

(** ** The line normalizer *)

Section LineNormalizer.

Import Ocr.

Lemma drop_while_nil_iff (p : ascii -> bool) (s : str) :
  drop_while p s = [] <-> forallb p s = true.
Proof.
  induction s as [ | c t IH]; cbn [drop_while forallb]; [tauto | ].
  destruct (p c); cbn [andb]; [exact IH | ].
  split; discriminate.
Qed.

Lemma strip_by_nil_iff (p : ascii -> bool) (s : str) :
  strip_by p s = [] <-> forallb p s = true.
Proof.
  rewrite <- drop_while_nil_iff. unfold strip_by.
  pose proof (strip_by_head p s) as Hh. unfold strip_by in Hh.
  destruct (drop_while p s) as [ | c t] eqn:E; [tauto | ].
  assert (Hc : p c = false).
  { clear Hh. induction s as [ | a u IH]; [discriminate | ].
    cbn [drop_while] in E. destruct (p a) eqn:Ea; [apply IH, E | ].
    injection E as <- _. exact Ea. }
  destruct (rstrip_head p c t Hc) as [u ->]. split; discriminate.
Qed.

Lemma collapse_all_space (s : str) :
  forall b, forallb is_space (collapse_from b s) = true ->
            forallb is_space s = true.
Proof.
  induction s as [ | c t IH]; intros b H; [reflexivity | ].
  cbn [collapse_from] in H. cbn [forallb].
  destruct (is_space c) eqn:E.
  - destruct b; [apply (IH true), H | ].
    cbn [forallb] in H. apply andb_true_iff in H. apply (IH true), H.
  - cbn [forallb] in H. rewrite E in H. discriminate.
Qed.

(** A normalized line: not empty, without surrounding whitespace, and
    with single spaces as its only whitespace. *)
Definition normalized_line (l : str) : Prop :=
  l <> [] /\ strip l = l /\ collapse_ws l = l.

Lemma normalized_line_of (x : str) :
  is_empty (strip x) = false -> normalized_line (strip (collapse_ws x)).
Proof.
  intros H. repeat split.
  - intros E. apply strip_by_nil_iff in E.
    apply collapse_all_space in E. apply strip_by_nil_iff in E.
    unfold strip in H. rewrite E in H. discriminate.
  - apply strip_idem.
  - apply collapse_normal. unfold strip, strip_by.
    apply normal_rstrip. eapply normal_drop_while. apply normal_collapse.
Qed.

(** X8. The lines of [_normalize_lines] are normalized lines, and normalizing
    them again changes nothing. *)
Theorem normalize_lines_idempotent (input : ocr_input) :
  Forall normalized_line (_normalize_lines input)
  /\ _normalize_lines (Lines (_normalize_lines input))
     = _normalize_lines input.
Proof.
  assert (H : Forall normalized_line (_normalize_lines input)).
  { unfold _normalize_lines. apply Forall_forall. intros l Hl.
    apply in_map_iff in Hl. destruct Hl as [x [<- Hx]].
    apply filter_In in Hx. destruct Hx as [_ Hx].
    apply negb_true_iff in Hx. apply normalized_line_of, Hx. }
  split; [exact H | ].
  generalize dependent (_normalize_lines input). intros ls H.
  unfold _normalize_lines.
  induction H as [ | l ls [Hne [Hs Hc]] _ IH]; [reflexivity | ].
  cbn [filter]. rewrite Hs.
  destruct l as [ | c t]; [congruence | ]. cbn [is_empty negb map].
  rewrite Hc, Hs, IH. reflexivity.
Qed.

(** *** Blank input *)

Lemma splitlines_from_chars (s : str) :
  forall cur after line,
    In line (splitlines_from cur after s) ->
    forall c, In c line -> In c s \/ In c cur.
Proof.
  induction s as [ | a t IH]; intros cur after line Hl c Hc.
  - cbn [splitlines_from] in Hl. destruct (is_empty cur); [destruct Hl | ].
    destruct Hl as [<- | []]. right. apply in_rev, Hc.
  - cbn [splitlines_from] in Hl.
    destruct (after && Ascii.eqb a "010" && is_empty cur).
    + destruct (IH _ _ _ Hl c Hc) as [H | []]. left. right. exact H.
    + destruct (is_linebreak a).
      * destruct Hl as [<- | Hl]; [right; apply in_rev, Hc | ].
        destruct (IH _ _ _ Hl c Hc) as [H | []]. left. right. exact H.
      * destruct (IH _ _ _ Hl c Hc) as [H | [<- | H]].
        -- left. right. exact H.
        -- left. left. reflexivity.
        -- right. exact H.
Qed.

(** An input without a visible character. *)
Definition blank (input : ocr_input) : bool :=
  match input with
  | Text s => forallb is_space s
  | Lines l => forallb (forallb is_space) l
  end.

Lemma blank_no_lines (input : ocr_input) :
  blank input = true -> _normalize_lines input = [].
Proof.
  intros H. unfold _normalize_lines.
  set (raw := match input with Text s => splitlines s | Lines l => l end).
  assert (Hraw : forall line, In line raw -> forallb is_space line = true).
  { intros line Hl. destruct input as [s | l]; cbn [blank] in H.
    - apply forallb_forall. intros c Hc.
      destruct (splitlines_from_chars s [] false line Hl c Hc) as [Hin | []].
      rewrite forallb_forall in H. apply H, Hin.
    - rewrite forallb_forall in H. apply H, Hl. }
  clearbody raw. induction raw as [ | line rest IH]; [reflexivity | ].
  cbn [filter].
  assert (E : strip line = []).
  { apply strip_by_nil_iff, Hraw. left. reflexivity. }
  rewrite E. cbn [is_empty negb]. apply IH.
  intros l Hl. apply Hraw. right. exact Hl.
Qed.

(** X9. An input without a visible character is answered by the request for
    manual confirmation, with no receipt and an empty raw text. *)
Theorem blank_input_needs_confirmation (input : ocr_input) :
  blank input = true ->
  extract_receipt_data input
  = Ok (mkOCRResult [] None true
          (lit "Sepertinya struknya agak buram, boleh konfirmasi total belanjanya berapa, Kak?")).
Proof.
  intros H. unfold extract_receipt_data.
  rewrite (blank_no_lines input H). reflexivity.
Qed.

Definition blank_text : ocr_input :=
  Text [" "%char; "009"%char; "010"%char; "013"%char; "010"%char; " "%char].

Lemma blank_input_needs_confirmation_witness :
  blank blank_text = true
  /\ exists r, extract_receipt_data blank_text = Ok r
               /\ receipt r = None
               /\ needs_manual_total_confirmation r = true.
Proof.
  assert (H : blank blank_text = true) by (vm_compute; reflexivity).
  split; [exact H | ].
  eexists. split; [exact (blank_input_needs_confirmation blank_text H) | ].
  split; reflexivity.
Defined.

End LineNormalizer.

(** ** Ratios never overflow *)

Section Ratios.

Lemma digits2_pos_upper (p : positive) :
  Z.pos p < 2 ^ Z.pos (digits2_pos p).
Proof.
  induction p as [p IH | p IH | ]; cbn [digits2_pos];
    [ | | reflexivity];
    rewrite Pos2Z.inj_succ, Z.pow_succ_r by lia; lia.
Qed.

Lemma Zdigits2_upper (m : Z) : 0 <= m -> m < 2 ^ Zdigits2 m.
Proof.
  destruct m as [ | p | p]; cbn [Zdigits2]; intros H;
    [reflexivity | apply digits2_pos_upper | lia].
Qed.

Lemma digits2_pos_le (p : positive) :
  forall k, 0 <= k -> Z.pos p < 2 ^ k -> Z.pos (digits2_pos p) <= k.
Proof.
  induction p as [p IH | p IH | ]; cbn [digits2_pos]; intros k Hk H.
  - assert (0 < k) by (destruct (Z.eq_dec k 0) as [-> | ]; [cbn in H | ]; lia).
    replace k with (Z.succ (k - 1)) in H by lia.
    rewrite Z.pow_succ_r in H by lia.
    specialize (IH (k - 1)). lia.
  - assert (0 < k) by (destruct (Z.eq_dec k 0) as [-> | ]; [cbn in H | ]; lia).
    replace k with (Z.succ (k - 1)) in H by lia.
    rewrite Z.pow_succ_r in H by lia.
    specialize (IH (k - 1)). lia.
  - destruct (Z.eq_dec k 0) as [-> | ]; [cbn in H | ]; lia.
Qed.

Lemma Zdigits2_le (m k : Z) : 0 <= m < 2 ^ k -> 0 <= k -> Zdigits2 m <= k.
Proof.
  destruct m as [ | p | p]; cbn [Zdigits2]; intros H Hk;
    [lia | apply digits2_pos_le; lia | lia].
Qed.

Lemma shr_1_m (mrs : shr_record) :
  0 <= shr_m mrs -> shr_m (shr_1 mrs) = shr_m mrs / 2.
Proof.
  destruct mrs as [m r s]. cbn [shr_m]. intros H.
  destruct m as [ | [p | p | ] | p]; cbn [shr_1 shr_m]; try lia;
    first [ reflexivity
          | apply (Z.div_unique_pos _ _ _ 1); lia
          | apply (Z.div_unique_pos _ _ _ 0); lia ].
Qed.

Lemma iter_shr_1_m (p : positive) :
  forall mrs,
    0 <= shr_m mrs ->
    shr_m (iter_pos shr_1 p mrs) = shr_m mrs / 2 ^ Z.pos p.
Proof.
  induction p as [p IH | p IH | ]; intros mrs H; cbn [iter_pos].
  - assert (Hp : 0 < 2 ^ Z.pos p) by (apply Z.pow_pos_nonneg; lia).
    assert (H1 : 0 <= shr_m (shr_1 mrs))
      by (rewrite shr_1_m by exact H; apply Z.div_pos; lia).
    assert (H2 : 0 <= shr_m (iter_pos shr_1 p (shr_1 mrs)))
      by (rewrite IH by exact H1; apply Z.div_pos; lia).
    rewrite (IH _ H2), (IH _ H1), shr_1_m by exact H.
    rewrite !Z.div_div by lia.
    f_equal. rewrite (Pos2Z.inj_xI p).
    replace (2 * Z.pos p + 1) with (1 + Z.pos p + Z.pos p) by lia.
    rewrite !Z.pow_add_r by lia. lia.
  - assert (Hp : 0 < 2 ^ Z.pos p) by (apply Z.pow_pos_nonneg; lia).
    assert (H2 : 0 <= shr_m (iter_pos shr_1 p mrs))
      by (rewrite IH by exact H; apply Z.div_pos; lia).
    rewrite (IH _ H2), (IH _ H).
    rewrite !Z.div_div by lia.
    f_equal. rewrite (Pos2Z.inj_xO p).
    replace (2 * Z.pos p) with (Z.pos p + Z.pos p) by lia.
    rewrite !Z.pow_add_r by lia. lia.
  - rewrite shr_1_m by assumption. reflexivity.
Qed.

Lemma shr_record_of_loc_m (m : Z) (l : location) :
  shr_m (shr_record_of_loc m l) = m.
Proof. destruct l as [ | []]; reflexivity. Qed.

(** What [shr_fexp] keeps: a non-negative mantissa, and the bound [k] on
    the position of the leading bit, for [k] within the exponent range. *)
Lemma shr_fexp_bound (m e k : Z) (l : location) :
  0 <= m -> Zdigits2 m + e <= k -> e <= k -> - 1000 <= k <= 1000 ->
  let '(mrs, e') := shr_fexp prec emax m e l in
  0 <= shr_m mrs /\ Zdigits2 (shr_m mrs) + e' <= k /\ e' <= k.
Proof.
  intros Hm Hd He Hk. unfold shr_fexp, shr.
  assert (Hf : fexp prec emax (Zdigits2 m + e) <= k - 53 \/
               fexp prec emax (Zdigits2 m + e) = - 1074).
  { unfold fexp, SpecFloat.emin, prec, emax. lia. }
  destruct (fexp prec emax (Zdigits2 m + e) - e) as [ | n | n] eqn:En;
    rewrite ?shr_record_of_loc_m; try (split; [ | split]; assumption).
  rewrite iter_shr_1_m by (rewrite shr_record_of_loc_m; exact Hm).
  rewrite shr_record_of_loc_m.
  assert (H2 : 0 < 2 ^ Z.pos n) by (apply Z.pow_pos_nonneg; lia).
  assert (Hq : 0 <= m / 2 ^ Z.pos n) by (apply Z.div_pos; lia).
  split; [exact Hq | split; [ | lia]].
  assert (Hk' : 0 <= k - (e + Z.pos n)) by lia.
  cut (Zdigits2 (m / 2 ^ Z.pos n) <= k - (e + Z.pos n)); [lia | ].
  apply Zdigits2_le; [split; [exact Hq | ] | exact Hk'].
  apply Z.div_lt_upper_bound; [exact H2 | ].
  rewrite <- Z.pow_add_r by lia.
  replace (Z.pos n + (k - (e + Z.pos n))) with (k - e) by lia.
  apply Z.lt_le_trans with (2 ^ Zdigits2 m); [apply Zdigits2_upper, Hm | ].
  apply Z.pow_le_mono_r; lia.
Qed.

Lemma round_nearest_even_bound (m : Z) (l : location) :
  0 <= m ->
  0 <= round_nearest_even m l
  /\ Zdigits2 (round_nearest_even m l) <= Zdigits2 m + 1.
Proof.
  intros Hm.
  assert (Hd : 0 <= Zdigits2 m) by (destruct m; cbn; lia).
  assert (H1 : Zdigits2 (m + 1) <= Zdigits2 m + 1).
  { apply Zdigits2_le; [ | lia]. rewrite Z.pow_add_r, Z.pow_1_r by lia.
    pose proof (Zdigits2_upper m Hm). lia. }
  unfold round_nearest_even.
  destruct l as [ | []]; try destruct (Z.even m); lia.
Qed.

Lemma binary_round_aux_finite (neg : bool) (m e : Z) (l : location) :
  0 <= m -> Zdigits2 m + e <= 1 -> e <= 0 ->
  forall s, binary_round_aux prec emax neg m e l <> S754_infinity s.
Proof.
  intros Hm Hd He s. unfold binary_round_aux.
  pose proof (shr_fexp_bound m e 1 l Hm Hd ltac:(lia) ltac:(lia)) as H1.
  destruct (shr_fexp prec emax m e l) as [mrs1 e1].
  destruct H1 as [H1m [H1d H1e]].
  destruct (round_nearest_even_bound (shr_m mrs1) (loc_of_shr_record mrs1) H1m)
    as [Hrm Hrd].
  pose proof (shr_fexp_bound _ e1 2 loc_Exact Hrm ltac:(lia) ltac:(lia)
                ltac:(lia)) as H2.
  destruct (shr_fexp prec emax _ e1 loc_Exact) as [mrs2 e2].
  destruct H2 as [_ [_ H2e]].
  destruct (shr_m mrs2); try discriminate.
  destruct (e2 <=? emax - prec) eqn:E; [discriminate | ].
  apply Z.leb_gt in E. unfold emax, prec in E. lia.
Qed.

(** The quotient of two integers [0 <= a <= b], [0 < b], is a float: the
    division raises neither [ZeroDivisionError] nor [OverflowError]. *)
Lemma ratio_returns (a b : Z) :
  0 <= a <= b -> 0 < b -> exists f, int_truediv a b = Ok f.
Proof.
  intros Ha Hb. unfold int_truediv.
  destruct (b =? 0) eqn:E; [apply Z.eqb_eq in E; lia | ].
  destruct (a =? 0); [eexists; reflexivity | ].
  assert (Hfin : forall s,
             div_pos (xorb (a <? 0) (b <? 0)) (Z.abs a) (Z.abs b)
             <> S754_infinity s).
  { rewrite !Z.abs_eq by lia. unfold div_pos.
    destruct (SFdiv_core_binary prec emax a 0 b 0) as [[q e] l] eqn:C.
    unfold SFdiv_core_binary in C.
    set (e0 := Z.min (fexp prec emax (Zdigits2 a + 0 - (Zdigits2 b + 0)))
                 (0 - 0)) in C.
    assert (He0 : - 1074 <= e0 <= 0)
      by (unfold e0, fexp, SpecFloat.emin, prec, emax; lia).
    assert (Hm : (match 0 - 0 - e0 with
                  | 0 => a
                  | Z.pos _ => Z.shiftl a (0 - 0 - e0)
                  | Z.neg _ => 0
                  end) = a * 2 ^ (- e0)).
    { destruct (0 - 0 - e0) as [ | n | n] eqn:En.
      - replace (- e0) with 0 by lia. lia.
      - rewrite Z.shiftl_mul_pow2 by lia. f_equal. f_equal. lia.
      - lia. }
    rewrite Hm in C. clear Hm.
    assert (H2 : 0 < 2 ^ (- e0)) by (apply Z.pow_pos_nonneg; lia).
    pose proof (Z_div_mod (a * 2 ^ (- e0)) b ltac:(lia)) as Hdiv.
    destruct (Z.div_eucl (a * 2 ^ (- e0)) b) as [q' r].
    injection C as -> <- _. destruct Hdiv as [Hq Hr].
    assert (Hq0 : 0 <= q) by nia.
    assert (Hq1 : q <= 2 ^ (- e0)) by nia.
    apply binary_round_aux_finite; [exact Hq0 | | lia].
    cut (Zdigits2 q <= - e0 + 1); [lia | ].
    apply Zdigits2_le; [ | lia].
    rewrite Z.pow_add_r, Z.pow_1_r by lia. lia. }
  destruct (div_pos _ _ _) as [s | s | | s m e] eqn:D;
    try (eexists; reflexivity).
  exfalso. exact (Hfin s eq_refl).
Qed.

End Ratios.

(** ** What can raise in the receipt extraction *)

Section ExtractionReturns.

Import Ocr.

Lemma count_le (p q : ascii -> bool) (s : str) :
  (forall c, p c = true -> q c = true) -> 0 <= count p s <= count q s.
Proof.
  intros Hpq. unfold count. split; [lia | ]. apply inj_le.
  induction s as [ | c t IH]; [apply le_n | ]. cbn [filter].
  destruct (p c) eqn:Ep.
  - rewrite (Hpq c Ep). cbn [length]. apply le_n_S, IH.
  - destruct (q c); [cbn [length]; apply le_S, IH | exact IH].
Qed.

Lemma count_le_length (p : ascii -> bool) (s : str) :
  0 <= count p s <= Z.of_nat (length s).
Proof.
  unfold count. split; [lia | ]. apply inj_le.
  induction s as [ | c t IH]; [apply le_n | ]. cbn [filter].
  destruct (p c); cbn [length]; [apply le_n_S, IH | apply le_S, IH].
Qed.

Lemma alnum_not_space (c : ascii) :
  is_alnum c = true -> negb (is_space c) = true.
Proof.
  destruct c as [[] [] [] [] [] [] [] []]; vm_compute; congruence.
Qed.

Lemma weak_text_returns (lines : list str) :
  exists weak, weak_text lines = Ok weak.
Proof.
  unfold weak_text.
  set (joined := join (lit " ") lines).
  pose proof (count_le is_alnum (fun c => negb (is_space c)) joined
                alnum_not_space) as Hc.
  destruct (count (fun c => negb (is_space c)) joined =? 0) eqn:E.
  - eexists. reflexivity.
  - apply Z.eqb_neq in E.
    destruct (ratio_returns _ _ Hc ltac:(lia)) as [f ->].
    eexists. reflexivity.
Qed.

Lemma is_noisy_returns (lines : list str) (total : option Z)
    (used_fallback_total : bool) :
  exists noisy, _is_noisy lines total used_fallback_total = Ok noisy.
Proof.
  unfold _is_noisy. destruct lines as [ | l ls]; [eexists; reflexivity | ].
  destruct (weak_text_returns (l :: ls)) as [weak ->].
  eexists. reflexivity.
Qed.

Lemma recipient_of_returns (lines : list str) :
  exists r, recipient_of lines = Ok r.
Proof.
  induction lines as [ | line following IH]; cbn [recipient_of];
    [eexists; reflexivity | ].
  destruct (any_in RECIPIENT_LABELS (lower line)); [ | exact IH].
  set (candidate :=
         match search RECIPIENT_INLINE_RE line with
         | Some inline_match => strip (group line inline_match 1)
         | None => match following with
                   | next :: _ => strip next
                   | [] => []
                   end
         end).
  pose proof (count_le_length is_digit candidate) as Hc.
  destruct (ratio_returns (count is_digit candidate)
              (Z.max (Z.of_nat (length candidate)) 1)
              ltac:(lia) ltac:(lia)) as [f ->].
  cbn [bind]. destruct (_ && _ && _); [eexists; reflexivity | exact IH].
Qed.

Lemma pick_bank_merchant_returns (lines : list str) :
  exists name, _pick_bank_merchant lines = Ok name.
Proof.
  unfold _pick_bank_merchant.
  destruct (recipient_of_returns lines) as [r ->]. cbn [bind].
  destruct r; [eexists; reflexivity | ].
  destruct (bank_of _); eexists; reflexivity.
Qed.

Lemma extract_receipt_data_returns (input : ocr_input)
    (found : option Z * bool) :
  _extract_total (_normalize_lines input)
    (_detect_bank_transaction (_normalize_lines input)) = Ok found ->
  exists r, extract_receipt_data input = Ok r.
Proof.
  intros H. unfold extract_receipt_data. rewrite H. cbn [bind].
  destruct found as [total used_fallback].
  destruct (is_noisy_returns (_normalize_lines input) total used_fallback)
    as [noisy ->].
  cbn [bind]. destruct noisy; [eexists; reflexivity | ].
  destruct (_detect_bank_transaction _).
  - destruct (pick_bank_merchant_returns (_normalize_lines input))
      as [name ->].
    eexists. reflexivity.
  - eexists. reflexivity.
Qed.

(** X10. [extract_receipt_data] raises exactly when [_extract_total] raises,
    and then the same exception: the noise check and the choice of the
    merchant never raise. *)
Theorem extraction_raises_like_total (input : ocr_input) :
  match _extract_total (_normalize_lines input)
          (_detect_bank_transaction (_normalize_lines input)) with
  | Ok _ => exists r, extract_receipt_data input = Ok r
  | Raise e => extract_receipt_data input = Raise e
  end.
Proof.
  destruct (_extract_total _ _) as [found | e] eqn:E.
  - exact (extract_receipt_data_returns input found E).
  - unfold extract_receipt_data. rewrite E. reflexivity.
Qed.

End ExtractionReturns.

(** ** Receipts that are accepted *)

Section AcceptedReceipts.

Import Ocr.

Lemma keyword_amounts_nil (bank : bool) : keyword_amounts [] bank = Ok [].
Proof. reflexivity. Qed.

Lemma keyword_total_result (input : ocr_input) (ka : list Z)
    (r : OCRResult) :
  keyword_amounts (_normalize_lines input)
    (_detect_bank_transaction (_normalize_lines input)) = Ok ka ->
  ka <> [] ->
  1000 <= nth (Nat.div (length ka) 2) (sorted ka) 0 ->
  extract_receipt_data input = Ok r ->
  needs_manual_total_confirmation r = false
  /\ exists rc,
       receipt r = Some rc
       /\ total rc = nth (Nat.div (length ka) 2) (sorted ka) 0
       /\ used_fallback_total rc = false.
Proof.
  intros Hka Hne Hge H. unfold extract_receipt_data in H.
  rewrite (extract_total_keyword _ _ _ Hka Hne) in H. cbn [bind] in H.
  set (t := nth (Nat.div (length ka) 2) (sorted ka) 0) in *.
  unfold _is_noisy in H.
  destruct (_normalize_lines input) as [ | l ls] eqn:El.
  - rewrite keyword_amounts_nil in Hka. injection Hka as <-. congruence.
  - bind_inv H.
    assert (E : (t <? 1000) = false) by (apply Z.ltb_ge; exact Hge).
    bind_inv Ha. rewrite E in Ha. cbn [andb orb] in Ha. injection Ha as <-.
    bind_inv H. injection H as <-.
    cbn [needs_manual_total_confirmation receipt].
    split; [reflexivity | ]. eexists. split; [reflexivity | ].
    cbn [total used_fallback_total truthy Parser.or_zero].
    split; [ | reflexivity].
    destruct (t =? 0) eqn:E0; [apply Z.eqb_eq in E0; lia | reflexivity].
Qed.

(** X11. A keyword-anchored total of 1000 or more is always accepted: the
    extraction returns a receipt that carries it, marked as not a
    fallback and without a request for manual confirmation, however
    short or garbled the text is. *)
Theorem keyword_total_is_accepted (input : ocr_input) (ka : list Z) :
  keyword_amounts (_normalize_lines input)
    (_detect_bank_transaction (_normalize_lines input)) = Ok ka ->
  ka <> [] ->
  1000 <= nth (Nat.div (length ka) 2) (sorted ka) 0 ->
  exists r rc,
    extract_receipt_data input = Ok r
    /\ needs_manual_total_confirmation r = false
    /\ receipt r = Some rc
    /\ total rc = nth (Nat.div (length ka) 2) (sorted ka) 0
    /\ used_fallback_total rc = false.
Proof.
  intros Hka Hne Hge.
  destruct (extract_receipt_data_returns input _
              (extract_total_keyword _ _ _ Hka Hne)) as [r Hr].
  destruct (keyword_total_result input ka r Hka Hne Hge Hr)
    as [Hm [rc [Hrc [Ht Hu]]]].
  exists r, rc. repeat split; assumption.
Qed.

Lemma keyword_total_is_accepted_witness :
  exists r rc,
    extract_receipt_data short_garbled_keyword_line = Ok r
    /\ needs_manual_total_confirmation r = false
    /\ receipt r = Some rc
    /\ total rc = 50000.
Proof.
  assert (Hka : keyword_amounts (_normalize_lines short_garbled_keyword_line)
                  (_detect_bank_transaction
                     (_normalize_lines short_garbled_keyword_line))
                = Ok [50000]) by (vm_compute; reflexivity).
  destruct (keyword_total_is_accepted short_garbled_keyword_line [50000]
              Hka ltac:(discriminate) ltac:(vm_compute; discriminate))
    as [r [rc [Hr [Hm [Hrc [Ht _]]]]]].
  exists r, rc. repeat split; assumption.
Defined.

(** *** The fallback total *)

Lemma fold_max_ge (t : list Z) :
  forall x, x <= fold_left Z.max t x
            /\ Forall (fun v => v <= fold_left Z.max t x) t.
Proof.
  induction t as [ | a t IH]; intros x; cbn [fold_left].
  - split; [lia | constructor].
  - destruct (IH (Z.max x a)) as [H1 H2]. split; [lia | ].
    constructor; [lia | exact H2].
Qed.

(** X12. When [_extract_total] reports a fallback total, no keyword-anchored
    amount was found, and the total is the largest of the amounts of
    1000 or more found on the lines without an exclusion hint. *)
Theorem fallback_total_is_maximum (lines : list str) (bank : bool)
    (tot : option Z) :
  _extract_total lines bank = Ok (tot, true) ->
  keyword_amounts lines bank = Ok []
  /\ exists t al,
       tot = Some t
       /\ all_amounts lines = Ok al
       /\ In t al
       /\ Forall (fun v => v <= t) al
       /\ 1000 <= t <= 2000000000.
Proof.
  unfold _extract_total. intros H. bind_inv H.
  destruct a as [ | x ka]; [ | discriminate].
  split; [exact Ha | ]. bind_inv H.
  destruct a as [ | y al]; [discriminate | ]. injection H as <-.
  exists (list_max (y :: al)), (y :: al).
  assert (Hin : In (list_max (y :: al)) (y :: al))
    by (apply list_max_In; discriminate).
  split; [reflexivity | split; [exact Ha0 | split; [exact Hin | split]]].
  - destruct (fold_max_ge al y) as [H1 H2]. constructor; assumption.
  - apply all_amounts_bounds in Ha0. rewrite Forall_forall in Ha0.
    apply (Ha0 _ Hin).
Qed.

Definition two_bare_amounts : list str :=
  map lit ["Kopi 12.000"; "Roti 8.500"].

Lemma fallback_total_is_maximum_witness :
  _extract_total two_bare_amounts false = Ok (Some 12000, true)
  /\ keyword_amounts two_bare_amounts false = Ok [].
Proof.
  assert (H : _extract_total two_bare_amounts false = Ok (Some 12000, true))
    by (vm_compute; reflexivity).
  split; [exact H | ].
  exact (proj1 (fallback_total_is_maximum _ _ _ H)).
Defined.

(** *** The merchant of a retail receipt *)

Definition DEFAULT_MERCHANT : str := lit "Merchant tidak diketahui".

Lemma merchant_fold (Q : str -> Prop) (lines : list str) :
  (forall line,
     In line lines ->
     3 <= count is_alpha line ->
     any_in MERCHANT_SKIP_HINTS (lower line) = false ->
     Q (title line)) ->
  forall state, Q (fst state) -> Q (fst (fold_left merchant_step lines state)).
Proof.
  induction lines as [ | line rest IH]; intros HQ state Hs; [exact Hs | ].
  cbn [fold_left]. apply IH.
  - intros l Hl. apply HQ. right. exact Hl.
  - unfold merchant_step. destruct state as [merchant best].
    destruct (any_in MERCHANT_SKIP_HINTS (lower line)) eqn:Eh; [exact Hs | ].
    destruct (_ && (3 <=? count is_alpha line)) eqn:Ec; [ | exact Hs].
    apply andb_true_iff in Ec. destruct Ec as [_ Ec]. apply Z.leb_le in Ec.
    cbn [fst]. apply HQ; [left; reflexivity | exact Ec | exact Eh].
Qed.

(** X13. The merchant picked for a retail receipt is the default name or the
    title-cased text of one of the first three lines, a line with at
    least three letters and without a structural hint. *)
Theorem pick_merchant_source (lines : list str) :
  _pick_merchant lines = DEFAULT_MERCHANT
  \/ exists line,
       In line (firstn 3 lines)
       /\ _pick_merchant lines = title line
       /\ 3 <= count is_alpha line
       /\ any_in MERCHANT_SKIP_HINTS (lower line) = false.
Proof.
  unfold _pick_merchant.
  apply (merchant_fold
           (fun m => m = DEFAULT_MERCHANT
                     \/ exists line,
                          In line (firstn 3 lines) /\ m = title line
                          /\ 3 <= count is_alpha line
                          /\ any_in MERCHANT_SKIP_HINTS (lower line) = false)).
  - intros line Hl H3 Hh. right. exists line. tauto.
  - left. reflexivity.
Qed.

(** *** The category of a receipt *)

Definition RECEIPT_CATEGORIES : list str :=
  map snd MERCHANT_CATEGORY_OVERRIDES
  ++ map fst Parser.CATEGORY_KEYWORDS
  ++ [lit "Belanja Lainnya"].

Lemma pick_category_In (merchant : str) (lines : list str) :
  In (_pick_category merchant lines) RECEIPT_CATEGORIES.
Proof.
  unfold _pick_category, RECEIPT_CATEGORIES.
  destruct (List.find _ MERCHANT_CATEGORY_OVERRIDES) as [[key cat] | ] eqn:E.
  - apply find_some in E. destruct E as [E _].
    apply in_or_app. left. apply in_map_iff. exists (key, cat).
    split; [reflexivity | exact E].
  - apply in_or_app. right.
    set (c := Parser.infer_category _).
    destruct (str_eqb c (lit "Lainnya")) eqn:Ec; cbn [negb].
    + apply in_or_app. right. left. reflexivity.
    + pose proof (infer_category_In
                    (merchant ++ lit " " ++ join (lit " ") lines)) as H.
      fold c in H. unfold TAXONOMY in H. apply in_app_or in H.
      destruct H as [H | [H | []]].
      * apply in_or_app. left. exact H.
      * rewrite <- H in Ec. vm_compute in Ec. discriminate.
Qed.

(** X14. The category of a returned receipt is "Transfer/Bank" exactly for a
    bank transaction; otherwise it is one of the merchant overrides, one
    of the keyword categories or "Belanja Lainnya", and so never empty
    and never the free-text default "Lainnya". *)
Theorem receipt_category (input : ocr_input) (r : OCRResult)
    (rc : ReceiptExtraction) :
  extract_receipt_data input = Ok r ->
  receipt r = Some rc ->
  (is_bank_transaction rc = true <-> category rc = lit "Transfer/Bank")
  /\ (is_bank_transaction rc = false -> In (category rc) RECEIPT_CATEGORIES)
  /\ category rc <> []
  /\ category rc <> lit "Lainnya".
Proof.
  intros H Hr. unfold extract_receipt_data in H.
  bind_inv H. destruct a as [tot fb]. bind_inv H.
  destruct a; [injection H as <-; discriminate Hr | ].
  bind_inv H. injection H as <-. cbn [receipt] in Hr. injection Hr as <-.
  cbn [is_bank_transaction category].
  set (bank := _detect_bank_transaction _) in *.
  pose proof (pick_category_In a (_normalize_lines input)) as Hin.
  assert (Hall : forall c, In c RECEIPT_CATEGORIES ->
                   c <> lit "Transfer/Bank" /\ c <> [] /\ c <> lit "Lainnya").
  { intros c Hc. vm_compute in Hc.
    repeat (destruct Hc as [<- | Hc];
            [repeat split; discriminate | ]).
    destruct Hc. }
  destruct bank.
  - split; [split; intros _; reflexivity | ].
    split; [discriminate | split; discriminate].
  - destruct (Hall _ Hin) as [H1 [H2 H3]].
    split; [split; [discriminate | intros E; congruence] | ].
    split; [intros _; exact Hin | split; assumption].
Qed.

Lemma receipt_category_witness :
  exists rc,
    receipt retail_result = Some rc
    /\ is_bank_transaction rc = false
    /\ In (category rc) RECEIPT_CATEGORIES
    /\ category rc <> lit "Lainnya".
Proof.
  destruct (receipt retail_result) as [rc | ] eqn:E;
    [ | vm_compute in E; discriminate].
  exists rc. split; [reflexivity | ].
  destruct (receipt_category _ _ rc retail_receipt_extracted E)
    as [_ [H2 [_ H4]]].
  assert (Hb : is_bank_transaction rc = false).
  { vm_compute in E. injection E as <-. reflexivity. }
  split; [exact Hb | split; [exact (H2 Hb) | exact H4]].
Defined.

End AcceptedReceipts.

(** ** What a match requires *)

Section MatchNeeds.

(** A kind of character a pattern cannot match without. *)
Variable Q : ascii -> bool.

Fixpoint needs (r : regex) : Prop :=
  match r with
  | Chr f => forall c, f c = true -> Q c = true
  | Seq a b => needs a \/ needs b
  | Alt a b => needs a /\ needs b
  | Group _ a => needs a
  | Eps | Star _ | WordB | EndS | NegLook _ => False
  end.

Fixpoint needsb (r : regex) : bool :=
  match r with
  | Chr f => forallb (fun c => implb (f c) (Q c)) all_ascii
  | Seq a b => needsb a || needsb b
  | Alt a b => needsb a && needsb b
  | Group _ a => needsb a
  | Eps | Star _ | WordB | EndS | NegLook _ => false
  end.

Lemma needsb_needs (r : regex) : needsb r = true -> needs r.
Proof.
  induction r; cbn [needsb needs]; intros H; try discriminate.
  - intros c Hc. rewrite forallb_forall in H.
    specialize (H c (all_ascii_In c)). rewrite Hc in H. exact H.
  - apply orb_true_iff in H. tauto.
  - apply andb_true_iff in H. tauto.
  - auto.
Qed.

Lemma chars_ok_any (r : regex) : chars_ok (fun _ => true) r.
Proof.
  induction r; cbn [chars_ok]; auto.
Qed.

Lemma matches_needs (r : regex) :
  needs r ->
  forall p cs k res,
    matches r p cs k = Some res -> existsb Q (rest p) = true.
Proof.
  induction r as [ | f | a IHa b IHb | a IHa b IHb | a IHa | n a IHa | |
                   | a IHa]; cbn [needs]; intros Hn p cs k res H;
    try contradiction.
  - cbn [matches] in H. destruct (rest p) as [ | c t]; [discriminate | ].
    destruct (f c) eqn:Ef; [ | discriminate].
    cbn [existsb]. rewrite (Hn c Ef). reflexivity.
  - cbn [matches] in H. destruct Hn as [Hn | Hn].
    + eapply IHa; eassumption.
    + destruct (matches_sound _ a (chars_ok_any a) _ _ _ _ H)
        as [p' [cs' [[u [Hu _]] K]]].
      rewrite Hu, existsb_app. rewrite (IHb Hn _ _ _ _ K).
      apply orb_true_r.
  - cbn [matches] in H. destruct Hn as [Ha Hb].
    destruct (matches a p cs k) as [x | ] eqn:E.
    + eapply IHa; eassumption.
    + eapply IHb; eassumption.
  - cbn [matches] in H. eapply IHa; eassumption.
Qed.

Lemma search_from_needs (r : regex) :
  needs r ->
  forall s i b m, search_from r i b s = Some m -> existsb Q s = true.
Proof.
  intros Hn. induction s as [ | c t IH]; intros i b m H;
    cbn [search_from] in H.
  - destruct (matches r _ [] accept) as [x | ] eqn:E; [ | discriminate].
    apply (matches_needs r Hn _ _ _ _ E).
  - destruct (matches r _ [] accept) as [x | ] eqn:E.
    + apply (matches_needs r Hn _ _ _ _ E).
    + cbn [existsb]. rewrite (IH _ _ _ H). apply orb_true_r.
Qed.

(** Without such a character in the subject, [search] finds nothing and
    [finditer] yields nothing. *)
Lemma search_none (r : regex) (s : str) :
  needs r -> existsb Q s = false -> search r s = None.
Proof.
  intros Hn Hs. destruct (search r s) as [m | ] eqn:E; [ | reflexivity].
  apply (search_from_needs r Hn) in E. congruence.
Qed.

Lemma finditer_from_none (r : regex) :
  needs r ->
  forall s skip i b, existsb Q s = false -> finditer_from r skip i b s = [].
Proof.
  intros Hn. induction s as [ | c t IH]; intros skip i b Hs.
  - destruct skip; cbn [finditer_from]; [ | reflexivity].
    destruct (matches r _ [] accept) as [x | ] eqn:E; [ | reflexivity].
    apply (matches_needs r Hn) in E. discriminate.
  - cbn [existsb] in Hs. apply orb_false_iff in Hs. destruct Hs as [Hc Ht].
    destruct skip; cbn [finditer_from]; [ | apply IH, Ht].
    destruct (matches r _ [] accept) as [[e x] | ] eqn:E; [ | apply IH, Ht].
    apply (matches_needs r Hn) in E. cbn [rest existsb] in E.
    rewrite Hc, Ht in E. discriminate.
Qed.

Lemma finditer_none (r : regex) (s : str) :
  needs r -> existsb Q s = false -> finditer r s = [].
Proof. intros Hn Hs. apply finditer_from_none; assumption. Qed.

End MatchNeeds.

(** ** Text without a digit *)

Section DigitFree.

Import Parser Ocr.

Definition digit_free (s : str) : bool := negb (existsb is_digit s).

Lemma digit_free_spec (s : str) :
  digit_free s = true <-> forall c, In c s -> is_digit c = false.
Proof.
  unfold digit_free. rewrite negb_true_iff. split.
  - intros H c Hc. destruct (is_digit c) eqn:E; [ | reflexivity].
    assert (existsb is_digit s = true)
      by (apply existsb_exists; exists c; tauto).
    congruence.
  - intros H. destruct (existsb is_digit s) eqn:E; [ | reflexivity].
    apply existsb_exists in E. destruct E as [c [Hc Hd]].
    rewrite (H c Hc) in Hd. discriminate.
Qed.

Lemma digit_free_none (s : str) :
  digit_free s = true -> existsb is_digit s = false.
Proof. unfold digit_free. apply negb_true_iff. Qed.

Lemma digit_free_incl (s t : str) :
  (forall c, In c s -> In c t \/ is_digit c = false) ->
  digit_free t = true -> digit_free s = true.
Proof.
  rewrite !digit_free_spec. intros Hin H c Hc.
  destruct (Hin c Hc) as [Ht | Hd]; [apply H, Ht | exact Hd].
Qed.

Lemma digit_free_lower (s : str) :
  digit_free s = true -> digit_free (lower s) = true.
Proof.
  rewrite !digit_free_spec. intros H c Hc. unfold lower in Hc.
  apply in_map_iff in Hc. destruct Hc as [x [<- Hx]].
  rewrite is_digit_lower_c. apply H, Hx.
Qed.

Lemma collapse_from_In (c : ascii) (s : str) :
  forall b, In c (collapse_from b s) -> In c s \/ c = " "%char.
Proof.
  induction s as [ | a t IH]; intros b H; [destruct H | ].
  cbn [collapse_from] in H. destruct (is_space a).
  - destruct b.
    + destruct (IH _ H); [left; right; assumption | right; assumption].
    + destruct H as [<- | H]; [right; reflexivity | ].
      destruct (IH _ H); [left; right; assumption | right; assumption].
  - destruct H as [<- | H]; [left; left; reflexivity | ].
    destruct (IH _ H); [left; right; assumption | right; assumption].
Qed.

Lemma digit_free_collapse (s : str) :
  digit_free s = true -> digit_free (collapse_ws s) = true.
Proof.
  apply digit_free_incl. intros c Hc.
  destruct (collapse_from_In c s false Hc) as [H | ->];
    [left; exact H | right; reflexivity].
Qed.

Lemma digit_free_strip (s : str) :
  digit_free s = true -> digit_free (strip s) = true.
Proof.
  apply digit_free_incl. intros c Hc. left. eapply In_strip_by, Hc.
Qed.

Lemma digit_free_firstn (n : nat) (s : str) :
  digit_free s = true -> digit_free (firstn n s) = true.
Proof.
  apply digit_free_incl. intros c Hc. left. eapply In_first, Hc.
Qed.

Lemma digit_free_skipn (n : nat) (s : str) :
  digit_free s = true -> digit_free (skipn n s) = true.
Proof.
  apply digit_free_incl. intros c Hc. left. eapply In_skipn, Hc.
Qed.

(** The patterns that look for an amount or a head count need a digit. *)
Lemma patterns_need_digit :
  needs is_digit AMOUNT_TOKEN_RE
  /\ needs is_digit PEOPLE_RE
  /\ needs is_digit PEOPLE_FALLBACK_RE
  /\ needs is_digit MONEY_TOKEN_RE.
Proof.
  repeat split; apply needsb_needs; vm_compute; reflexivity.
Qed.

(** X15. A text without a digit is no expense statement, no split bill and
    holds no amount: the three parsers answer [None], without raising. *)
Theorem digit_free_text_is_rejected (text : str) :
  digit_free text = true ->
  parse_amount_from_text text = Ok None
  /\ parse_expense_input text = Ok None
  /\ parse_split_bill text = Ok None.
Proof.
  intros H. destruct patterns_need_digit as [Na [Np [Nf _]]].
  split; [ | split].
  - unfold parse_amount_from_text.
    rewrite (search_none is_digit _ text Na (digit_free_none _ H)).
    reflexivity.
  - unfold parse_expense_input.
    set (clean0 := collapse_ws (strip text)).
    assert (H0 : digit_free clean0 = true)
      by (apply digit_free_collapse, digit_free_strip, H).
    destruct (is_empty clean0); [reflexivity | ].
    set (pair := match search CATEGORY_OVERRIDE_RE clean0 with
                 | Some category_match => _
                 | None => _
                 end).
    assert (Hp : digit_free (snd pair) = true).
    { unfold pair. destruct (search CATEGORY_OVERRIDE_RE clean0);
        cbn [snd]; [ | exact H0].
      apply digit_free_strip, digit_free_firstn, H0. }
    destruct pair as [cat clean]. cbn [snd] in Hp.
    rewrite (search_none is_digit _ clean Na (digit_free_none _ Hp)).
    reflexivity.
  - unfold parse_split_bill.
    destruct (negb _ && negb _); [reflexivity | ].
    pose proof (digit_free_none _ (digit_free_lower _ H)) as Hl.
    rewrite (search_none is_digit _ _ Np Hl).
    rewrite (search_none is_digit _ _ Nf Hl). reflexivity.
Qed.

Lemma digit_free_text_is_rejected_witness :
  digit_free (lit "patungan makan siang untuk kita") = true
  /\ parse_split_bill (lit "patungan makan siang untuk kita") = Ok None
  /\ parse_expense_input (lit "patungan makan siang untuk kita") = Ok None.
Proof.
  assert (H : digit_free (lit "patungan makan siang untuk kita") = true)
    by (vm_compute; reflexivity).
  destruct (digit_free_text_is_rejected _ H) as [_ [H2 H3]].
  split; [exact H | split; assumption].
Defined.

(** *** Receipts *)

Lemma extract_amounts_digit_free (s : str) :
  digit_free s = true -> _extract_amounts s = Ok [].
Proof.
  intros H. unfold _extract_amounts.
  destruct patterns_need_digit as [_ [_ [_ Nm]]].
  rewrite (finditer_none is_digit _ s Nm (digit_free_none _ H)).
  reflexivity.
Qed.

Lemma inline_amounts_digit_free (keywords : list str) (line low : str) :
  digit_free line = true -> inline_amounts keywords line low = Ok [].
Proof.
  intros H. induction keywords as [ | keyword others IH];
    cbn [inline_amounts]; [reflexivity | ].
  destruct (contains keyword low); [ | exact IH].
  rewrite extract_amounts_digit_free.
  - rewrite IH. reflexivity.
  - destruct (search CUT_LABELS_RE _).
    + apply digit_free_firstn, digit_free_skipn, H.
    + apply digit_free_skipn, H.
Qed.

Lemma keyword_amounts_of_digit_free (keywords : list str) (lines : list str) :
  forallb digit_free lines = true ->
  keyword_amounts_of keywords lines = Ok [].
Proof.
  induction lines as [ | line following IH]; intros H; [reflexivity | ].
  cbn [forallb] in H. apply andb_true_iff in H. destruct H as [Hl Hf].
  cbn [keyword_amounts_of]. rewrite (IH Hf).
  destruct (_ || _); [reflexivity | ].
  destruct (negb (any_in keywords (lower line))); [reflexivity | ].
  rewrite (inline_amounts_digit_free _ _ _ Hl). cbn [bind].
  destruct following as [ | next_line more]; [reflexivity | ].
  destruct (negb (any_in IGNORE_TOTAL_HINTS (lower next_line)));
    [ | reflexivity].
  cbn [forallb] in Hf. apply andb_true_iff in Hf. destruct Hf as [Hn _].
  rewrite (extract_amounts_digit_free _ Hn). reflexivity.
Qed.

Lemma all_amounts_digit_free (lines : list str) :
  forallb digit_free lines = true -> all_amounts lines = Ok [].
Proof.
  induction lines as [ | line others IH]; intros H; [reflexivity | ].
  cbn [forallb] in H. apply andb_true_iff in H. destruct H as [Hl Hf].
  cbn [all_amounts]. rewrite (IH Hf).
  destruct (any_in IGNORE_TOTAL_HINTS (lower line)); [reflexivity | ].
  rewrite (extract_amounts_digit_free _ Hl). reflexivity.
Qed.

(** An input without a digit. *)
Definition digit_free_input (input : ocr_input) : bool :=
  match input with
  | Text s => digit_free s
  | Lines l => forallb digit_free l
  end.

Lemma normalize_lines_digit_free (input : ocr_input) :
  digit_free_input input = true ->
  forallb digit_free (_normalize_lines input) = true.
Proof.
  intros H. unfold _normalize_lines.
  set (raw := match input with Text s => splitlines s | Lines l => l end).
  assert (Hraw : forall line, In line raw -> digit_free line = true).
  { intros line Hl. destruct input as [s | l]; cbn [digit_free_input] in H.
    - revert H. apply digit_free_incl. intros c Hc.
      destruct (splitlines_from_chars s [] false line Hl c Hc) as [Hin | []].
      left. exact Hin.
    - rewrite forallb_forall in H. apply H, Hl. }
  apply forallb_forall. intros l Hl. apply in_map_iff in Hl.
  destruct Hl as [x [<- Hx]]. apply filter_In in Hx.
  apply digit_free_strip, digit_free_collapse, Hraw, Hx.
Qed.

(** X16. An input without a digit never yields a receipt: the extraction
    returns the request for manual confirmation, without raising. *)
Theorem digit_free_input_needs_confirmation (input : ocr_input) :
  digit_free_input input = true ->
  extract_receipt_data input
  = Ok (mkOCRResult (join nl (_normalize_lines input)) None true
          (lit "Sepertinya struknya agak buram, boleh konfirmasi total belanjanya berapa, Kak?")).
Proof.
  intros Hd. pose proof (normalize_lines_digit_free input Hd) as Hl.
  unfold extract_receipt_data, _extract_total, keyword_amounts.
  rewrite (keyword_amounts_of_digit_free _ _ Hl). cbn [bind].
  rewrite (all_amounts_digit_free _ Hl). cbn [bind].
  unfold _is_noisy. destruct (_normalize_lines input) as [ | l ls];
    [reflexivity | ].
  destruct (weak_text_returns (l :: ls)) as [weak ->]. reflexivity.
Qed.

Definition thanks_lines : ocr_input :=
  Lines (map lit ["TOKO MAJU JAYA"; "Total belanja"; "Terima kasih"]).

Lemma digit_free_input_needs_confirmation_witness :
  digit_free_input thanks_lines = true
  /\ exists r, extract_receipt_data thanks_lines = Ok r
               /\ receipt r = None
               /\ needs_manual_total_confirmation r = true.
Proof.
  assert (Hd : digit_free_input thanks_lines = true)
    by (vm_compute; reflexivity).
  split; [exact Hd | ].
  eexists. split; [exact (digit_free_input_needs_confirmation _ Hd) | ].
  split; reflexivity.
Defined.

End DigitFree.

(** ** Receipt text *)

Section ReceiptTextFacts.

Import Parser ReceiptText.

Lemma title_nonempty (s : str) : s <> [] -> title s <> [].
Proof. destruct s; [congruence | discriminate]. Qed.

Lemma merchant_of_nonempty (lines : list str) (m : str) :
  merchant_of lines = Some m -> m <> [].
Proof.
  induction lines as [ | line others IH]; cbn [merchant_of];
    [discriminate | ].
  destruct (existsb _ RECEIPT_SKIP_TOKENS); [exact IH | ].
  destruct (search THREE_LETTERS_RE line) as [f | ] eqn:E; [ | exact IH].
  intros H. injection H as <-. apply title_nonempty.
  assert (Hn : needs is_alpha THREE_LETTERS_RE)
    by (apply needsb_needs; vm_compute; reflexivity).
  apply (search_from_needs is_alpha _ Hn) in E.
  destruct line; [discriminate | discriminate].
Qed.

Lemma keyword_total_pos (patterns : list regex) (raw_text : str) (v : Z) :
  keyword_total patterns raw_text = Ok (Some v) -> 0 < v.
Proof.
  induction patterns as [ | pattern others IH]; cbn [keyword_total];
    [discriminate | ].
  destruct (search pattern raw_text) as [m | ]; [ | exact IH].
  intros H. bind_inv H.
  destruct (positive_or_none a) as [x | ] eqn:E; [ | apply IH, H].
  injection H as <-. apply positive_or_none_pos in E. exact E.
Qed.

Lemma positive_amounts_pos (tokens : list str) :
  forall l, positive_amounts tokens = Ok l -> Forall (fun v => 0 < v) l.
Proof.
  induction tokens as [ | token others IH]; cbn [positive_amounts];
    intros l H.
  - injection H as <-. constructor.
  - bind_inv H. bind_inv H. injection H as <-.
    destruct (positive_or_none a) as [x | ] eqn:E; [ | apply IH, Ha0].
    constructor; [apply positive_or_none_pos in E; exact E | apply IH, Ha0].
Qed.

Lemma keyword_total_digit_free (patterns : list regex) (raw_text : str) :
  Forall (needs is_digit) patterns -> digit_free raw_text = true ->
  keyword_total patterns raw_text = Ok None.
Proof.
  intros Hp Hd. induction Hp as [ | pattern others Hn _ IH];
    cbn [keyword_total]; [reflexivity | ].
  rewrite (search_none is_digit _ _ Hn (digit_free_none _ Hd)). exact IH.
Qed.

(** X17. A receipt read by [parse_receipt_text] has a positive total, a
    non-empty merchant and the category the keyword table gives for the
    merchant. *)
Theorem parse_receipt_text_invariants (raw_text : str) (info : ReceiptInfo) :
  parse_receipt_text raw_text = Ok (Some info) ->
  0 < total info
  /\ merchant info <> []
  /\ category info = infer_category (merchant info)
  /\ In (category info) TAXONOMY.
Proof.
  unfold parse_receipt_text.
  destruct (map strip _) as [ | l ls]; [discriminate | ].
  set (m := match merchant_of _ with Some m => m | None => _ end).
  assert (Hm : m <> []).
  { unfold m. destruct (merchant_of _) as [x | ] eqn:E;
      [eapply merchant_of_nonempty, E | discriminate]. }
  intros H. bind_inv H. bind_inv H.
  assert (Ht : forall t, a0 = Some t -> 0 < t).
  { intros t ->. destruct a as [x | ].
    - injection Ha0 as <-. eapply keyword_total_pos, Ha.
    - bind_inv Ha0. destruct a as [ | y al]; [discriminate | ].
      injection Ha0 as <-.
      apply positive_amounts_pos in Ha1. rewrite Forall_forall in Ha1.
      exact (Ha1 _ (list_max_In (y :: al) ltac:(discriminate))). }
  destruct a0 as [t | ]; [ | discriminate].
  destruct (truthy (Some t)); [ | discriminate].
  injection H as <-. cbn [total merchant category or_zero].
  split; [apply Ht; reflexivity | split; [exact Hm | split]].
  - reflexivity.
  - apply infer_category_In.
Qed.

Definition two_item_receipt : str :=
  lit "Alfamart" ++ Ocr.nl ++ lit "Roti 8.500" ++ Ocr.nl ++ lit "Susu 12rb".

Lemma parse_receipt_text_invariants_witness :
  exists info,
    parse_receipt_text two_item_receipt = Ok (Some info)
    /\ 0 < total info /\ merchant info <> [].
Proof.
  destruct (parse_receipt_text two_item_receipt) as [[info | ] | e] eqn:E;
    try (vm_compute in E; discriminate).
  exists info. split; [reflexivity | ].
  destruct (parse_receipt_text_invariants _ _ E) as [H1 [H2 _]].
  split; assumption.
Defined.

(** X18. A text without a digit is no receipt: [parse_receipt_text] answers
    [None], without raising. *)
Theorem parse_receipt_text_digit_free (raw_text : str) :
  digit_free raw_text = true -> parse_receipt_text raw_text = Ok None.
Proof.
  intros Hd. unfold parse_receipt_text.
  destruct (map strip _) as [ | l ls]; [reflexivity | ].
  rewrite keyword_total_digit_free; [ | | exact Hd].
  - cbn [bind]. destruct patterns_need_digit as [Na _].
    rewrite (finditer_none is_digit _ _ Na (digit_free_none _ Hd)).
    reflexivity.
  - constructor; [apply needsb_needs; vm_compute; reflexivity | ].
    constructor; [apply needsb_needs; vm_compute; reflexivity | ].
    constructor.
Qed.

Lemma parse_receipt_text_digit_free_witness :
  parse_receipt_text (lit "Terima kasih") = Ok None.
Proof.
  apply parse_receipt_text_digit_free. vm_compute. reflexivity.
Defined.

End ReceiptTextFacts.

(** ** The bank-transaction detector *)

Section BankDetector.

Import Ocr.

Lemma join_app_prefix (sep : str) (l m : list str) :
  exists x, join sep (l ++ m) = join sep l ++ x.
Proof.
  induction l as [ | p rest IH].
  - exists (join sep m). reflexivity.
  - destruct rest as [ | r rs].
    + destruct m as [ | q qs].
      * exists []. cbn [app join]. rewrite app_nil_r. reflexivity.
      * exists (sep ++ join sep (q :: qs)). reflexivity.
    + destruct IH as [x Hx]. exists x.
      change (join sep ((p :: r :: rs) ++ m))
        with (p ++ sep ++ join sep ((r :: rs) ++ m)).
      rewrite Hx. change (join sep (p :: r :: rs))
        with (p ++ sep ++ join sep (r :: rs)).
      rewrite <- !app_assoc. reflexivity.
Qed.

Lemma join_app_suffix (sep : str) (l m : list str) :
  exists x, join sep (l ++ m) = x ++ join sep m.
Proof.
  induction l as [ | p rest IH].
  - exists []. reflexivity.
  - destruct IH as [x Hx].
    destruct (rest ++ m) as [ | q qs] eqn:E.
    + apply app_eq_nil in E. destruct E as [-> ->].
      exists p. cbn [app join]. rewrite app_nil_r. reflexivity.
    + exists (p ++ sep ++ x).
      change (join sep ((p :: rest) ++ m)) with (join sep (p :: rest ++ m)).
      rewrite E.
      change (join sep (p :: q :: qs)) with (p ++ sep ++ join sep (q :: qs)).
      rewrite Hx, <- !app_assoc. reflexivity.
Qed.

Lemma joined_inside (before lines after : list str) :
  exists x y,
    lower (join (lit " ") (before ++ lines ++ after))
    = x ++ lower (join (lit " ") lines) ++ y.
Proof.
  destruct (join_app_suffix (lit " ") before (lines ++ after)) as [x Hx].
  destruct (join_app_prefix (lit " ") lines after) as [y Hy].
  exists (lower x), (lower y). rewrite Hx, Hy. unfold lower.
  rewrite !map_app. reflexivity.
Qed.

Lemma any_in_more (hints : list str) (s t : str) :
  (forall h, contains h s = true -> contains h t = true) ->
  any_in hints s = true -> any_in hints t = true.
Proof.
  intros Hm H. unfold any_in in *. apply existsb_exists in H.
  destruct H as [h [Hh Hc]]. apply existsb_exists. exists h.
  split; [exact Hh | apply Hm, Hc].
Qed.

Lemma filter_more {A : Type} (f g : A -> bool) (l : list A) :
  (forall a, f a = true -> g a = true) ->
  (length (filter f l) <= length (filter g l))%nat.
Proof.
  intros H. induction l as [ | a l IH]; [apply Nat.le_refl | ].
  cbn [filter]. destruct (f a) eqn:Ef.
  - rewrite (H a Ef). cbn [length]. lia.
  - destruct (g a); cbn [length]; lia.
Qed.

(** X19. Lines recognised as a bank transaction stay recognised when further
    lines are put before or after them. *)
Theorem detect_bank_transaction_monotone (before lines after : list str) :
  _detect_bank_transaction lines = true ->
  _detect_bank_transaction (before ++ lines ++ after) = true.
Proof.
  unfold _detect_bank_transaction.
  destruct (joined_inside before lines after) as [x [y ->]].
  set (j := lower (join (lit " ") lines)).
  assert (Hm : forall h, contains h j = true ->
                         contains h (x ++ j ++ y) = true).
  { intros h Hh. apply contains_app_l, contains_app_r, Hh. }
  destruct (any_in BANK_NAMES j && any_in BANK_CONTEXT j) eqn:E.
  - intros _. apply andb_true_iff in E. destruct E as [E1 E2].
    rewrite (any_in_more _ _ _ Hm E1), (any_in_more _ _ _ Hm E2).
    reflexivity.
  - intros H.
    destruct (any_in BANK_NAMES (x ++ j ++ y) && _); [reflexivity | ].
    apply Nat.leb_le in H. apply Nat.leb_le.
    eapply Nat.le_trans; [exact H | ].
    apply filter_more. exact Hm.
Qed.

Lemma detect_bank_transaction_monotone_witness :
  _detect_bank_transaction (map lit ["Bank BCA"; "Transfer berhasil"]) = true
  /\ _detect_bank_transaction
       (map lit ["m-Transfer"] ++ map lit ["Bank BCA"; "Transfer berhasil"]
        ++ map lit ["Terima kasih"]) = true.
Proof.
  assert (H : _detect_bank_transaction
                (map lit ["Bank BCA"; "Transfer berhasil"]) = true)
    by (vm_compute; reflexivity).
  split; [exact H | ].
  exact (detect_bank_transaction_monotone _ _ _ H).
Defined.

End BankDetector.

(** ** The recipient of a bank transaction *)

Section BankMerchant.

Import Ocr.

Lemma recipient_of_source (lines : list str) :
  forall name,
    recipient_of lines = Ok (Some name) ->
    exists candidate,
      name = title candidate
      /\ 3 <= Z.of_nat (length candidate)
      /\ any_in INVALID_HINTS (lower candidate) = false
      /\ strip candidate = candidate.
Proof.
  induction lines as [ | line following IH]; cbn [recipient_of];
    intros name H; [discriminate | ].
  destruct (any_in RECIPIENT_LABELS (lower line)); [ | apply IH, H].
  set (candidate :=
         match search RECIPIENT_INLINE_RE line with
         | Some inline_match => strip (group line inline_match 1)
         | None => match following with
                   | next :: _ => strip next
                   | [] => []
                   end
         end) in *.
  assert (Hs : strip candidate = candidate).
  { unfold candidate. destruct (search RECIPIENT_INLINE_RE line);
      [apply strip_idem | ].
    destruct following; [reflexivity | apply strip_idem]. }
  bind_inv H.
  destruct (_ && _ && _) eqn:E; [ | apply IH, H].
  injection H as <-. exists candidate.
  apply andb_true_iff in E. destruct E as [E _].
  apply andb_true_iff in E. destruct E as [E1 E2].
  apply Z.leb_le in E1. apply negb_true_iff in E2.
  repeat split; assumption.
Qed.

Lemma bank_of_source (lines : list str) (name : str) :
  bank_of lines = Some name ->
  exists bank, In bank BANK_NAMES /\ name = lit "Transfer " ++ upper bank.
Proof.
  induction lines as [ | line others IH]; cbn [bank_of]; [discriminate | ].
  destruct (List.find _ BANK_NAMES) as [bank | ] eqn:E; [ | exact IH].
  intros H. injection H as <-. apply find_some in E.
  exists bank. split; [apply E | reflexivity].
Qed.

(** X20. The merchant picked for a bank transaction is the title-cased text
    of a recipient candidate (three characters or more, without
    surrounding whitespace and without an invalid hint), or "Transfer"
    followed by an upper-cased bank name, or the default name. *)
Theorem pick_bank_merchant_source (lines : list str) (name : str) :
  _pick_bank_merchant lines = Ok name ->
  (exists candidate,
     name = title candidate
     /\ 3 <= Z.of_nat (length candidate)
     /\ any_in INVALID_HINTS (lower candidate) = false
     /\ strip candidate = candidate)
  \/ (exists bank, In bank BANK_NAMES /\ name = lit "Transfer " ++ upper bank)
  \/ name = lit "Transaksi Bank".
Proof.
  unfold _pick_bank_merchant. intros H. bind_inv H.
  destruct a as [r | ].
  - injection H as <-. left. apply (recipient_of_source _ _ Ha).
  - destruct (bank_of _) as [b | ] eqn:E; injection H as <-.
    + right. left. apply (bank_of_source _ _ E).
    + right. right. reflexivity.
Qed.

Lemma pick_bank_merchant_source_witness :
  _pick_bank_merchant (map lit ["Bank BCA"; "Penerima: budi santoso"])
  = Ok (lit "Budi Santoso")
  /\ ((exists candidate,
         lit "Budi Santoso" = title candidate
         /\ 3 <= Z.of_nat (length candidate)
         /\ any_in INVALID_HINTS (lower candidate) = false
         /\ strip candidate = candidate)
      \/ (exists bank, In bank BANK_NAMES
                       /\ lit "Budi Santoso" = lit "Transfer " ++ upper bank)
      \/ lit "Budi Santoso" = lit "Transaksi Bank").
Proof.
  assert (H : _pick_bank_merchant (map lit ["Bank BCA"; "Penerima: budi santoso"])
              = Ok (lit "Budi Santoso")) by (vm_compute; reflexivity).
  split; [exact H | ].
  exact (pick_bank_merchant_source _ _ H).
Defined.

End BankMerchant.

(** ** Letter case *)

Section LetterCase.

Import Parser Ocr.

Lemma lower_strip_map (g : ascii -> ascii) (s : str) :
  (forall c, is_space (g c) = is_space c) ->
  (forall c, lower_c (g c) = lower_c c) ->
  lower (strip (map g s)) = lower (strip s).
Proof.
  intros Hs Hl. unfold strip, strip_by.
  rewrite (drop_while_map g s Hs), (rstrip_map g _ Hs).
  unfold lower. rewrite map_map. apply map_ext. exact Hl.
Qed.

Lemma lower_map (g : ascii -> ascii) (s : str) :
  (forall c, lower_c (g c) = lower_c c) -> lower (map g s) = lower s.
Proof.
  intros Hl. unfold lower. rewrite map_map. apply map_ext. exact Hl.
Qed.

Lemma parse_amount_token_stripped (a b : str) :
  lower (strip a) = lower (strip b) ->
  parse_amount_token a = parse_amount_token b.
Proof. intros H. unfold parse_amount_token. rewrite H. reflexivity. Qed.

Lemma plausible_token_low (a b : str) :
  token_low a = token_low b ->
  _is_plausible_money_token a = _is_plausible_money_token b.
Proof.
  intros H. unfold _is_plausible_money_token, has_suffix, has_currency,
    token_clean. rewrite H. reflexivity.
Qed.

(** X21. Letter case is ignored on ASCII text: an amount token, its
    plausibility and the category inferred from a text are the same in
    upper case. *)
Theorem upper_case_is_ignored (s : str) :
  isascii s = true ->
  parse_amount_token (upper s) = parse_amount_token s
  /\ _is_plausible_money_token (upper s) = _is_plausible_money_token s
  /\ infer_category (upper s) = infer_category s.
Proof.
  intros _. split; [ | split].
  - apply parse_amount_token_stripped. unfold upper.
    apply lower_strip_map; [apply is_space_upper_c | apply lower_c_upper_c].
  - apply plausible_token_low. unfold token_low, upper.
    rewrite lower_map by apply lower_c_upper_c. reflexivity.
  - unfold infer_category, upper.
    rewrite lower_map by apply lower_c_upper_c. reflexivity.
Qed.

Lemma upper_case_is_ignored_witness :
  isascii (lit "Rp 2,5 jt") = true
  /\ parse_amount_token (upper (lit "Rp 2,5 jt"))
     = parse_amount_token (lit "Rp 2,5 jt")
  /\ parse_amount_token (lit "Rp 2,5 jt") = Ok (Some 2500000).
Proof.
  assert (H : isascii (lit "Rp 2,5 jt") = true) by (vm_compute; reflexivity).
  split; [exact H | ].
  split; [exact (proj1 (upper_case_is_ignored _ H)) | ].
  vm_compute. reflexivity.
Defined.

End LetterCase.

(** ** The dispatch of a message *)

Section Dispatch.

Import Parser Bot.

(** An argument of a command, as a chat client sends it: a non-empty
    run of characters that are not whitespace. *)
Definition is_token (a : str) : bool :=
  negb (is_empty a) && forallb (fun c => negb (is_space c)) a.

Lemma is_token_spec (a : str) :
  is_token a = true ->
  a <> [] /\ forallb (fun c => negb (is_space c)) a = true.
Proof.
  unfold is_token. intros H. apply andb_true_iff in H.
  destruct H as [H1 H2]. split; [ | exact H2].
  destruct a; [discriminate | discriminate].
Qed.

Lemma is_token_lower (a : str) : is_token a = true -> is_token (lower a) = true.
Proof.
  unfold is_token, lower. intros H. apply andb_true_iff in H.
  destruct H as [H1 H2]. apply andb_true_iff. split.
  - destruct a; [discriminate | reflexivity].
  - rewrite forallb_forall in H2. apply forallb_forall. intros c Hc.
    apply in_map_iff in Hc. destruct Hc as [x [<- Hx]].
    rewrite is_space_lower_c. apply H2, Hx.
Qed.

Lemma tokens_lower (args : list str) :
  forallb is_token args = true -> forallb is_token (map lower args) = true.
Proof.
  induction args as [ | a rest IH]; [reflexivity | ]. cbn [forallb map].
  intros H. apply andb_true_iff in H. destruct H as [Ha Hr].
  rewrite (is_token_lower a Ha), (IH Hr). reflexivity.
Qed.

Lemma rstrip_app (p : ascii -> bool) (a b : str) :
  rstrip_by p b <> [] -> rstrip_by p (a ++ b) = a ++ rstrip_by p b.
Proof.
  intros H. induction a as [ | c t IH]; [reflexivity | ].
  cbn [app rstrip_by]. rewrite IH.
  destruct (t ++ rstrip_by p b) as [ | x r] eqn:E; [ | reflexivity].
  apply app_eq_nil in E. destruct E as [_ E]. contradiction.
Qed.

(** The tokens joined by single blanks: nothing to strip, and [split]
    gives the tokens back. *)
Lemma join_tokens (t : str) (ts : list str) :
  forallb is_token (t :: ts) = true ->
  let joined := join (lit " ") (t :: ts) in
  joined <> []
  /\ drop_while is_space joined = joined
  /\ rstrip_by is_space joined = joined.
Proof.
  revert t. induction ts as [ | t' rest IH]; intros t H;
    cbn [forallb] in H; apply andb_true_iff in H; destruct H as [Ht Hr];
    destruct (is_token_spec t Ht) as [Hne Hall].
  - cbn [join]. split; [exact Hne | ].
    split; [apply drop_while_none, Hall | apply rstrip_none, Hall].
  - destruct (IH t' Hr) as [Jne [_ Jr]].
    change (join (lit " ") (t :: t' :: rest))
      with (t ++ lit " " ++ join (lit " ") (t' :: rest)).
    cbv zeta. set (J := join (lit " ") (t' :: rest)) in *.
    split; [destruct t; [contradiction | discriminate] | ].
    split.
    + destruct t as [ | c u]; [contradiction | ].
      cbn [forallb] in Hall. apply andb_true_iff in Hall.
      destruct Hall as [Hc _]. apply negb_true_iff in Hc.
      cbn [app drop_while]. rewrite Hc. reflexivity.
    + assert (Hs : rstrip_by is_space (lit " " ++ J) = lit " " ++ J).
      { change (lit " " ++ J) with (" "%char :: J). cbn [rstrip_by].
        rewrite Jr. destruct J; [contradiction | reflexivity]. }
      rewrite rstrip_app; rewrite Hs; [reflexivity | discriminate].
Qed.

Lemma strip_join_tokens (t : str) (ts : list str) :
  forallb is_token (t :: ts) = true ->
  strip (join (lit " ") (t :: ts)) = join (lit " ") (t :: ts).
Proof.
  intros H. destruct (join_tokens t ts H) as [_ [Hd Hr]].
  unfold strip, strip_by. rewrite Hd. exact Hr.
Qed.

Lemma split_from_token (tok : str) :
  forallb (fun c => negb (is_space c)) tok = true ->
  forall cur s, split_from cur (tok ++ s) = split_from (rev tok ++ cur) s.
Proof.
  induction tok as [ | c t IH]; intros H cur s; [reflexivity | ].
  cbn [forallb] in H. apply andb_true_iff in H. destruct H as [Hc Ht].
  apply negb_true_iff in Hc. cbn [app split_from]. rewrite Hc.
  rewrite (IH Ht). cbn [rev]. rewrite <- app_assoc. reflexivity.
Qed.

Lemma split_join_tokens (ts : list str) :
  forallb is_token ts = true -> split (join (lit " ") ts) = ts.
Proof.
  unfold split. induction ts as [ | t rest IH]; intros H; [reflexivity | ].
  cbn [forallb] in H. apply andb_true_iff in H. destruct H as [Ht Hr].
  destruct (is_token_spec t Ht) as [Hne Hall].
  assert (Hrev : is_empty (rev t) = false).
  { destruct t as [ | c u]; [contradiction | ]. cbn [rev].
    destruct (rev u); reflexivity. }
  destruct rest as [ | t' rest'].
  - cbn [join]. rewrite <- (app_nil_r t) at 1.
    rewrite (split_from_token t Hall), app_nil_r. cbn [split_from].
    rewrite Hrev, rev_involutive. reflexivity.
  - change (join (lit " ") (t :: t' :: rest'))
      with (t ++ " "%char :: join (lit " ") (t' :: rest')).
    rewrite (split_from_token t Hall), app_nil_r.
    cbn [split_from]. change (is_space " ") with true. cbv iota.
    rewrite Hrev, rev_involutive, (IH Hr). reflexivity.
Qed.

Lemma lower_join (ts : list str) :
  lower (join (lit " ") ts) = join (lit " ") (map lower ts).
Proof.
  induction ts as [ | t rest IH]; [reflexivity | ].
  destruct rest as [ | t' rest']; [reflexivity | ].
  change (join (lit " ") (t :: t' :: rest'))
    with (t ++ lit " " ++ join (lit " ") (t' :: rest')).
  unfold lower at 1. rewrite !map_app. fold (lower t).
  fold (lower (join (lit " ") (t' :: rest'))). rewrite IH. reflexivity.
Qed.

Lemma slash_join (c : str) (args : list str) :
  join (lit " ") (@cons str (lit "/" ++ c) args)
  = "/"%char :: join (lit " ") (c :: args).
Proof. destruct args; reflexivity. Qed.

Lemma slash_tokens (command : str) (args : list str) :
  forallb is_token (command :: args) = true ->
  forallb is_token (@cons str (lit "/" ++ command) args) = true.
Proof.
  cbn [forallb]. intros H. apply andb_true_iff in H. destruct H as [Hc Ha].
  rewrite Ha, andb_true_r. unfold is_token in *.
  apply andb_true_iff in Hc. destruct Hc as [_ Hc]. cbn. exact Hc.
Qed.

Lemma rstrip_app_space (s : str) :
  rstrip_by is_space (s ++ lit " ") = rstrip_by is_space s.
Proof.
  induction s as [ | c t IH]; [reflexivity | ].
  cbn [app rstrip_by]. rewrite IH. reflexivity.
Qed.

Lemma build_command_text_join (command : str) (args : list str) :
  forallb is_token (command :: args) = true ->
  _build_command_text command args
  = "/"%char :: join (lit " ") (command :: args).
Proof.
  intros H. pose proof (slash_tokens command args H) as Hs.
  unfold _build_command_text. rewrite <- slash_join.
  rewrite <- (strip_join_tokens _ _ Hs).
  destruct args as [ | a rest].
  - cbn [join]. rewrite app_nil_r.
    change (lit "/" ++ command ++ lit " ")
      with ((lit "/" ++ command) ++ lit " ").
    unfold strip, strip_by.
    change (lit "/" ++ command) with ("/"%char :: command).
    change (("/"%char :: command) ++ lit " ")
      with ("/"%char :: (command ++ lit " ")).
    cbn [drop_while]. change (is_space "/") with false. cbv iota.
    change ("/"%char :: (command ++ lit " "))
      with (("/"%char :: command) ++ lit " ").
    apply rstrip_app_space.
  - reflexivity.
Qed.

(** What [handle_text] computes from a command text. *)
Lemma command_tokens (command : str) (args : list str) :
  forallb is_token (command :: args) = true ->
  let text := _build_command_text command args in
  strip text = text
  /\ is_empty text = false
  /\ strip (lower text)
     = "/"%char :: join (lit " ") (map lower (command :: args))
  /\ split (replace_first (lit "/") [] (strip (lower text)))
     = map lower (command :: args).
Proof.
  intros H. cbv zeta. rewrite (build_command_text_join _ _ H).
  pose proof (slash_tokens command args H) as Hs.
  pose proof (strip_join_tokens _ _ Hs) as H1.
  rewrite slash_join in H1.
  pose proof (strip_join_tokens _ _
                (slash_tokens (lower command) (map lower args)
                   (tokens_lower _ H))) as H2.
  rewrite slash_join in H2.
  change (lower command :: map lower args)
    with (map lower (command :: args)) in H2.
  assert (H3 : lower ("/"%char :: join (lit " ") (command :: args))
               = "/"%char :: join (lit " ") (map lower (command :: args))).
  { change ("/"%char :: join (lit " ") (command :: args))
      with (lit "/" ++ join (lit " ") (command :: args)).
    unfold lower at 1. rewrite map_app.
    fold (lower (join (lit " ") (command :: args))).
    rewrite lower_join. reflexivity. }
  split; [exact H1 | ].
  split; [reflexivity | ].
  rewrite H3, H2.
  split; [reflexivity | ].
  change (replace_first (lit "/") []
            ("/"%char :: join (lit " ") (map lower (command :: args))))
    with (join (lit " ") (map lower (command :: args))).
  apply split_join_tokens, tokens_lower, H.
Qed.

Lemma handle_command (user_key command : str) (args : list str) :
  forallb is_token (command :: args) = true ->
  let text := _build_command_text command args in
  let name := lower command in
  let lows := map lower args in
  handle_text user_key text
  = if in_set name ["start"; "help"] then Ok help_text
    else if str_eqb name (lit "total") then Ok (_reply_total user_key lows)
    else if str_eqb name (lit "list") then Ok (_reply_list user_key lows)
    else if str_eqb name (lit "hapus") then Ok (_reply_delete user_key lows)
    else if str_eqb name (lit "reset") then Ok (_reply_reset user_key lows)
    else if in_set name ["budget"; "anggaran"]
    then Ok (_reply_budget user_key text lows)
    else if in_set name ["laporan"; "report"]
    then Ok (_reply_report user_key text lows)
    else handle_text user_key text.
Proof.
  intros H. cbv zeta.
  destruct (command_tokens command args H) as [E1 [E2 [_ E4]]].
  set (text := _build_command_text command args) in *.
  unfold handle_text at 1. cbv zeta. rewrite E1, E2, E4. cbn [map tl].
  repeat match goal with
         | |- (if ?c then _ else _) = (if ?c then _ else _) =>
             destruct c eqn:?; [reflexivity | ]
         end.
  unfold handle_text. cbv zeta. rewrite E1, E2, E4. cbn [map tl].
  repeat match goal with
         | H : ?c = false |- context [if ?c then _ else _] => rewrite H
         end.
  reflexivity.
Qed.

(** X22. The command handlers of the chat front end reach the method
    they name: the text that [_build_command_text] makes of a command
    and its arguments is dispatched by [handle_text] to the method of
    that command, with the arguments in lower case; the budget and the
    report methods also receive the text itself. *)
Theorem command_round_trip (user_key : str) (args : list str) :
  forallb is_token args = true ->
  handle_text user_key (_build_command_text (lit "total") args)
  = Ok (_reply_total user_key (map lower args))
  /\ handle_text user_key (_build_command_text (lit "list") args)
     = Ok (_reply_list user_key (map lower args))
  /\ handle_text user_key (_build_command_text (lit "hapus") args)
     = Ok (_reply_delete user_key (map lower args))
  /\ handle_text user_key (_build_command_text (lit "reset") args)
     = Ok (_reply_reset user_key (map lower args))
  /\ handle_text user_key (_build_command_text (lit "budget") args)
     = Ok (_reply_budget user_key (_build_command_text (lit "budget") args)
             (map lower args))
  /\ handle_text user_key (_build_command_text (lit "laporan") args)
     = Ok (_reply_report user_key (_build_command_text (lit "laporan") args)
             (map lower args)).
Proof.
  intros H.
  assert (Hc : forall command,
             is_token command = true ->
             forallb is_token (command :: args) = true).
  { intros command Hk. cbn [forallb]. rewrite Hk, H. reflexivity. }
  split; [ | split; [ | split; [ | split; [ | split]]]].
  - rewrite (handle_command user_key (lit "total") args (Hc (lit "total") eq_refl)).
    reflexivity.
  - rewrite (handle_command user_key (lit "list") args (Hc (lit "list") eq_refl)).
    reflexivity.
  - rewrite (handle_command user_key (lit "hapus") args (Hc (lit "hapus") eq_refl)).
    reflexivity.
  - rewrite (handle_command user_key (lit "reset") args (Hc (lit "reset") eq_refl)).
    reflexivity.
  - rewrite (handle_command user_key (lit "budget") args (Hc (lit "budget") eq_refl)).
    reflexivity.
  - rewrite (handle_command user_key (lit "laporan") args (Hc (lit "laporan") eq_refl)).
    reflexivity.
Qed.

Lemma command_round_trip_witness :
  handle_text (lit "tg:7") (lit "/reset YA")
  = Ok (_reply_reset (lit "tg:7") [lit "ya"]).
Proof.
  assert (H : forallb is_token [lit "YA"] = true) by reflexivity.
  destruct (command_round_trip (lit "tg:7") [lit "YA"] H)
    as [_ [_ [_ [Hr _]]]].
  exact Hr.
Defined.

(** X23. An expense that [handle_text] records comes from
    [parse_expense_input] on the stripped message: it is recorded for
    the sender, with a positive amount, a non-empty item and a
    non-empty category, and only for a message that is no split bill
    and mentions no investment keyword. *)
Theorem recorded_expense_is_valid (user_key text : str)
    (u item category : str) (amount : Z) :
  handle_text user_key text = Ok (record_expense u item amount category) ->
  u = user_key
  /\ parse_expense_input (strip text)
     = Ok (Some (mkParsedExpense item amount category))
  /\ 0 < amount /\ item <> [] /\ category <> []
  /\ parse_split_bill (strip text) = Ok None
  /\ existsb (fun keyword => contains keyword (strip (lower (strip text))))
       INVESTMENT_KEYWORDS = false.
Proof.
  unfold handle_text. cbv zeta. intros H.
  repeat match type of H with
         | (if ?c then _ else _) = _ =>
             destruct c eqn:?; [discriminate | ]
         end.
  bind_inv H. destruct a as [bill | ]; [discriminate | ].
  bind_inv H. destruct a as [e | ]; [ | discriminate].
  injection H as <- <- <- <-.
  destruct (parsed_expense_facts _ e Ha0) as [H1 [H2 H3]].
  destruct e as [i a c]. cbn [Parser.item Parser.amount Parser.category] in *.
  repeat split; assumption.
Qed.

Lemma recorded_expense_is_valid_witness :
  handle_text (lit "tg:7") (lit " beli kopi 25rb ")
  = Ok (record_expense (lit "tg:7") (lit "Kopi") 25000
          (lit "Makanan & Minuman"))
  /\ parse_split_bill (strip (lit " beli kopi 25rb ")) = Ok None.
Proof.
  assert (H : handle_text (lit "tg:7") (lit " beli kopi 25rb ")
              = Ok (record_expense (lit "tg:7") (lit "Kopi") 25000
                      (lit "Makanan & Minuman")))
    by (vm_compute; reflexivity).
  split; [exact H | ].
  destruct (recorded_expense_is_valid _ _ _ _ _ _ H)
    as [_ [_ [_ [_ [_ [Hs _]]]]]].
  exact Hs.
Defined.

End Dispatch.
